(** * inprod/github-run-changesets: a shallow embedding of [src/index.js]

    The action resolves a list of changeset files, optionally parses a block
    of [KEY=VALUE] variables, and drives every file through the remote
    validate / execute / poll protocol.  This development embeds the
    functions of [src/index.js] as Rocq functions and proves the properties
    of the specification about them.

    Conventions of the embedding.

    - A JavaScript string is a sequence of UTF-16 code units.  The model
      keeps the code units below 256 (Rocq's [ascii]); this covers every
      character the source tests for (line feed, [=], [#], [/], the glob
      metacharacters, quote and backslash) and the white space of that range.
      A character outside that range occurs in two log texts only, where it
      stands as its UTF-8 bytes.
    - Numbers the source computes with (seconds, counters, priorities) are
      integers and are modelled in [Z].
    - [async] functions are run to completion in program order: the source
      awaits every promise at once, so a call is a state transformer over
      the outside world (network, clock, action outputs).
    - A thrown [Error] is a value [Throw message]; [try]/[catch] is a match
      on it.
    - [core.info] and [core.debug] lines are not part of the model;
      [core.warning], [core.error], [core.setOutput], [core.setFailed] and
      [process.exit] are recorded as events. *)

From Stdlib Require Import ZArith List String Ascii Bool Lia.
From Stdlib Require Import Sorting.Sorted Sorting.Permutation.
From Stdlib Require Import Numbers.DecimalString.
From Equations Require Import Equations.
Import ListNotations.

Set Warnings "-register-all".
Local Open Scope string_scope.
Local Open Scope Z_scope.

(* ===================================================================== *)
(** * JavaScript string primitives used by the source *)
(* ===================================================================== *)

Module JsString.

(** [WhiteSpace] and [LineTerminator] of ECMAScript, restricted to code
    units below 256: TAB, LF, VT, FF, CR, SPACE and NBSP. *)
Definition is_ws (c : ascii) : bool :=
  match nat_of_ascii c with
  | 9%nat | 10%nat | 11%nat | 12%nat | 13%nat | 32%nat | 160%nat => true
  | _ => false
  end.

(** [s.trimStart()] *)
Fixpoint trimStart (s : string) : string :=
  match s with
  | EmptyString => EmptyString
  | String c s' => if is_ws c then trimStart s' else s
  end.

(** [true] when every code unit of [s] is white space. *)
Fixpoint all_ws (s : string) : bool :=
  match s with
  | EmptyString => true
  | String c s' => is_ws c && all_ws s'
  end.

(** [s.trimEnd()] *)
Fixpoint trimEnd (s : string) : string :=
  match s with
  | EmptyString => EmptyString
  | String c s' => if all_ws s then EmptyString else String c (trimEnd s')
  end.

(** [s.trim()] *)
Definition trim (s : string) : string := trimEnd (trimStart s).

(** [s.split(c)] for a one-character separator: never the empty list. *)
Fixpoint split (c : ascii) (s : string) : list string :=
  match s with
  | EmptyString => [EmptyString]
  | String a s' =>
      if Ascii.eqb a c then EmptyString :: split c s'
      else match split c s' with
           | h :: t => String a h :: t
           | [] => [String a EmptyString]
           end
  end.

(** [parts.join(sep)] *)
Fixpoint join (sep : string) (parts : list string) : string :=
  match parts with
  | [] => EmptyString
  | [p] => p
  | p :: rest => p ++ sep ++ join sep rest
  end.

(** [s.startsWith(p)] *)
Definition startsWith (s p : string) : bool := String.prefix p s.

(** [s.includes(p)] *)
Fixpoint includes (s p : string) : bool :=
  String.prefix p s ||
  match s with
  | EmptyString => false
  | String _ s' => includes s' p
  end.

(** [s.replace(/c/g, r)] for a one-character pattern. *)
Fixpoint replaceAll (c : ascii) (r : string) (s : string) : string :=
  match s with
  | EmptyString => EmptyString
  | String a s' =>
      (if Ascii.eqb a c then r else String a EmptyString) ++ replaceAll c r s'
  end.

(** [true] when the code unit [c] occurs in [s]. *)
Fixpoint mem (c : ascii) (s : string) : bool :=
  match s with
  | EmptyString => false
  | String a s' => Ascii.eqb a c || mem c s'
  end.

(** ASCII case folding of [s.toLowerCase()]. *)
Definition lower (c : ascii) : ascii :=
  let n := nat_of_ascii c in
  if ((65 <=? n)%nat && (n <=? 90)%nat)%bool then ascii_of_nat (n + 32) else c.

Fixpoint toLowerCase (s : string) : string :=
  match s with
  | EmptyString => EmptyString
  | String a s' => String (lower a) (toLowerCase s')
  end.

(** Template-literal rendering of an integer, [`${n}`]. *)
Definition ofZ (n : Z) : string := NilEmpty.string_of_int (Z.to_int n).

(** Truthiness of a string: [!s] is [true] exactly for the empty string. *)
Definition truthy (s : string) : bool :=
  match s with EmptyString => false | _ => true end.

End JsString.

Definition LF : ascii := ascii_of_nat 10.
Definition nl : string := String LF EmptyString.

(* ===================================================================== *)
(** * JSON values *)
(* ===================================================================== *)

(** What [response.json()] yields.  Numbers are kept as integers: the source
    never computes with a number of a response, it only tests values for
    truthiness and splices them into messages. *)
Inductive json : Type :=
| JNull
| JBool (b : bool)
| JNum (n : Z)
| JStr (s : string)
| JArr (items : list json)
| JObj (fields : list (string * json)).

(** A JavaScript value read from a response: [None] is [undefined]. *)
Definition jsval : Type := option json.

Fixpoint assoc {A : Type} (k : string) (l : list (string * A)) : option A :=
  match l with
  | [] => None
  | (k', v) :: rest => if String.eqb k' k then Some v else assoc k rest
  end.

(** Truthiness, as tested by [!v], [v || d] and [v && e]. *)
Definition truthy (v : jsval) : bool :=
  match v with
  | None | Some JNull => false
  | Some (JBool b) => b
  | Some (JNum n) => negb (n =? 0)
  | Some (JStr s) => JsString.truthy s
  | Some (JArr _) | Some (JObj _) => true
  end.

(** [`${v}`]: the string a value turns into inside a template literal. *)
Fixpoint toStr (v : json) : string :=
  match v with
  | JNull => "null"
  | JBool true => "true"
  | JBool false => "false"
  | JNum n => JsString.ofZ n
  | JStr s => s
  | JArr items =>
      JsString.join ","
        (map (fun i => match i with JNull => EmptyString | _ => toStr i end) items)
  | JObj _ => "[object Object]"
  end.

Definition emptyObject : json := JObj [].

(** [v[k]] on a value that is neither [null] nor [undefined]: the own
    property of an object, [undefined] otherwise.  None of the names the
    source reads is a property of a primitive, an array or
    [Object.prototype]. *)
Definition prop (v : json) (k : string) : jsval :=
  match v with
  | JObj fields => assoc k fields
  | _ => None
  end.

(* ===================================================================== *)
(** * Results of fallible code *)
(* ===================================================================== *)

(** A computation either returns a value or throws an [Error] with the
    given [message]. *)
Inductive Res (A : Type) : Type :=
| Ok (a : A)
| Throw (message : string).
Arguments Ok {A} a.
Arguments Throw {A} message.

(* ===================================================================== *)
(** * Plain objects with string values ([changesetVariables]) *)
(* ===================================================================== *)

Module JsObject.

(** The own properties of a plain object, in insertion order. *)
Definition t : Type := list (string * string).

(** Define or overwrite the own property [k]; an existing key keeps its
    position. *)
Fixpoint put (k v : string) (o : t) : t :=
  match o with
  | [] => [(k, v)]
  | (k', v') :: rest =>
      if String.eqb k' k then (k, v) :: rest else (k', v') :: put k v rest
  end.

(** [o[k] = v] on an object created by [{}], [v] a string.  The key
    [__proto__] reaches the accessor of [Object.prototype], which ignores a
    value that is neither an object nor [null]: no own property appears. *)
Definition set (k v : string) (o : t) : t :=
  if String.eqb k "__proto__" then o else put k v o.

Definition get (k : string) (o : t) : option string := assoc k o.

(** A canonical array index: the decimal rendering, without leading
    zeros, of an integer below [2^32 - 1]. *)
Fixpoint digits (s : string) (acc : Z) : option Z :=
  match s with
  | EmptyString => Some acc
  | String c s' =>
      let n := Z.of_nat (nat_of_ascii c) in
      if (48 <=? n) && (n <=? 57) then digits s' (10 * acc + (n - 48)) else None
  end.

Definition arrayIndex (k : string) : option Z :=
  match k with
  | EmptyString => None
  | String c rest =>
      if Ascii.eqb c "0" && negb (String.eqb rest EmptyString) then None
      else match digits k 0 with
           | Some n => if n <? 4294967295 then Some n else None
           | None => None
           end
  end.

Fixpoint insertIndexed (e : Z * (string * string))
    (l : list (Z * (string * string))) : list (Z * (string * string)) :=
  match l with
  | [] => [e]
  | e' :: rest => if fst e <=? fst e' then e :: l else e' :: insertIndexed e rest
  end.

(** [Object.entries(o)]: array-index keys in ascending numeric order,
    then the other keys in insertion order. *)
Definition entries (o : t) : list (string * string) :=
  let indexed :=
    fold_right
      (fun kv acc =>
         match arrayIndex (fst kv) with
         | Some n => insertIndexed (n, kv) acc
         | None => acc
         end) [] o in
  map snd indexed ++
  filter (fun kv => match arrayIndex (fst kv) with Some _ => false | None => true end) o.

Definition keys (o : t) : list string := map fst (entries o).

End JsObject.

(* ===================================================================== *)
(** * Parsing of the [changeset_variables] input ([run], lines 371-386) *)
(* ===================================================================== *)

Definition invalidVariablesMessage (trimmed : string) : string :=
  "Invalid changeset_variables format. Expected KEY=VALUE on each line, got: "
  ++ trimmed.

(** The body of the [for (const line of lines)] loop. *)
Definition parseLine (changesetVariables : JsObject.t) (line : string)
    : Res JsObject.t :=
  let trimmed := JsString.trim line in
  if negb (JsString.truthy trimmed) || JsString.startsWith trimmed "#"
  then Ok changesetVariables
  else
    match JsString.split "=" trimmed with
    | key :: valueParts =>
        if negb (JsString.truthy key) || (Z.of_nat (List.length valueParts) =? 0)
        then Throw (invalidVariablesMessage trimmed)
        else Ok (JsObject.set (JsString.trim key)
                   (JsString.trim (JsString.join "=" valueParts))
                   changesetVariables)
    | [] => Throw (invalidVariablesMessage trimmed)
    end.

Fixpoint parseLines (lines : list string) (changesetVariables : JsObject.t)
    : Res JsObject.t :=
  match lines with
  | [] => Ok changesetVariables
  | line :: rest =>
      match parseLine changesetVariables line with
      | Ok vars => parseLines rest vars
      | Throw m => Throw m
      end
  end.

(** [changesetVariables] as [run] computes it from the raw input; [None] is
    the initial [null]. *)
Definition parseChangesetVariables (changesetVariablesInput : string)
    : Res (option JsObject.t) :=
  if JsString.truthy changesetVariablesInput
     && JsString.truthy (JsString.trim changesetVariablesInput)
  then
    match parseLines (JsString.split LF (JsString.trim changesetVariablesInput)) [] with
    | Ok vars => Ok (Some vars)
    | Throw m => Throw m
    end
  else Ok None.

(** ** The parser as the specification words it *)

Module VariableSetSpec.

(** Outcome of [parse]: absent, a variable set, or a [ConfigError] naming
    a line. *)
Inductive outcome : Type :=
| Absent
| Vars (vars : list (string * string))
| ConfigError (line : string).

(** Split at the first occurrence of [c]: what is left of it and what is
    right of it; [None] when [c] does not occur. *)
Fixpoint cut (c : ascii) (s : string) : option (string * string) :=
  match s with
  | EmptyString => None
  | String a s' =>
      if Ascii.eqb a c then Some (EmptyString, s')
      else match cut c s' with
           | Some (l, r) => Some (String a l, r)
           | None => None
           end
  end.

(** One line: trimmed; blank and [#] lines ignored; key left of the first
    [=], value right of it, both trimmed; an error when there is no [=].
    With [strict] a line that starts with [=] is an error too. *)
Definition line (strict : bool) (acc : Res (list (string * string))) (l : string)
    : Res (list (string * string)) :=
  match acc with
  | Throw m => Throw m
  | Ok vars =>
      let trimmed := JsString.trim l in
      if String.eqb trimmed EmptyString || JsString.startsWith trimmed "#"
      then Ok vars
      else match cut "=" trimmed with
           | None => Throw trimmed
           | Some (k, v) =>
               if strict && String.eqb k EmptyString then Throw trimmed
               else Ok (JsObject.put (JsString.trim k) (JsString.trim v) vars)
           end
  end.

Definition parse_gen (strict : bool) (raw : string) : outcome :=
  if JsString.all_ws raw then Absent
  else match fold_left (line strict) (JsString.split LF raw) (Ok []) with
       | Ok vars => Vars vars
       | Throw l => ConfigError l
       end.

(** The parser of the specification, as worded. *)
Definition parse : string -> outcome := parse_gen false.

(** The same parser, with a line starting with [=] (an empty key) rejected
    like a line without [=]. *)
Definition parse_strict : string -> outcome := parse_gen true.

(** The key a line defines, if it defines one. *)
Definition keyOf (l : string) : option string :=
  let trimmed := JsString.trim l in
  if String.eqb trimmed EmptyString || JsString.startsWith trimmed "#" then None
  else match cut "=" trimmed with
       | Some (k, _) => Some (JsString.trim k)
       | None => None
       end.

End VariableSetSpec.

(** How the result of the source relates to an outcome of the
    specification: the same variables, absent for absent, and a thrown error
    whose message ends with the line the [ConfigError] names. *)
Definition agrees (code : Res (option JsObject.t)) (spec : VariableSetSpec.outcome)
    : Prop :=
  match code, spec with
  | Ok None, VariableSetSpec.Absent => True
  | Ok (Some vars), VariableSetSpec.Vars vars' => vars = vars'
  | Throw m, VariableSetSpec.ConfigError l => m = invalidVariablesMessage l
  | _, _ => False
  end.

(* ===================================================================== *)
(** * Injection of variables into a changeset document *)
(* ===================================================================== *)

Module Injector.

(** The scope of a variable entry: an environment id or name. *)
Inductive scope : Type :=
| ScopeId (id : Z)
| ScopeName (name : string).

(** An entry of a document's variable collection. *)
Record VariableEntry : Type := {
  name : string;
  value : string;
  maskValue : bool;
  environment : option scope   (* [None] is [null]: the global scope *)
}.

(** A changeset document: its variable collection and its other fields. *)
Record Document : Type := {
  variable : list VariableEntry;
  others : list (string * json)
}.

Definition named (n : string) (e : VariableEntry) : bool := String.eqb (name e) n.

(** Modelled from the spec: the functions [injectYamlVariables] and
    [injectJsonVariables] that the test-suite imports from [./index] are
    missing from [src/index.js], which only has [buildYamlPayload].  One
    step of [inject] (section 4.2): scan the entries named [n], take
    [maskValue] as [true] if any of them has it, remove them all and append
    one entry of global scope. *)
Definition injectOne (doc : Document) (nv : string * string) : Document :=
  let n := fst nv in
  let matching := filter (named n) (variable doc) in
  let mask := existsb maskValue matching in
  {| variable :=
       filter (fun e => negb (named n e)) (variable doc)
       ++ [ {| name := n; value := snd nv; maskValue := mask; environment := None |} ];
     others := others doc |}.

(** Modelled from the spec: [inject(document, format, variables)], the
    merge that both dialects share, for each [(name, value)] of the
    variables in their order. *)
Definition inject (doc : Document) (variables : list (string * string)) : Document :=
  fold_left injectOne variables doc.

End Injector.

(* ===================================================================== *)
(** * Payload of the block-structured dialect *)
(* ===================================================================== *)

Definition backslash : ascii := ascii_of_nat 92.
Definition dquote : ascii := ascii_of_nat 34.

(** [buildYamlPayload(content, variables)] *)
Definition buildYamlPayload (content : string) (variables : option JsObject.t) : string :=
  let indentedContent :=
    JsString.join nl (map (fun line => "  " ++ line) (JsString.split LF content)) in
  let yaml := "changeset: |" ++ nl ++ indentedContent in
  match variables with
  | Some vars =>
      if 0 <? Z.of_nat (List.length (JsObject.keys vars)) then
        fold_left
          (fun yaml kv =>
             let escaped :=
               JsString.replaceAll dquote (String backslash (String dquote EmptyString))
                 (JsString.replaceAll backslash
                    (String backslash (String backslash EmptyString)) (snd kv)) in
             yaml ++ nl ++ "  " ++ fst kv ++ ": " ++ String dquote escaped
                  ++ String dquote EmptyString)
          (JsObject.entries vars)
          (yaml ++ nl ++ "variables:")
      else yaml
  | None => yaml
  end.

(* ===================================================================== *)
(** * Paths *)
(* ===================================================================== *)

Module Path.

(** [path.basename(p)] of the POSIX flavour: the last portion of [p],
    trailing separators ignored. *)
Definition basename (p : string) : string :=
  fold_left (fun last part => if JsString.truthy part then part else last)
    (JsString.split "/" p) EmptyString.

(** What follows the last [.] of [s], the dot included, and how many code
    units precede that dot. *)
Fixpoint lastDot (s : string) : option (nat * string) :=
  match s with
  | EmptyString => None
  | String c s' =>
      match lastDot s' with
      | Some (i, ext) => Some (S i, ext)
      | None => if Ascii.eqb c "." then Some (O, s) else None
      end
  end.

(** [path.extname(p)]: from the last [.] of the base name to its end; empty
    when there is no dot, when the only dot opens the base name, and for
    [..]. *)
Definition extname (p : string) : string :=
  let b := basename p in
  match lastDot b with
  | Some (S _, ext) => if String.eqb b ".." then EmptyString else ext
  | _ => EmptyString
  end.

End Path.

(** [getFileFormat(filePath)] *)
Inductive Format : Type := FormatJson | FormatYaml.

Definition getFileFormat (filePath : string) : Format :=
  let ext := JsString.toLowerCase (Path.extname filePath) in
  if String.eqb ext ".json" then FormatJson else FormatYaml.

(* ===================================================================== *)
(** * The platform: what Node and the file system answer *)
(* ===================================================================== *)

Record Platform : Type := {
  path_resolve : string -> string;             (* [path.resolve(p)] *)
  globSync : string -> list string;            (* [globSync(p, { nodir: true })] *)
  existsSync : string -> bool;                 (* [fs.existsSync(p)] *)
  readFileSync : string -> Res string;         (* [fs.readFileSync(p, 'utf8')] *)
  localeCompare : string -> string -> Z;       (* [a.localeCompare(b)] *)
  isURL : string -> bool;                      (* [new URL(s)] does not throw *)
  encodeURIComponent : string -> string;
  JSON_stringify : json -> string;             (* [JSON.stringify(v)] *)
  JSON_stringify_pretty : json -> string       (* [JSON.stringify(v, null, 2)] *)
}.


(** Code-unit lexicographic comparison, a consistent comparison function. *)
Definition lexCompare (a b : string) : Z :=
  match String.compare a b with
  | Lt => -1
  | Eq => 0
  | Gt => 1
  end.

(* ===================================================================== *)
(** * File resolution *)
(* ===================================================================== *)

(** [isGlobPattern(pattern)]: the regular expression [/[*?[\]{}]/]. *)
Definition isGlobChar (c : ascii) : bool :=
  JsString.mem c "*?[]{}".

Fixpoint isGlobPattern (pattern : string) : bool :=
  match pattern with
  | EmptyString => false
  | String c rest => isGlobChar c || isGlobPattern rest
  end.

(** [arr.sort(comparefn)].  The sort of ECMAScript is stable, and for a
    consistent comparison function its result does not depend on the
    algorithm; the model is the stable insertion sort. *)
Fixpoint sortInsert {A : Type} (comparefn : A -> A -> Z) (x : A) (l : list A) : list A :=
  match l with
  | [] => [x]
  | y :: rest =>
      if comparefn x y <=? 0 then x :: l else y :: sortInsert comparefn x rest
  end.

Fixpoint sort {A : Type} (comparefn : A -> A -> Z) (l : list A) : list A :=
  match l with
  | [] => []
  | x :: rest => sortInsert comparefn x (sort comparefn rest)
  end.

(** The comparison function [resolveFiles] sorts with. *)
Definition byBasename (P : Platform) (a b : string) : Z :=
  localeCompare P (Path.basename a) (Path.basename b).

(** [resolveFiles(changesetFile)] *)
Definition resolveFiles (P : Platform) (changesetFile : string) : Res (list string) :=
  if negb (JsString.truthy changesetFile)
     || String.eqb (JsString.trim changesetFile) EmptyString
  then Throw "changeset_file is required"
  else if isGlobPattern changesetFile then
    let normalizedPattern := JsString.replaceAll backslash "/" changesetFile in
    let matches := globSync P normalizedPattern in
    if Z.of_nat (List.length matches) =? 0
    then Throw ("No files matched the pattern: " ++ changesetFile)
    else Ok (sort (byBasename P) (map (path_resolve P) matches))
  else
    let filePath := path_resolve P changesetFile in
    if negb (existsSync P filePath)
    then Throw ("Changeset file not found: " ++ filePath)
    else Ok [filePath].

(* ===================================================================== *)
(** * Per-file results and their aggregation *)
(* ===================================================================== *)

Record FileResult : Type := {
  file : string;
  taskId : option string;
  status : string;
  result : json;
  error : option string   (* [None] is [undefined] *)
}.

(** [STATUS_PRIORITY[s]]: [None] is [undefined].  A name that the object
    inherits from [Object.prototype] yields a value that is not a number;
    a comparison with it is false, as the comparison of 99 with one of the
    priorities below is in [worstStatus], so such a status is never taken
    either way. *)
Definition STATUS_PRIORITY (s : string) : option Z :=
  assoc s [("FAILURE", 0); ("TIMEOUT", 1); ("REVOKED", 2); ("SUBMITTED", 3);
           ("SUCCESS", 4)].

(** [STATUS_PRIORITY[s] ?? 99] *)
Definition priority (s : string) : Z :=
  match STATUS_PRIORITY s with
  | Some p => p
  | None => 99
  end.

(** The callback of the reduction in [worstStatus]. *)
Definition worse (worst : string) (r : FileResult) : string :=
  if priority (status r) <? priority worst then status r else worst.

(** [worstStatus(results)] *)
Definition worstStatus (results : list FileResult) : string :=
  fold_left worse results "SUCCESS".

(* ===================================================================== *)
(** * The outside world *)
(* ===================================================================== *)

(** What an awaited [fetch] resolves to: the fields and body readers of the
    response the source uses. *)
Record Response : Type := {
  ok : bool;
  http_status : Z;
  statusText : string;
  text : Res string;      (* [await response.text()] *)
  body_json : Res json    (* [await response.json()] *)
}.

(** An awaited [fetch(...)]: a response, or a rejection (a transport-level
    fault) with the message of its error. *)
Definition FetchReply : Type := Res Response.

Inductive RequestBody : Type :=
| YamlBody (payload : string)
| JsonBody (changeset : string) (variables : option JsObject.t).
    (* [JSON.stringify({ changeset, variables })] *)

Record Request : Type := {
  method : string;
  url : string;
  authorization : string;
  contentType : string;
  body : option RequestBody
}.

(** An entry of the [result] output, before [JSON.stringify]. *)
Record ResultEntry : Type := {
  entry_file : string;
  entry_status : string;
  entry_result : json;
  entry_error : option string   (* [None] is [null] *)
}.

Inductive OutputValue : Type :=
| OutString (s : string)
| OutResults (entries : list ResultEntry).

(** What the action does to the outside world, in program order.
    [CallValidate] and [CallExecute] mark the entry into [validateFile] and
    [executeFile]: an attempt to validate or to execute a file. *)
Inductive Event : Type :=
| CallValidate (filePath : string)
| CallExecute (filePath : string)
| Sleep (ms : Z)
| Fetch (req : Request)
| Warning (msg : string)
| Error (msg : string)
| SetSecret (secret : string)
| SetOutput (name : string) (value : OutputValue)
| SetFailed (msg : string)
| Exit (code : Z).

(** The world: the replies the network will give, by request number, the
    number of requests issued so far and the events so far. *)
Record World : Type := {
  net : nat -> FetchReply;
  fetched : nat;
  trace : list Event
}.

Definition emit (e : Event) (w : World) : World :=
  {| net := net w; fetched := fetched w; trace := trace w ++ [e] |}.

(** [await fetch(url, init)] *)
Definition fetch (req : Request) (w : World) : FetchReply * World :=
  (net w (fetched w),
   {| net := net w; fetched := S (fetched w); trace := trace w ++ [Fetch req] |}).

(* ===================================================================== *)
(** * Polling a task *)
(* ===================================================================== *)

Inductive TaskOutcome : Type :=
| TSuccess (result : json)
| TFailure (error : json)
| TRevoked
| TTimeout.

Definition pollInterval : Z := 5.

Definition pollRequest (baseUrl apiKey taskId : string) : Request :=
  {| method := "GET";
     url := baseUrl ++ "/api/v1/task-status/" ++ taskId ++ "/";
     authorization := "Api-Key " ++ apiKey;
     contentType := "application/json";
     body := None |}.

(** [a || b] on values of a response. *)
Definition orElse (a : jsval) (b : json) : json :=
  match a with
  | Some v => if truthy a then v else b
  | None => b
  end.

(** [v === 'literal'] *)
Definition strictEq (v : jsval) (literal : string) : bool :=
  match v with
  | Some (JStr s) => String.eqb s literal
  | _ => false
  end.

(** The [try] block of one iteration: [Ok (Some o)] returns [o] from
    [pollTask], [Ok None] falls through to the next iteration, [Throw m] is
    an error for the [catch] clause. *)
Definition pollAttempt (reply : FetchReply) : Res (option TaskOutcome) :=
  match reply with
  | Throw m => Throw m
  | Ok pollResponse =>
      if negb (ok pollResponse) then
        match text pollResponse with
        | Throw m => Throw m
        | Ok errorBody =>
            Throw ("Poll failed with status " ++ JsString.ofZ (http_status pollResponse)
                   ++ ": "
                   ++ (if JsString.truthy errorBody then errorBody
                       else statusText pollResponse))
        end
      else
        match body_json pollResponse with
        | Throw m => Throw m
        | Ok JNull => Throw "Cannot read properties of null (reading 'status')"
        | Ok pollData =>
            let status := prop pollData "status" in
            if strictEq status "SUCCESS" then
              Ok (Some (TSuccess (orElse (prop pollData "result") emptyObject)))
            else if strictEq status "FAILURE" then
              Ok (Some (TFailure (orElse (prop pollData "error") (JStr "Unknown error"))))
            else if strictEq status "REVOKED" then Ok (Some TRevoked)
            else Ok None
        end
  end.

(** The [catch] clause: [true] when the error is thrown again. *)
Definition rethrown (message : string) : bool :=
  JsString.truthy message && JsString.includes message "Poll failed".

Definition retryWarning (message : string) : string :=
  "Error during polling: " ++ message ++ ". Retrying...".

(** The [while (elapsed < pollingTimeoutSeconds)] loop of [pollTask]: sleep
    one interval, add it to [elapsed], ask for the status.  Every iteration
    adds [pollInterval] to [elapsed], which bounds the number of
    iterations. *)
Equations pollLoop (req : Request) (pollingTimeoutSeconds elapsed : Z) (w : World)
    : Res TaskOutcome * World
    by wf (Z.to_nat (pollingTimeoutSeconds - elapsed)) lt :=
  pollLoop req pollingTimeoutSeconds elapsed w
    with Z_lt_dec elapsed pollingTimeoutSeconds := {
    | right _ => (Ok TTimeout, w)
    | left _ =>
        let w1 := emit (Sleep (pollInterval * 1000)) w in
        let elapsed' := elapsed + pollInterval in
        let r := fetch req w1 in
        match pollAttempt (fst r) with
        | Ok (Some outcome) => (Ok outcome, snd r)
        | Ok None => pollLoop req pollingTimeoutSeconds elapsed' (snd r)
        | Throw message =>
            if rethrown message then (Throw message, snd r)
            else pollLoop req pollingTimeoutSeconds elapsed'
                   (emit (Warning (retryWarning message)) (snd r))
        end
    }.
Next Obligation. unfold pollInterval. lia. Qed.
Next Obligation. unfold pollInterval. lia. Qed.

(** [pollTask(baseUrl, apiKey, taskId, label, pollingTimeoutSeconds)]; the
    label only appears in [core.info] lines. *)
Definition pollTask (baseUrl apiKey taskId : string) (pollingTimeoutSeconds : Z)
    (w : World) : Res TaskOutcome * World :=
  pollLoop (pollRequest baseUrl apiKey taskId) pollingTimeoutSeconds 0 w.

(* ===================================================================== *)
(** * Effectful code: state passing with exceptions *)
(* ===================================================================== *)

Definition M (A : Type) : Type := World -> Res A * World.

Definition ret {A : Type} (a : A) : M A := fun w => (Ok a, w).

Definition throw {A : Type} (message : string) : M A := fun w => (Throw message, w).

Definition bind {A B : Type} (m : M A) (k : A -> M B) : M B :=
  fun w =>
    match m w with
    | (Ok a, w') => k a w'
    | (Throw message, w') => (Throw message, w')
    end.

(** Run [m] and hand its outcome, returned or thrown, to the caller: the
    [try] of a [try]/[catch]. *)
Definition attempt {A : Type} (m : M A) : M (Res A) :=
  fun w => let r := m w in (Ok (fst r), snd r).

Definition lift {A : Type} (r : Res A) : M A := fun w => (r, w).

Definition log (e : Event) : M unit := fun w => (Ok tt, emit e w).

Definition await_fetch (req : Request) : M FetchReply :=
  fun w => let r := fetch req w in (Ok (fst r), snd r).

Declare Scope action_scope.
Delimit Scope action_scope with action.
Notation "x <- m ;; k" := (bind m (fun x => k))
  (at level 61, m at next level, right associativity) : action_scope.
Notation "m ;; k" := (bind m (fun _ => k))
  (at level 61, right associativity) : action_scope.
Local Open Scope action_scope.

(* ===================================================================== *)
(** * Validating and executing one file *)
(* ===================================================================== *)

Record Options : Type := {
  apiKey : string;
  baseUrl : string;
  environment : string;
  validateBeforeExecute : bool;
  validateOnly : bool;
  pollingTimeoutSeconds : Z;
  changesetVariables : option JsObject.t
}.

(** [buildUrl(baseUrl, endpoint, environment)] *)
Definition buildUrl (P : Platform) (baseUrl endpoint environment : string) : string :=
  let envParam :=
    if JsString.truthy environment
    then "?environment=" ++ encodeURIComponent P environment
    else EmptyString in
  baseUrl ++ endpoint ++ envParam.

(** What [validateFile] and [executeFile] return. *)
Record OpResult : Type := {
  op_taskId : option string;
  op_status : string;
  op_result : json;
  op_error : option string
}.

(** Request body and content type by file format. *)
Definition requestBody (format : Format) (content : string)
    (changesetVariables : option JsObject.t) : RequestBody * string :=
  match format with
  | FormatJson => (JsonBody content changesetVariables, "application/json")
  | FormatYaml => (YamlBody (buildYamlPayload content changesetVariables), "application/yaml")
  end.

(** [data.data.attributes.task_id] inside its [try]: reading a property of
    [null] or [undefined] throws. *)
Definition readTaskId (data : json) : Res jsval :=
  match data with
  | JNull => Throw "Cannot read properties of null (reading 'data')"
  | _ =>
      match prop data "data" with
      | None => Throw "Cannot read properties of undefined (reading 'attributes')"
      | Some JNull => Throw "Cannot read properties of null (reading 'attributes')"
      | Some d =>
          match prop d "attributes" with
          | None => Throw "Cannot read properties of undefined (reading 'task_id')"
          | Some JNull => Throw "Cannot read properties of null (reading 'task_id')"
          | Some a => Ok (prop a "task_id")
          end
      end
  end.

(** [if (!taskId || taskId.trim() === '') throw ...]: a truthy value that is
    not a string has no [trim] method. *)
Definition checkTaskId (variable emptyMessage : string) (taskId : jsval) : Res string :=
  if negb (truthy taskId) then Throw emptyMessage
  else match taskId with
       | Some (JStr s) =>
           if String.eqb (JsString.trim s) EmptyString then Throw emptyMessage else Ok s
       | _ => Throw (variable ++ ".trim is not a function")
       end.

(** Submission of a file: the part [validateFile] and [executeFile] share,
    from reading the file to the task id. *)
Definition submit (P : Platform) (endpoint : Format -> string)
    (failedMessage extractMessage variable emptyMessage : string)
    (filePath : string) (options : Options) : M string :=
  content <- lift (readFileSync P filePath) ;;
  let format := getFileFormat filePath in
  let submitUrl := buildUrl P (baseUrl options) (endpoint format) (environment options) in
  let bc := requestBody format content (changesetVariables options) in
  reply <- await_fetch
    {| method := "POST"; url := submitUrl;
       authorization := "Api-Key " ++ apiKey options;
       contentType := snd bc; body := Some (fst bc) |} ;;
  match reply with
  | Throw message =>
      log (Error ("Network error connecting to InProd API: " ++ message)) ;;
      throw ("Failed to connect to InProd API at " ++ submitUrl ++ ": " ++ message)
  | Ok response =>
      if negb (ok response) then
        errorBody <- lift (text response) ;;
        throw (failedMessage ++ JsString.ofZ (http_status response) ++ ": "
               ++ (if JsString.truthy errorBody then errorBody else statusText response))
      else
        data <- lift (body_json response) ;;
        taskId <- lift (match readTaskId data with
                        | Ok v => Ok v
                        | Throw _ => Throw (extractMessage ++ JSON_stringify P data)
                        end) ;;
        lift (checkTaskId variable emptyMessage taskId)
  end.

Definition validateEndpoint (format : Format) : string :=
  match format with
  | FormatJson => "/api/v1/change-set/change-set/validate_json/"
  | FormatYaml => "/api/v1/change-set/change-set/validate_yaml/"
  end.

Definition executeEndpoint (format : Format) : string :=
  match format with
  | FormatJson => "/api/v1/change-set/change-set/execute_json/"
  | FormatYaml => "/api/v1/change-set/change-set/execute_yaml/"
  end.

(** [validateFile(filePath, options)] *)
Definition validateFile (P : Platform) (filePath : string) (options : Options)
    : M OpResult :=
  log (CallValidate filePath) ;;
  validateTaskId <- submit P validateEndpoint
    "Validation request failed with status "
    "Failed to extract task_id from validation response. Response: "
    "validateTaskId" "Validation API returned an empty task_id"
    filePath options ;;
  validateResult <- pollTask (baseUrl options) (apiKey options) validateTaskId
                      (pollingTimeoutSeconds options) ;;
  match validateResult with
  | TTimeout =>
      ret {| op_taskId := Some validateTaskId; op_status := "TIMEOUT";
             op_result := emptyObject;
             op_error := Some ("Validation did not complete within "
                               ++ JsString.ofZ (pollingTimeoutSeconds options)
                               ++ " seconds") |}
  | TFailure e =>
      ret {| op_taskId := None; op_status := "FAILURE"; op_result := emptyObject;
             op_error := Some ("Validation failed: " ++ toStr e) |}
  | TRevoked =>
      ret {| op_taskId := None; op_status := "REVOKED"; op_result := emptyObject;
             op_error := Some "Validation task was cancelled" |}
  | TSuccess result =>
      let isValid := prop result "is_valid" in
      if negb (truthy isValid) then
        log (Error ("Validation errors:" ++ nl
                    ++ JSON_stringify_pretty P
                         (orElse (prop result "validation_results") (JArr [])))) ;;
        ret {| op_taskId := None; op_status := "FAILURE"; op_result := result;
               op_error := Some "Changeset validation failed. See validation errors above." |}
      else
        ret {| op_taskId := None; op_status := "SUCCESS"; op_result := result;
               op_error := None |}
  end.

(** [executeFile(filePath, options)] *)
Definition executeFile (P : Platform) (filePath : string) (options : Options)
    : M OpResult :=
  log (CallExecute filePath) ;;
  taskId <- submit P executeEndpoint
    "API request failed with status "
    "Failed to extract task_id from API response. Response: "
    "taskId" "API returned an empty task_id"
    filePath options ;;
  pollResult <- pollTask (baseUrl options) (apiKey options) taskId
                  (pollingTimeoutSeconds options) ;;
  match pollResult with
  | TSuccess result =>
      ret {| op_taskId := None; op_status := "SUCCESS"; op_result := result;
             op_error := None |}
  | TFailure e =>
      log (Error ("✗ Task failed: " ++ toStr e)) ;;
      ret {| op_taskId := None; op_status := "FAILURE"; op_result := emptyObject;
             op_error := Some ("Changeset execution failed: " ++ toStr e) |}
  | TRevoked =>
      log (Warning "⚠ Task was cancelled/revoked") ;;
      ret {| op_taskId := None; op_status := "REVOKED"; op_result := emptyObject;
             op_error := Some "Changeset execution was cancelled" |}
  | TTimeout =>
      ret {| op_taskId := None; op_status := "TIMEOUT"; op_result := emptyObject;
             op_error := Some ("Changeset execution did not complete within "
                               ++ JsString.ofZ (pollingTimeoutSeconds options)
                               ++ " seconds") |}
  end.

(** Truthiness of an optional message, as in [if (r.error)]. *)
Definition truthyError (e : option string) : bool :=
  match e with
  | Some s => JsString.truthy s
  | None => false
  end.

(** [processSingleFile(filePath, options)], step 2. *)
Definition executeStep (P : Platform) (filePath : string) (options : Options)
    : M FileResult :=
  execResult <- executeFile P filePath options ;;
  if truthyError (op_error execResult) then
    ret {| file := filePath; taskId := None; status := op_status execResult;
           result := op_result execResult; error := op_error execResult |}
  else
    ret {| file := filePath; taskId := None; status := op_status execResult;
           result := op_result execResult; error := None |}.

(** [processSingleFile(filePath, options)] *)
Definition processSingleFile (P : Platform) (filePath : string) (options : Options)
    : M FileResult :=
  if validateOnly options || validateBeforeExecute options then
    valResult <- validateFile P filePath options ;;
    if negb (String.eqb (op_status valResult) "SUCCESS") then
      ret {| file := filePath; taskId := None; status := op_status valResult;
             result := op_result valResult; error := op_error valResult |}
    else if validateOnly options then
      ret {| file := filePath; taskId := None; status := "SUCCESS";
             result := op_result valResult; error := None |}
    else executeStep P filePath options
  else executeStep P filePath options.

(* ===================================================================== *)
(** * The run *)
(* ===================================================================== *)

(** What [core.getInput] and [process.env] answer. *)
Record Inputs : Type := {
  in_api_key : string;
  in_base_url : string;
  in_changeset_file : string;
  in_environment : string;
  in_validate_before_execute : string;
  in_validate_only : string;
  in_polling_timeout_minutes : string;
  in_execution_strategy : string;
  in_fail_fast : string;
  in_changeset_variables : string;
  env_INPROD_API_KEY : option string;
  env_INPROD_BASE_URL : option string
}.

(** [a || b || ''] with [b] possibly [undefined]. *)
Definition firstTruthy (a : string) (b : option string) : string :=
  if JsString.truthy a then a
  else match b with
       | Some s => s
       | None => EmptyString
       end.

(** [s.replace(/\/$/, '')] *)
Fixpoint stripTrailingSlash (s : string) : string :=
  match s with
  | EmptyString => EmptyString
  | String c rest =>
      if Ascii.eqb c "/" && String.eqb rest EmptyString then EmptyString
      else String c (stripTrailingSlash rest)
  end.

(** The digits [s] starts with, as a number; [None] when it starts with
    none. *)
Fixpoint leadingDigits (s : string) (acc : option Z) : option Z :=
  match s with
  | EmptyString => acc
  | String c rest =>
      let n := Z.of_nat (nat_of_ascii c) in
      if (48 <=? n) && (n <=? 57) then
        leadingDigits rest (Some (10 * match acc with Some a => a | None => 0 end + (n - 48)))
      else acc
  end.

(** [parseInt(s, 10)]: [None] is [NaN].  The result is exact; the rounding
    of integers above [2^53] is not modelled. *)
Definition parseInt10 (s : string) : option Z :=
  match JsString.trimStart s with
  | String "-" rest => option_map Z.opp (leadingDigits rest None)
  | String "+" rest => leadingDigits rest None
  | t => leadingDigits t None
  end.

(** What [run] has computed when it starts on the files. *)
Record Config : Type := {
  options : Options;
  filePaths : list string;
  executionStrategy : string;
  failFast : bool
}.

Definition require (condition : bool) (message : string) : M unit :=
  if condition then ret tt else throw message.

(** [run], from reading the inputs to [resolveFiles]. *)
Definition configure (P : Platform) (i : Inputs) : M Config :=
  let apiKey := firstTruthy (in_api_key i) (env_INPROD_API_KEY i) in
  let baseUrl := stripTrailingSlash (firstTruthy (in_base_url i) (env_INPROD_BASE_URL i)) in
  require (JsString.truthy (in_changeset_file i))
    "Input required and not supplied: changeset_file" ;;
  let changesetFile := in_changeset_file i in
  let environment := in_environment i in
  let validateBeforeExecute := negb (String.eqb (in_validate_before_execute i) "false") in
  let validateOnly := String.eqb (in_validate_only i) "true" in
  let pollingTimeoutMinutes :=
    match parseInt10 (in_polling_timeout_minutes i) with
    | Some n => if n =? 0 then 10 else n
    | None => 10
    end in
  let pollingTimeoutSeconds := pollingTimeoutMinutes * 60 in
  let executionStrategy :=
    if JsString.truthy (in_execution_strategy i) then in_execution_strategy i
    else "per_file" in
  let failFast := String.eqb (in_fail_fast i) "true" in
  changesetVariables <- lift (parseChangesetVariables (in_changeset_variables i)) ;;
  log (SetSecret apiKey) ;;
  require (negb (negb (JsString.truthy apiKey)
                 || String.eqb (JsString.trim apiKey) EmptyString))
    "api_key is required and cannot be empty" ;;
  require (negb (negb (JsString.truthy baseUrl)
                 || String.eqb (JsString.trim baseUrl) EmptyString))
    "base_url is required and cannot be empty" ;;
  require (isURL P baseUrl) ("Invalid base_url format: " ++ baseUrl) ;;
  filePaths <- lift (resolveFiles P changesetFile) ;;
  ret {| options :=
           {| apiKey := apiKey; baseUrl := baseUrl; environment := environment;
              validateBeforeExecute := validateBeforeExecute;
              validateOnly := validateOnly;
              pollingTimeoutSeconds := pollingTimeoutSeconds;
              changesetVariables := changesetVariables |};
         filePaths := filePaths;
         executionStrategy := executionStrategy;
         failFast := failFast |}.

(** [new Error(msg).message] for a message that may be [undefined]. *)
Definition errorMessage (msg : option string) : string :=
  match msg with
  | Some s => s
  | None => EmptyString
  end.

Definition thrownResult (filePath message : string) : FileResult :=
  {| file := filePath; taskId := None; status := "FAILURE"; result := emptyObject;
     error := Some message |}.

Definition stoppingValidation (filePath : string) : Event :=
  Error ("Stopping: fail_fast is enabled and " ++ Path.basename filePath
         ++ " failed validation.").

Definition stopping (filePath : string) : Event :=
  Error ("Stopping: fail_fast is enabled and " ++ Path.basename filePath ++ " failed.").

(** Phase 1 of [validate_first]: the loop that validates every file.  Only
    a validation that did not succeed adds to [results]. *)
Fixpoint validateAll (P : Platform) (options : Options) (failFast : bool)
    (filePaths : list string) (results : list FileResult) : M (list FileResult) :=
  match filePaths with
  | [] => ret results
  | filePath :: rest =>
      outcome <- attempt (validateFile P filePath options) ;;
      match outcome with
      | Ok valResult =>
          if negb (String.eqb (op_status valResult) "SUCCESS") then
            let results' :=
              (results ++ [ {| file := filePath; taskId := op_taskId valResult;
                               status := op_status valResult;
                               result := op_result valResult;
                               error := op_error valResult |} ])%list in
            if failFast then log (stoppingValidation filePath) ;; ret results'
            else validateAll P options failFast rest results'
          else validateAll P options failFast rest results
      | Throw message =>
          let results' := (results ++ [thrownResult filePath message])%list in
          if failFast then log (stoppingValidation filePath) ;; ret results'
          else validateAll P options failFast rest results'
      end
  end.

(** The loop of phase 2 and of the [per_file] strategy: the source has it
    twice, with the same body. *)
Fixpoint processAll (P : Platform) (options : Options) (failFast : bool)
    (filePaths : list string) (results : list FileResult) : M (list FileResult) :=
  match filePaths with
  | [] => ret results
  | filePath :: rest =>
      outcome <- attempt (processSingleFile P filePath options) ;;
      match outcome with
      | Ok fileResult =>
          let results' := (results ++ [fileResult])%list in
          if truthyError (error fileResult) && failFast
          then log (stopping filePath) ;; ret results'
          else processAll P options failFast rest results'
      | Throw message =>
          let results' := (results ++ [thrownResult filePath message])%list in
          if failFast then log (stopping filePath) ;; ret results'
          else processAll P options failFast rest results'
      end
  end.

(** An element of [resultArray]. *)
Definition toEntry (r : FileResult) : ResultEntry :=
  {| entry_file := Path.basename (file r);
     entry_status := status r;
     entry_result := orElse (Some (result r)) emptyObject;
     entry_error := if truthyError (error r) then error r else None |}.

Definition isSuccess (r : FileResult) : bool := String.eqb (status r) "SUCCESS".

(** The filter of [failedFiles]. *)
Definition isFailed (r : FileResult) : bool :=
  negb (String.eqb (status r) "SUCCESS") && negb (String.eqb (status r) "SUBMITTED").

Definition validationSummary (failures files : nat) : string :=
  JsString.ofZ (Z.of_nat failures) ++ " of " ++ JsString.ofZ (Z.of_nat files)
  ++ " changeset(s) failed validation. See result output for details.".

Definition failureSummary (failures results : nat) : string :=
  JsString.ofZ (Z.of_nat failures) ++ " of " ++ JsString.ofZ (Z.of_nat results)
  ++ " changeset(s) failed. See result output for details.".

(** The message of the error thrown for a list of failures. *)
Definition failureMessage (failures : list FileResult) (summary : string) : string :=
  match failures with
  | [only] => errorMessage (error only)
  | _ => summary
  end.

(** The two-phase flow of [validate_first]. *)
Definition validateFirst (P : Platform) (c : Config) : M (list FileResult) :=
  results <- validateAll P (options c) (failFast c) (filePaths c) [] ;;
  let validationFailures := filter (fun r => negb (isSuccess r)) results in
  if 0 <? Z.of_nat (List.length validationFailures) then
    log (SetOutput "status" (OutString "FAILURE")) ;;
    log (SetOutput "result" (OutResults (map toEntry results))) ;;
    throw (failureMessage validationFailures
             (validationSummary (List.length validationFailures)
                (List.length (filePaths c))))
  else
    let o := options c in
    let executeOptions :=
      {| apiKey := apiKey o; baseUrl := baseUrl o; environment := environment o;
         validateBeforeExecute := false; validateOnly := false;
         pollingTimeoutSeconds := pollingTimeoutSeconds o;
         changesetVariables := changesetVariables o |} in
    processAll P executeOptions (failFast c) (filePaths c) results.

(** The condition of the [if] that selects the two-phase flow. *)
Definition twoPhase (c : Config) : bool :=
  String.eqb (executionStrategy c) "validate_first"
  && negb (validateOnly (options c))
  && validateBeforeExecute (options c).

(** [true] when the aggregate status fails the run. *)
Definition failing (aggregateStatus : string) : bool :=
  String.eqb aggregateStatus "FAILURE"
  || String.eqb aggregateStatus "TIMEOUT"
  || String.eqb aggregateStatus "REVOKED".

(** [run], from "Set aggregate outputs" to the end of the [try] block. *)
Definition aggregate (results : list FileResult) : M unit :=
  let aggregateStatus := worstStatus results in
  log (SetOutput "status" (OutString aggregateStatus)) ;;
  log (SetOutput "result" (OutResults (map toEntry results))) ;;
  if failing aggregateStatus then
    let failedFiles := filter isFailed results in
    throw (failureMessage failedFiles
             (failureSummary (List.length failedFiles) (List.length results)))
  else ret tt.

(** [run], from [const results = []] to the end of the [try] block. *)
Definition orchestrate (P : Platform) (c : Config) : M unit :=
  results <- (if twoPhase c then validateFirst P c
              else processAll P (options c) (failFast c) (filePaths c) []) ;;
  aggregate results.

(** The [catch] clause of [run]. *)
Definition failAction (message : string) (w : World) : World :=
  emit (Exit 1) (emit (SetFailed message) (emit (Error ("Action failed: " ++ message)) w)).

(** [run()]: the world it leaves behind. *)
Definition run (P : Platform) (i : Inputs) (w : World) : World :=
  match (c <- configure P i ;; orchestrate P c) w with
  | (Ok _, w') => w'
  | (Throw message, w') => failAction message w'
  end.

(** ** Observations on the events of a run *)

Definition isCallValidate (e : Event) : bool :=
  match e with CallValidate _ => true | _ => false end.

Definition isCallExecute (e : Event) : bool :=
  match e with CallExecute _ => true | _ => false end.

Definition isFetch (e : Event) : bool :=
  match e with Fetch _ => true | _ => false end.

(** Number of attempts to validate, and to execute, a file. *)
Definition validateAttempts (t : list Event) : nat := List.length (filter isCallValidate t).
Definition executeAttempts (t : list Event) : nat := List.length (filter isCallExecute t).
Definition requests (t : list Event) : nat := List.length (filter isFetch t).

(** The values given to the output [name], oldest first. *)
Definition outputs (name : string) (t : list Event) : list OutputValue :=
  flat_map (fun e => match e with
                     | SetOutput n v => if String.eqb n name then [v] else []
                     | _ => []
                     end) t.

(** The messages given to [core.setFailed], oldest first. *)
Definition failures (t : list Event) : list string :=
  flat_map (fun e => match e with SetFailed m => [m] | _ => [] end) t.

(** ** Notions the statements use *)

(** The statuses the ranking knows. *)
Definition ranked (s : string) : Prop := STATUS_PRIORITY s <> None.

(** A result with the given status, for examples. *)
Definition resultOf (filePath st : string) (e : option string) : FileResult :=
  {| file := filePath; taskId := None; status := st; result := emptyObject; error := e |}.

(** The entries of a document's variable collection with the name [n]. *)
Definition entriesOf (n : string) (doc : Injector.Document) : list Injector.VariableEntry :=
  filter (Injector.named n) (Injector.variable doc).

(** The entry [inject] writes. *)
Definition injected (n v : string) (mask : bool) : Injector.VariableEntry :=
  {| Injector.name := n; Injector.value := v; Injector.maskValue := mask;
     Injector.environment := None |}.

(** The lines that matter to the parser: trimmed, blank ones dropped. *)
Definition norm (lines : list string) : list string :=
  filter (fun l => negb (String.eqb l EmptyString)) (map JsString.trim lines).

(** A [ConfigError] of the specification as the error the source throws. *)
Definition relabel (r : Res (list (string * string))) : Res JsObject.t :=
  match r with
  | Ok vars => Ok vars
  | Throw l => Throw (invalidVariablesMessage l)
  end.

(** No line of the input defines the key [__proto__]. *)
Definition plainKeys (raw : string) : Prop :=
  Forall (fun l => VariableSetSpec.keyOf l <> Some "__proto__") (JsString.split LF raw).


(** The matches of a pattern, as [resolveFiles] asks for them. *)
Definition matchesOf (P : Platform) (changesetFile : string) : list string :=
  globSync P (JsString.replaceAll backslash "/" changesetFile).

(** A platform for examples: three files under [changesets/] match every
    pattern, paths resolve under [/repo], strings compare by code unit. *)
Definition examplePlatform : Platform :=
  {| path_resolve := fun p => "/repo/" ++ p;
     globSync := fun _ => ["changesets/02_queues.yaml"; "changesets/10_flows.yaml";
                           "changesets/01_users.json"];
     existsSync := fun _ => true;
     readFileSync := fun p => Ok ("name: " ++ p);
     localeCompare := lexCompare;
     isURL := fun _ => true;
     encodeURIComponent := fun s => s;
     JSON_stringify := fun _ => "{}";
     JSON_stringify_pretty := fun _ => "{}" |}.

(** The reply lets the loop of [pollTask] go on: nothing is returned and
    nothing is thrown again. *)
Definition continues (reply : FetchReply) : bool :=
  match pollAttempt reply with
  | Ok None => true
  | Ok (Some _) => false
  | Throw m => negb (rethrown m)
  end.

(** The reply is a successful response whose body reports the status [st]. *)
Definition reports (st : string) (reply : FetchReply) : Prop :=
  exists response data,
    reply = Ok response /\ ok response = true /\ body_json response = Ok data /\
    prop data "status" = Some (JStr st).

(** A successful response with the given JSON body. *)
Definition okResponse (data : json) : FetchReply :=
  Ok {| ok := true; http_status := 200; statusText := "OK";
        text := Ok EmptyString; body_json := Ok data |}.

(** The number of status requests a budget of [pollingTimeoutSeconds]
    allows from [elapsed] on. *)
Definition pollsLeft (pollingTimeoutSeconds elapsed : Z) : nat :=
  Z.to_nat ((pollingTimeoutSeconds - elapsed + (pollInterval - 1)) / pollInterval).

(** A world at its start, with the given replies to come. *)
Definition freshWorld (replies : nat -> FetchReply) : World :=
  {| net := replies; fetched := 0; trace := [] |}.

(** Replies from a list, a rejected request after its end. *)
Definition script (replies : list FetchReply) : nat -> FetchReply :=
  fun n => nth n replies (Throw "fetch failed").

(** A body that reports the given status and nothing else. *)
Definition statusBody (st : string) : json := JObj [("status", JStr st)].

(** The events of requests and log lines. *)
Definition quiet (e : Event) : bool :=
  match e with
  | Sleep _ | Fetch _ | Warning _ | Error _ => true
  | _ => false
  end.

(** The computation [m] adds only events that [q] accepts. *)
Definition only (q : Event -> bool) {A : Type} (m : M A) : Prop :=
  forall w, exists evs, trace (snd (m w)) = (trace w ++ evs)%list /\ forallb q evs = true.

(** A validation that did not succeed: a status other than SUCCESS, or an
    error thrown. *)
Definition failedValidation (r : Res OpResult) : bool :=
  match r with
  | Ok valResult => negb (String.eqb (op_status valResult) "SUCCESS")
  | Throw _ => true
  end.

(** The validations phase 1 attempts, in order, each with its outcome. *)
Fixpoint validations (P : Platform) (o : Options) (failFast : bool)
    (filePaths : list string) (w : World) : list (string * Res OpResult) :=
  match filePaths with
  | [] => []
  | filePath :: rest =>
      let r := validateFile P filePath o w in
      (filePath, fst r)
      :: (if failedValidation (fst r) then
            if failFast then [] else validations P o failFast rest (snd r)
          else validations P o failFast rest (snd r))
  end.

(** What phase 1 records for a validation that did not succeed. *)
Definition recordOf (v : string * Res OpResult) : FileResult :=
  match snd v with
  | Ok valResult =>
      {| file := fst v; taskId := op_taskId valResult; status := op_status valResult;
         result := op_result valResult; error := op_error valResult |}
  | Throw message => thrownResult (fst v) message
  end.

(** The validations that did not succeed, as phase 1 records them. *)
Definition failedValidations (P : Platform) (o : Options) (failFast : bool)
    (filePaths : list string) (w : World) : list FileResult :=
  map recordOf
    (filter (fun v => failedValidation (snd v)) (validations P o failFast filePaths w)).

(** Events other than outputs and the failure of the action. *)
Definition working (e : Event) : bool :=
  match e with
  | SetOutput _ _ | SetFailed _ | Exit _ => false
  | _ => true
  end.

(** Events of phase 1: attempts to validate, requests and log lines. *)
Definition validating (e : Event) : bool := quiet e || isCallValidate e.

(** Events of executing without validation. *)
Definition executing (e : Event) : bool := quiet e || isCallExecute e.

(** Events of processing files. *)
Definition processing (e : Event) : bool := quiet e || isCallValidate e || isCallExecute e.

Definition isSetSecret (e : Event) : bool :=
  match e with SetSecret _ => true | _ => false end.

(** What an operation may return: SUCCESS, or one of the three failing
    statuses together with a message. *)
Definition settled (st : string) (e : option string) : Prop :=
  st = "SUCCESS" \/
  ((st = "FAILURE" \/ st = "REVOKED" \/ st = "TIMEOUT") /\ truthyError e = true).

(** The inputs [i] with another [execution_strategy]. *)
Definition withStrategy (i : Inputs) (strategy : string) : Inputs :=
  {| in_api_key := in_api_key i;
     in_base_url := in_base_url i;
     in_changeset_file := in_changeset_file i;
     in_environment := in_environment i;
     in_validate_before_execute := in_validate_before_execute i;
     in_validate_only := in_validate_only i;
     in_polling_timeout_minutes := in_polling_timeout_minutes i;
     in_execution_strategy := strategy;
     in_fail_fast := in_fail_fast i;
     in_changeset_variables := in_changeset_variables i;
     env_INPROD_API_KEY := env_INPROD_API_KEY i;
     env_INPROD_BASE_URL := env_INPROD_BASE_URL i |}.

(** The configuration [c] with another execution strategy. *)
Definition configWithStrategy (c : Config) (strategy : string) : Config :=
  {| options := options c; filePaths := filePaths c;
     executionStrategy := strategy; failFast := failFast c |}.

(** Some attempted validation did not succeed. *)
Definition someFailed (vs : list (string * Res OpResult)) : bool :=
  existsb (fun v => failedValidation (snd v)) vs.


(** The events with which a failing run ends. *)
Definition failureEvents (message : string) : list Event :=
  [Error ("Action failed: " ++ message); SetFailed message; Exit 1].

(** The reply to a submission: the envelope with the task id. *)
Definition taskReply (id : string) : FetchReply :=
  okResponse (JObj [("data", JObj [("attributes", JObj [("task_id", JStr id)])])]).

(** The reply of the status endpoint for a task that succeeded. *)
Definition successReply (result : json) : FetchReply :=
  okResponse (JObj [("status", JStr "SUCCESS"); ("result", result)]).

Definition validReply : FetchReply := successReply (JObj [("is_valid", JBool true)]).
Definition invalidReply : FetchReply := successReply (JObj [("is_valid", JBool false)]).

(** Inputs for examples: every file under [changesets/], strategy
    [validate_first], the defaults otherwise. *)
Definition validateFirstInputs : Inputs :=
  {| in_api_key := "key";
     in_base_url := "https://inprod.example/";
     in_changeset_file := "changesets/*";
     in_environment := EmptyString;
     in_validate_before_execute := "true";
     in_validate_only := EmptyString;
     in_polling_timeout_minutes := EmptyString;
     in_execution_strategy := "validate_first";
     in_fail_fast := EmptyString;
     in_changeset_variables := EmptyString;
     env_INPROD_API_KEY := None;
     env_INPROD_BASE_URL := None |}.

(** Three validations, of which the second finds the changeset invalid. *)
Definition secondInvalid : nat -> FetchReply :=
  script [taskReply "v-01"; validReply; taskReply "v-02"; invalidReply;
          taskReply "v-03"; validReply].

(** The files of a list of validations whose validation did not succeed. *)
Definition failedFiles (vs : list (string * Res OpResult)) : list string :=
  map fst (filter (fun v => failedValidation (snd v)) vs).

(** The inputs of the examples with validation before execution switched
    off. *)
Definition withoutValidationInputs : Inputs :=
  {| in_api_key := "key";
     in_base_url := "https://inprod.example/";
     in_changeset_file := "changesets/*";
     in_environment := EmptyString;
     in_validate_before_execute := "false";
     in_validate_only := EmptyString;
     in_polling_timeout_minutes := EmptyString;
     in_execution_strategy := "validate_first";
     in_fail_fast := EmptyString;
     in_changeset_variables := EmptyString;
     env_INPROD_API_KEY := None;
     env_INPROD_BASE_URL := None |}.

(** Three executions that succeed. *)
Definition allExecuted : nat -> FetchReply :=
  script [taskReply "e-01"; successReply (JObj [("run_id", JNum 41)]);
          taskReply "e-02"; successReply (JObj [("run_id", JNum 42)]);
          taskReply "e-03"; successReply (JObj [("run_id", JNum 43)])].


(** ** Further notions *)

(** The time slept, in milliseconds. *)
Definition slept (t : list Event) : Z :=
  fold_right (fun e ms => match e with Sleep d => d + ms | _ => ms end) 0 t.

(** The outcome [pollTask] returns for a body that reports a terminal
    status. *)
Definition terminalOutcome (st : string) (data : json) : option TaskOutcome :=
  if String.eqb st "SUCCESS" then
    Some (TSuccess (orElse (prop data "result") emptyObject))
  else if String.eqb st "FAILURE" then
    Some (TFailure (orElse (prop data "error") (JStr "Unknown error")))
  else if String.eqb st "REVOKED" then Some TRevoked
  else None.


(** What holds of every variable the parser of [run] defines: the key is
    not empty, has no [=] and no surrounding white space, and is not
    [__proto__]; the value has no surrounding white space. *)
Definition wellFormedVariable (kv : string * string) : Prop :=
  fst kv <> EmptyString /\
  JsString.trim (fst kv) = fst kv /\
  JsString.mem "=" (fst kv) = false /\
  fst kv <> "__proto__" /\
  JsString.trim (snd kv) = snd kv.

(** The constant [escaped] of [buildYamlPayload]. *)
Definition escapeValue (value : string) : string :=
  JsString.replaceAll dquote (String backslash (String dquote EmptyString))
    (JsString.replaceAll backslash
       (String backslash (String backslash EmptyString)) value).

(** The line [buildYamlPayload] writes for a variable. *)
Definition variableLine (kv : string * string) : string :=
  "  " ++ fst kv ++ ": " ++ String dquote (escapeValue (snd kv))
  ++ String dquote EmptyString.

(** The reader of a quoted scalar, as far as the two escapes go: the code
    unit after a backslash is taken as it is. *)
Fixpoint unescape (s : string) : string :=
  match s with
  | EmptyString => EmptyString
  | String c rest =>
      if Ascii.eqb c backslash then
        match rest with
        | String c' rest' => String c' (unescape rest')
        | EmptyString => String c EmptyString
        end
      else String c (unescape rest)
  end.

(** The end of a quoted scalar: what precedes the first double quote that no
    backslash escapes; [None] when there is none. *)
Fixpoint quoted (s : string) : option string :=
  match s with
  | EmptyString => None
  | String c rest =>
      if Ascii.eqb c dquote then Some EmptyString
      else if Ascii.eqb c backslash then
        match rest with
        | String c' rest' => option_map (fun q => String c (String c' q)) (quoted rest')
        | EmptyString => None
        end
      else option_map (String c) (quoted rest)
  end.

(** The variables [buildYamlPayload] enumerates, in its order. *)
Definition variablesOf (variables : option JsObject.t) : list (string * string) :=
  match variables with
  | Some vars => JsObject.entries vars
  | None => []
  end.

(** Free of line feeds, key and value. *)
Definition singleLine (kv : string * string) : Prop :=
  JsString.mem LF (fst kv) = false /\ JsString.mem LF (snd kv) = false.

(** The task id of a reply that accepts a submission: the response is ok,
    its body is JSON with [data.attributes.task_id], and that is a string
    which is not blank. *)
Definition acceptedTaskId (reply : FetchReply) : option string :=
  match reply with
  | Ok response =>
      if ok response then
        match body_json response with
        | Ok data =>
            match readTaskId data with
            | Ok (Some (JStr s)) => if JsString.all_ws s then None else Some s
            | _ => None
            end
        | Throw _ => None
        end
      else None
  | Throw _ => None
  end.

(** The request an operation submits a file with. *)
Definition submission (P : Platform) (endpoint : Format -> string)
    (filePath content : string) (options : Options) : Request :=
  let format := getFileFormat filePath in
  {| method := "POST";
     url := buildUrl P (baseUrl options) (endpoint format) (environment options);
     authorization := "Api-Key " ++ apiKey options;
     contentType := snd (requestBody format content (changesetVariables options));
     body := Some (fst (requestBody format content (changesetVariables options))) |}.


(** Options for examples. *)
Definition exampleOptions : Options :=
  {| apiKey := "key"; baseUrl := "https://inprod.example"; environment := "prod";
     validateBeforeExecute := true; validateOnly := false;
     pollingTimeoutSeconds := 600; changesetVariables := None |}.

(** The verdict of an operation: SUCCESS without an error, or a failing
    status with a message. *)
Definition verdict (v : OpResult) : Prop :=
  (op_status v = "SUCCESS" /\ op_error v = None) \/
  ((op_status v = "FAILURE" \/ op_status v = "REVOKED" \/ op_status v = "TIMEOUT") /\
   truthyError (op_error v) = true).

(** A platform for examples on which no file can be read. *)
Definition unreadablePlatform : Platform :=
  {| path_resolve := path_resolve examplePlatform;
     globSync := globSync examplePlatform;
     existsSync := existsSync examplePlatform;
     readFileSync := fun p => Throw ("EACCES: permission denied, open '" ++ p ++ "'");
     localeCompare := localeCompare examplePlatform;
     isURL := isURL examplePlatform;
     encodeURIComponent := encodeURIComponent examplePlatform;
     JSON_stringify := JSON_stringify examplePlatform;
     JSON_stringify_pretty := JSON_stringify_pretty examplePlatform |}.

(** The event is not a request, or it is a request to the API under the
    base URL of the options, with their key in the [Authorization] header. *)
Definition authorized (o : Options) (e : Event) : bool :=
  match e with
  | Fetch req =>
      String.eqb (authorization req) ("Api-Key " ++ apiKey o)
      && JsString.startsWith (url req) (baseUrl o ++ "/api/v1/")
  | _ => true
  end.

(** The inputs of the examples for a run that only validates, file by
    file. *)
Definition validateOnlyInputs : Inputs :=
  {| in_api_key := "key";
     in_base_url := "https://inprod.example/";
     in_changeset_file := "changesets/*";
     in_environment := EmptyString;
     in_validate_before_execute := "true";
     in_validate_only := "true";
     in_polling_timeout_minutes := "2";
     in_execution_strategy := EmptyString;
     in_fail_fast := EmptyString;
     in_changeset_variables := EmptyString;
     env_INPROD_API_KEY := None;
     env_INPROD_BASE_URL := None |}.

(** The result [processSingleFile] makes of what an operation returned. *)
Definition fileResultOf (filePath : string) (v : OpResult) : FileResult :=
  {| file := filePath; taskId := None; status := op_status v;
     result := op_result v; error := op_error v |}.

(** The statuses an operation can end with. *)
Definition verdictStatus (st : string) : Prop :=
  st = "SUCCESS" \/ st = "FAILURE" \/ st = "REVOKED" \/ st = "TIMEOUT".

(** The options of phase 2 of the two-phase flow: those of the run, with
    both validation flags off. *)
Definition executeOptions (o : Options) : Options :=
  {| apiKey := apiKey o; baseUrl := baseUrl o; environment := environment o;
     validateBeforeExecute := false; validateOnly := false;
     pollingTimeoutSeconds := pollingTimeoutSeconds o;
     changesetVariables := changesetVariables o |}.

(** Outputs and the events of a failure. *)
Definition reporting (e : Event) : bool :=
  match e with
  | SetOutput _ _ | SetFailed _ | Exit _ | Error _ => true
  | _ => false
  end.


(** Inputs without a key, but for blanks in the environment. *)
Definition withoutKeyInputs : Inputs :=
  {| in_api_key := EmptyString;
     in_base_url := "https://inprod.example/";
     in_changeset_file := "changesets/*";
     in_environment := EmptyString;
     in_validate_before_execute := "true";
     in_validate_only := EmptyString;
     in_polling_timeout_minutes := EmptyString;
     in_execution_strategy := EmptyString;
     in_fail_fast := EmptyString;
     in_changeset_variables := EmptyString;
     env_INPROD_API_KEY := Some "   ";
     env_INPROD_BASE_URL := None |}.


(** The computation [m] issues at most [k] requests and sleeps at most [s]
    intervals of the poller. *)
Definition spends (k s : nat) {A : Type} (m : M A) : Prop :=
  forall w,
    (requests (trace (snd (m w))) <= requests (trace w) + k)%nat /\
    slept (trace (snd (m w))) <= slept (trace w) + pollInterval * 1000 * Z.of_nat s.

(* ===================================================================== *)
(** * Properties of the string primitives *)
(* ===================================================================== *)

Section Strings.

Import JsString.

Lemma all_ws_trimStart (s : string) : all_ws s = true -> trimStart s = EmptyString.
Proof.
  induction s as [ | c s IH]; [reflexivity | ].
  cbn. destruct (is_ws c); [exact IH | discriminate].
Qed.

Lemma all_ws_trimEnd (s : string) : all_ws s = true -> trimEnd s = EmptyString.
Proof. destruct s as [ | c s]; [reflexivity | ]. cbn [trimEnd]. now intros ->. Qed.

Lemma trimEnd_empty (s : string) : trimEnd s = EmptyString -> all_ws s = true.
Proof.
  destruct s as [ | c s]; [reflexivity | ]. cbn [trimEnd].
  destruct (all_ws (String c s)); [reflexivity | discriminate].
Qed.

Lemma all_ws_of_trimEnd (s : string) : all_ws (trimEnd s) = all_ws s.
Proof.
  induction s as [ | c s IH]; [reflexivity | ].
  cbn [trimEnd]. destruct (all_ws (String c s)) eqn:H; [reflexivity | ].
  cbn [all_ws] in *. now rewrite IH.
Qed.

Lemma all_ws_of_trimStart (s : string) : all_ws (trimStart s) = all_ws s.
Proof.
  induction s as [ | c s IH]; [reflexivity | ].
  cbn [trimStart all_ws]. destruct (is_ws c) eqn:Hc; [exact IH | ].
  cbn [all_ws]. now rewrite Hc.
Qed.

(** The two halves of [trim] commute. *)
Lemma trim_comm (s : string) : trimEnd (trimStart s) = trimStart (trimEnd s).
Proof.
  induction s as [ | c s IH]; [reflexivity | ].
  cbn [trimStart trimEnd].
  destruct (is_ws c) eqn:Hc.
  - destruct (all_ws (String c s)) eqn:Hall.
    + cbn [all_ws] in Hall. rewrite Hc in Hall. cbn in Hall.
      now rewrite (all_ws_trimStart s Hall).
    + cbn [trimStart]. now rewrite Hc.
  - cbn [trimEnd all_ws]. rewrite Hc. cbn [andb trimStart]. now rewrite Hc.
Qed.

Lemma trimStart_idem (s : string) : trimStart (trimStart s) = trimStart s.
Proof.
  induction s as [ | c s IH]; [reflexivity | ].
  cbn [trimStart]. destruct (is_ws c) eqn:Hc; [exact IH | ].
  cbn [trimStart]. now rewrite Hc.
Qed.

Lemma trimEnd_idem (s : string) : trimEnd (trimEnd s) = trimEnd s.
Proof.
  induction s as [ | c s IH]; [reflexivity | ].
  cbn [trimEnd]. destruct (all_ws (String c s)) eqn:Hall; [reflexivity | ].
  cbn [trimEnd]. replace (all_ws (String c (trimEnd s))) with false.
  - now rewrite IH.
  - cbn [all_ws] in *. now rewrite all_ws_of_trimEnd.
Qed.

Lemma trim_idem (s : string) : trim (trim s) = trim s.
Proof.
  unfold trim. rewrite (trim_comm (trimEnd (trimStart s))), trimEnd_idem.
  now rewrite <- trim_comm, trimStart_idem.
Qed.

(** [trim] yields the empty string exactly on white space. *)
Lemma trim_empty (s : string) : trim s = EmptyString <-> all_ws s = true.
Proof.
  unfold trim. split.
  - intros H. apply trimEnd_empty in H. now rewrite all_ws_of_trimStart in H.
  - intros H. apply all_ws_trimEnd. now rewrite all_ws_of_trimStart.
Qed.

Lemma trim_ws_cons (c : ascii) (s : string) : is_ws c = true -> trim (String c s) = trim s.
Proof. intros Hc. unfold trim. cbn [trimStart]. now rewrite Hc. Qed.

Lemma trim_eq_of_trimEnd (s t : string) : trimEnd s = trimEnd t -> trim s = trim t.
Proof. unfold trim. rewrite !trim_comm. now intros ->. Qed.

Lemma trimEnd_cons_congr (c : ascii) (s t : string) :
  trimEnd s = trimEnd t -> trimEnd (String c s) = trimEnd (String c t).
Proof.
  intros H. cbn [trimEnd all_ws].
  rewrite <- (all_ws_of_trimEnd s), <- (all_ws_of_trimEnd t), H. reflexivity.
Qed.

Lemma split_nonempty (c : ascii) (s : string) : split c s <> [].
Proof.
  destruct s as [ | a s]; cbn; [discriminate | ].
  destruct (Ascii.eqb a c); [discriminate | ].
  destruct (split c s); discriminate.
Qed.

Lemma split_cons (c a : ascii) (s : string) :
  split c (String a s)
  = if Ascii.eqb a c then EmptyString :: split c s
    else String a (hd EmptyString (split c s)) :: tl (split c s).
Proof.
  cbn [split]. destruct (Ascii.eqb a c); [reflexivity | ].
  destruct (split c s) eqn:H; [now elim (split_nonempty c s) | reflexivity].
Qed.

Lemma split_hd_tl (c : ascii) (s : string) :
  split c s = hd EmptyString (split c s) :: tl (split c s).
Proof. destruct (split c s) eqn:H; [now elim (split_nonempty c s) | reflexivity]. Qed.

Lemma join_cons (sep p q : string) (rest : list string) :
  join sep (p :: q :: rest) = p ++ sep ++ join sep (q :: rest).
Proof. reflexivity. Qed.

(** Joining what [split] produced gives the string back. *)
Lemma join_split (c : ascii) (s : string) :
  join (String c EmptyString) (split c s) = s.
Proof.
  induction s as [ | a s IH]; [reflexivity | ].
  rewrite split_cons. rewrite (split_hd_tl c s) in IH.
  destruct (Ascii.eqb_spec a c) as [-> | _].
  - rewrite (split_hd_tl c s), join_cons, IH. reflexivity.
  - destruct (tl (split c s)) as [ | p rest].
    + cbn [join] in *. now rewrite IH.
    + rewrite join_cons in *.
      change (String a (hd EmptyString (split c s)
                        ++ String c EmptyString ++ join (String c EmptyString) (p :: rest))
              = String a s).
      now rewrite IH.
Qed.

(** Every line of white space is white space. *)
Lemma all_ws_split (s : string) :
  all_ws s = true -> Forall (fun l => all_ws l = true) (split LF s).
Proof.
  induction s as [ | a s IH]; intros H.
  - now repeat constructor.
  - cbn [all_ws] in H. apply andb_prop in H. destruct H as [Ha Hs].
    specialize (IH Hs). rewrite split_cons. rewrite (split_hd_tl LF s) in IH.
    inversion IH as [ | h t Hh Ht]; subst.
    destruct (Ascii.eqb a LF); constructor; try reflexivity.
    + rewrite (split_hd_tl LF s). now constructor.
    + cbn [all_ws]. now rewrite Ha.
    + exact Ht.
Qed.

Lemma norm_cons (l : string) (ls : list string) :
  norm (l :: ls) = if String.eqb (trim l) EmptyString then norm ls else trim l :: norm ls.
Proof. unfold norm. cbn [map filter]. now destruct (String.eqb (trim l) EmptyString). Qed.

Lemma norm_all_ws (ls : list string) :
  Forall (fun l => all_ws l = true) ls -> norm ls = [].
Proof.
  induction 1 as [ | l ls Hl _ IH]; [reflexivity | ].
  rewrite norm_cons, IH. apply trim_empty in Hl. now rewrite Hl.
Qed.

Lemma norm_trimStart (s : string) : norm (split LF (trimStart s)) = norm (split LF s).
Proof.
  induction s as [ | a s IH]; [reflexivity | ].
  cbn [trimStart]. destruct (is_ws a) eqn:Ha; [ | reflexivity].
  rewrite IH, (split_cons LF a s).
  destruct (Ascii.eqb a LF).
  - now rewrite norm_cons.
  - rewrite (split_hd_tl LF s) at 1. now rewrite !norm_cons, trim_ws_cons.
Qed.

(** Trimming the end leaves the first line alone up to its own end, and the
    other lines up to blank ones. *)
Lemma split_trimEnd (s : string) :
  trimEnd (hd EmptyString (split LF (trimEnd s))) = trimEnd (hd EmptyString (split LF s))
  /\ norm (tl (split LF (trimEnd s))) = norm (tl (split LF s)).
Proof.
  induction s as [ | a s (IHh & IHt)]; [now split | ].
  cbn [trimEnd]. destruct (all_ws (String a s)) eqn:Hall.
  - pose proof (all_ws_split _ Hall) as Hlines.
    rewrite (split_hd_tl LF (String a s)) in Hlines.
    inversion Hlines as [ | h t Hh Ht]; subst. cbn [split hd tl].
    split.
    + symmetry. now apply all_ws_trimEnd.
    + symmetry. now apply norm_all_ws.
  - rewrite !split_cons. destruct (Ascii.eqb a LF); cbn [hd tl].
    + split; [reflexivity | ].
      rewrite (split_hd_tl LF (trimEnd s)), (split_hd_tl LF s), !norm_cons.
      rewrite (trim_eq_of_trimEnd _ _ IHh). now rewrite IHt.
    + split; [now apply trimEnd_cons_congr | exact IHt].
Qed.

Lemma norm_trimEnd (s : string) : norm (split LF (trimEnd s)) = norm (split LF s).
Proof.
  destruct (split_trimEnd s) as (Hh & Ht).
  rewrite (split_hd_tl LF (trimEnd s)), (split_hd_tl LF s), !norm_cons.
  rewrite (trim_eq_of_trimEnd _ _ Hh). now rewrite Ht.
Qed.

(** The first trim of the source does not change the lines that matter. *)
Lemma norm_trim (s : string) : norm (split LF (trim s)) = norm (split LF s).
Proof. unfold trim. now rewrite norm_trimEnd, norm_trimStart. Qed.


End Strings.

(* ===================================================================== *)
(** * Properties of the aggregation *)
(* ===================================================================== *)

Section Aggregation.

Lemma ranked_cases (s : string) :
  ranked s ->
  s = "FAILURE" \/ s = "TIMEOUT" \/ s = "REVOKED" \/ s = "SUBMITTED" \/ s = "SUCCESS".
Proof.
  unfold ranked, STATUS_PRIORITY; cbn [assoc].
  repeat match goal with
         | |- context [String.eqb ?a s] =>
             destruct (String.eqb_spec a s) as [<- | _]; [intros _; tauto | ]
         end.
  intros H; now elim H.
Qed.

Lemma priority_injective (s s' : string) :
  ranked s -> ranked s' -> priority s = priority s' -> s = s'.
Proof.
  intros Hs Hs'.
  destruct (ranked_cases s Hs) as [-> | [-> | [-> | [-> | ->]]]];
    destruct (ranked_cases s' Hs') as [-> | [-> | [-> | [-> | ->]]]];
    vm_compute; intros H; first [reflexivity | discriminate H].
Qed.


(** The reduction, from any starting value. *)
Lemma reduce_worse (results : list FileResult) (init : string) :
  let w := fold_left worse results init in
  priority w <= priority init /\
  (forall r, In r results -> priority w <= priority (status r)) /\
  (w = init \/ In w (map status results)).
Proof.
  revert init; induction results as [ | r results IH]; intros init; cbn.
  - repeat split; [lia | intros r [] | now left].
  - destruct (IH (worse init r)) as (Hle & Hall & Hin).
    assert (Hstep : priority (worse init r) <= priority init
                    /\ priority (worse init r) <= priority (status r)).
    { unfold worse; destruct (Z.ltb_spec (priority (status r)) (priority init)); lia. }
    repeat split.
    + lia.
    + intros r' [<- | Hr']; [lia | now apply Hall].
    + destruct Hin as [Heq | Hin]; [ | now right; right].
      rewrite Heq; unfold worse.
      destruct (priority (status r) <? priority init); [right; now left | now left].
Qed.

End Aggregation.



(* ===================================================================== *)
(** * Properties of the injection *)
(* ===================================================================== *)

Section Injection.

Import Injector.

Lemma named_injected (n m v : string) (mask : bool) :
  named n (injected m v mask) = String.eqb m n.
Proof. reflexivity. Qed.

Lemma filter_named_removed (n : string) (l : list VariableEntry) :
  filter (named n) (filter (fun e => negb (named n e)) l) = [].
Proof.
  induction l as [ | e l IH]; [reflexivity | ].
  cbn [filter]. destruct (named n e) eqn:He; cbn [negb filter]; [exact IH | ].
  now rewrite He.
Qed.

Lemma filter_named_kept (n m : string) (l : list VariableEntry) :
  n <> m ->
  filter (named n) (filter (fun e => negb (named m e)) l) = filter (named n) l.
Proof.
  intros Hnm. induction l as [ | e l IH]; [reflexivity | ].
  cbn [filter]. destruct (named m e) eqn:Hm; cbn [negb filter].
  - destruct (named n e) eqn:Hn; [ | exact IH].
    unfold named in Hm, Hn. apply String.eqb_eq in Hm, Hn. congruence.
  - destruct (named n e); [now rewrite IH | exact IH].
Qed.

Lemma entriesOf_injectOne_same (doc : Document) (n v : string) :
  entriesOf n (injectOne doc (n, v))
  = [injected n v (existsb maskValue (entriesOf n doc))].
Proof.
  unfold entriesOf, injectOne; cbn [variable fst snd].
  rewrite filter_app, filter_named_removed.
  fold (injected n v (existsb maskValue (filter (named n) (variable doc)))).
  cbn [filter app]. now rewrite named_injected, String.eqb_refl.
Qed.

Lemma entriesOf_injectOne_other (doc : Document) (n m v : string) :
  n <> m -> entriesOf n (injectOne doc (m, v)) = entriesOf n doc.
Proof.
  intros Hnm. unfold entriesOf, injectOne; cbn [variable fst snd].
  rewrite filter_app, filter_named_kept by exact Hnm.
  fold (injected m v (existsb maskValue (filter (named m) (variable doc)))).
  cbn [filter]. rewrite named_injected.
  destruct (String.eqb_spec m n) as [-> | _]; [now elim Hnm | apply app_nil_r].
Qed.

Lemma entriesOf_inject_other (vars : list (string * string)) (doc : Document) (n : string) :
  ~ In n (map fst vars) -> entriesOf n (inject doc vars) = entriesOf n doc.
Proof.
  revert doc; induction vars as [ | [m v] vars IH]; intros doc Hn; [reflexivity | ].
  cbn [inject fold_left]. fold (inject (injectOne doc (m, v)) vars).
  rewrite IH by (intros H; apply Hn; now right).
  apply entriesOf_injectOne_other. intros ->. apply Hn. now left.
Qed.

Lemma entriesOf_inject (vars : list (string * string)) (doc : Document) (n : string) :
  In n (map fst vars) ->
  exists v, entriesOf n (inject doc vars)
            = [injected n v (existsb maskValue (entriesOf n doc))].
Proof.
  revert doc; induction vars as [ | [m v] vars IH]; intros doc Hn; [now elim Hn | ].
  cbn [inject fold_left]. fold (inject (injectOne doc (m, v)) vars).
  destruct (in_dec string_dec n (map fst vars)) as [Hin | Hout].
  - destruct (IH (injectOne doc (m, v)) Hin) as (v' & ->). exists v'.
    destruct (string_dec n m) as [<- | Hnm].
    + rewrite entriesOf_injectOne_same. cbn [existsb injected maskValue].
      now rewrite orb_false_r.
    + now rewrite entriesOf_injectOne_other.
  - destruct Hn as [Hm | Hin]; [ | now elim Hout]. cbn in Hm; subst m.
    exists v. rewrite entriesOf_inject_other by exact Hout.
    apply entriesOf_injectOne_same.
Qed.

End Injection.

(** C1.  After [inject], for every name of the variable set the document's
    variable collection has exactly one entry with that name; its
    environment is [null] and its [maskValue] is [true] exactly when some
    entry of that name had [maskValue] [true] before.  In particular,
    injecting [X=v] into a document with the entries
    [{name: X, maskValue: true}] and [{name: X, maskValue: false}] leaves the
    single entry [{name: X, value: v, maskValue: true, environment: null}]. *)
Theorem inject_one_entry_per_name :
  (forall (doc : Injector.Document) (variables : list (string * string)) (n : string),
      In n (map fst variables) ->
      exists e,
        entriesOf n (Injector.inject doc variables) = [e] /\
        Injector.name e = n /\
        Injector.environment e = None /\
        Injector.maskValue e = existsb Injector.maskValue (entriesOf n doc)) /\
  (forall (v v1 v2 : string) (env1 env2 : option Injector.scope)
          (others : list (string * json)),
      Injector.variable
        (Injector.inject
           {| Injector.variable :=
                [ {| Injector.name := "X"; Injector.value := v1;
                     Injector.maskValue := true; Injector.environment := env1 |};
                  {| Injector.name := "X"; Injector.value := v2;
                     Injector.maskValue := false; Injector.environment := env2 |} ];
              Injector.others := others |}
           [("X", v)])
      = [injected "X" v true]).
Proof.
  split.
  - intros doc variables n Hn.
    destruct (entriesOf_inject variables doc n Hn) as (v & Hv).
    exists (injected n v (existsb Injector.maskValue (entriesOf n doc))).
    now rewrite Hv.
  - reflexivity.
Qed.

Lemma inject_one_entry_per_name_witness :
  let doc :=
    {| Injector.variable :=
         [ {| Injector.name := "existing_var"; Injector.value := "old_value";
              Injector.maskValue := false; Injector.environment := None |};
           {| Injector.name := "existing_var"; Injector.value := "dev_value";
              Injector.maskValue := true;
              Injector.environment := Some (Injector.ScopeName "Dev") |};
           {| Injector.name := "keep_var"; Injector.value := "kept";
              Injector.maskValue := false; Injector.environment := None |} ];
       Injector.others := [("name", JStr "Test Queue")] |} in
  let variables := [("VAR_A", "aaa"); ("existing_var", "bbb")] in
  In "existing_var" (map fst variables) /\
  exists e,
    entriesOf "existing_var" (Injector.inject doc variables) = [e] /\
    Injector.name e = "existing_var" /\
    Injector.environment e = None /\
    Injector.maskValue e = true.
Proof.
  intros doc variables.
  assert (Hin : In "existing_var" (map fst variables)) by (right; now left).
  split; [exact Hin | ].
  exact (proj1 inject_one_entry_per_name doc variables "existing_var" Hin).
Defined.

(* ===================================================================== *)
(** * Properties of the variable parser *)
(* ===================================================================== *)

Section Parser.

Import JsString VariableSetSpec.

Lemma split_cut (c : ascii) (s : string) :
  match cut c s with
  | None => split c s = [s]
  | Some (k, v) => split c s = k :: split c v
  end.
Proof.
  induction s as [ | a s IH]; [reflexivity | ].
  rewrite split_cons. cbn [cut].
  destruct (Ascii.eqb a c); [reflexivity | ].
  destruct (cut c s) as [[k v] | ]; now rewrite IH.
Qed.

Lemma fold_line_throw (strict : bool) (ls : list string) (m : string) :
  fold_left (line strict) ls (Throw m) = Throw m.
Proof. induction ls as [ | l ls IH]; [reflexivity | exact IH]. Qed.

Lemma line_trim (strict : bool) (acc : Res (list (string * string))) (l : string) :
  line strict acc (trim l) = line strict acc l.
Proof. unfold line. now rewrite trim_idem. Qed.

Lemma line_blank (strict : bool) (acc : Res (list (string * string))) (l : string) :
  trim l = EmptyString -> line strict acc l = acc.
Proof. unfold line. intros ->. now destruct acc. Qed.

(** Only the trimmed, non-blank lines matter to the parser. *)
Lemma fold_line_norm (strict : bool) (ls : list string) (acc : Res (list (string * string))) :
  fold_left (line strict) ls acc = fold_left (line strict) (norm ls) acc.
Proof.
  revert acc; induction ls as [ | l ls IH]; intros acc; [reflexivity | ].
  rewrite norm_cons. cbn [fold_left].
  destruct (String.eqb_spec (trim l) EmptyString) as [Hb | _].
  - rewrite line_blank by exact Hb. apply IH.
  - cbn [fold_left]. rewrite line_trim. apply IH.
Qed.

Lemma keyOf_trim (l : string) : keyOf (trim l) = keyOf l.
Proof. unfold keyOf. now rewrite trim_idem. Qed.

Lemma keyOf_blank (l : string) : trim l = EmptyString -> keyOf l = None.
Proof. unfold keyOf. now intros ->. Qed.

Lemma plain_norm (ls : list string) :
  Forall (fun l => keyOf l <> Some "__proto__") ls
  <-> Forall (fun l => keyOf l <> Some "__proto__") (norm ls).
Proof.
  induction ls as [ | l ls IH]; [reflexivity | ].
  rewrite norm_cons.
  destruct (String.eqb_spec (trim l) EmptyString) as [Hb | _].
  - split.
    + intros H. inversion H; subst. now apply IH.
    + intros H. constructor; [now rewrite keyOf_blank | now apply IH].
  - split; intros H; inversion H; subst; constructor;
      first [now apply IH | now rewrite keyOf_trim | now rewrite <- keyOf_trim].
Qed.

(** The loop body of the source is the line rule of the specification, with
    the empty key rejected. *)
Lemma parseLine_line (vars : JsObject.t) (l : string) :
  keyOf l <> Some "__proto__" ->
  parseLine vars l = relabel (line true (Ok vars) l).
Proof.
  unfold keyOf, parseLine, line.
  destruct (trim l) as [ | c t] eqn:Ht; [reflexivity | ].
  cbn [truthy negb orb String.eqb].
  destruct (startsWith (String c t) "#"); [reflexivity | ].
  pose proof (split_cut "=" (String c t)) as Hsplit.
  destruct (cut "=" (String c t)) as [[k v] | ].
  - intros Hkey. rewrite Hsplit.
    rewrite (split_hd_tl "=" v). cbn [List.length].
    replace (Z.of_nat (S (List.length (tl (split "=" v)))) =? 0) with false
      by (symmetry; apply Z.eqb_neq; lia).
    rewrite orb_false_r, <- (split_hd_tl "=" v), join_split.
    destruct k as [ | kc kt]; [reflexivity | ].
    cbn [truthy negb andb String.eqb relabel]. unfold JsObject.set.
    destruct (String.eqb_spec (trim (String kc kt)) "__proto__") as [E | _];
      [now rewrite E in Hkey | reflexivity].
  - intros _. rewrite Hsplit. cbn [List.length Z.of_nat Z.eqb].
    now rewrite orb_true_r.
Qed.

Lemma parseLines_fold (ls : list string) (vars : JsObject.t) :
  Forall (fun l => keyOf l <> Some "__proto__") ls ->
  parseLines ls vars = relabel (fold_left (line true) ls (Ok vars)).
Proof.
  revert vars; induction ls as [ | l ls IH]; intros vars H; [reflexivity | ].
  inversion H as [ | ? ? Hl Hls]; subst.
  cbn [parseLines fold_left]. rewrite (parseLine_line vars l Hl).
  destruct (line true (Ok vars) l) as [vars' | m]; cbn [relabel].
  - now apply IH.
  - now rewrite fold_line_throw.
Qed.

End Parser.

(** C3, as the source has it.  For every raw input none of whose lines
    defines the key [__proto__], the source computes what the parser of the
    specification computes when a line that starts with [=] is rejected like
    a line without [=]: no variable set for an empty or white-space input;
    otherwise the lines split at line feeds and trimmed, blank and [#] lines
    ignored, the key left of the first [=] and the value right of it, both
    trimmed, and an error naming the first line that has no [=] or no key. *)
Theorem parseChangesetVariables_refines (raw : string) :
  plainKeys raw ->
  agrees (parseChangesetVariables raw) (VariableSetSpec.parse_strict raw).
Proof.
  intros Hplain.
  unfold parseChangesetVariables, VariableSetSpec.parse_strict, VariableSetSpec.parse_gen.
  destruct (JsString.all_ws raw) eqn:Hws.
  - apply trim_empty in Hws. rewrite Hws. now rewrite andb_false_r.
  - assert (Hraw : JsString.truthy raw = true) by (destruct raw; [discriminate | reflexivity]).
    assert (Htrim : JsString.truthy (JsString.trim raw) = true).
    { destruct (JsString.trim raw) eqn:E; [ | reflexivity].
      apply trim_empty in E. congruence. }
    rewrite Hraw, Htrim. cbn [andb].
    rewrite parseLines_fold.
    + rewrite (fold_line_norm true (JsString.split LF (JsString.trim raw))), norm_trim.
      rewrite <- fold_line_norm.
      unfold JsObject.t.
      destruct (fold_left (VariableSetSpec.line true) (JsString.split LF raw) (Ok []));
        reflexivity.
    + apply (proj2 (plain_norm _)). rewrite norm_trim.
      apply (proj1 (plain_norm _)). exact Hplain.
Qed.

Lemma parseChangesetVariables_refines_witness :
  let raw := "A=1" ++ nl ++ "  # a comment" ++ nl ++ nl ++ " B = x=y " ++ nl in
  plainKeys raw /\
  agrees (parseChangesetVariables raw) (VariableSetSpec.parse_strict raw) /\
  parseChangesetVariables raw = Ok (Some [("A", "1"); ("B", "x=y")]).
Proof.
  intros raw.
  assert (Hplain : plainKeys raw) by (repeat constructor; discriminate).
  split; [exact Hplain | split].
  - exact (parseChangesetVariables_refines raw Hplain).
  - reflexivity.
Defined.

(** C3, as the specification words it, fails on the line [=v]: the specification takes the
    empty text left of [=] as a key, the source throws. *)
Lemma parseChangesetVariables_empty_key :
  parseChangesetVariables "=v" = Throw (invalidVariablesMessage "=v") /\
  VariableSetSpec.parse "=v" = VariableSetSpec.Vars [("", "v")] /\
  ~ agrees (parseChangesetVariables "=v") (VariableSetSpec.parse "=v").
Proof.
  split; [reflexivity | split; [reflexivity | ]].
  intros H. exact H.
Qed.

(* ===================================================================== *)
(** * Properties of the file resolution *)
(* ===================================================================== *)

Section Sorting.

Context {A : Type} (comparefn : A -> A -> Z).

Hypothesis total : forall a b, comparefn a b <= 0 \/ comparefn b a <= 0.
Hypothesis transitive :
  forall a b c, comparefn a b <= 0 -> comparefn b c <= 0 -> comparefn a c <= 0.


Lemma sortInsert_perm (x : A) (l : list A) : Permutation (sortInsert comparefn x l) (x :: l).
Proof.
  induction l as [ | y l IH]; cbn [sortInsert]; [reflexivity | ].
  destruct (comparefn x y <=? 0); [reflexivity | ].
  rewrite IH. apply perm_swap.
Qed.

Lemma sort_perm (l : list A) : Permutation (sort comparefn l) l.
Proof.
  induction l as [ | x l IH]; cbn [sort]; [reflexivity | ].
  rewrite sortInsert_perm. now constructor.
Qed.



End Sorting.

Section Resolution.

Import JsString.

Lemma isGlobChar_not_ws (c : ascii) : isGlobChar c = true -> is_ws c = false.
Proof.
  unfold isGlobChar; cbn [mem].
  repeat match goal with
         | |- context [Ascii.eqb ?a c] =>
             destruct (Ascii.eqb_spec a c) as [<- | _]; [reflexivity | ]
         end.
  discriminate.
Qed.

Lemma isGlobPattern_not_ws (s : string) : isGlobPattern s = true -> all_ws s = false.
Proof.
  induction s as [ | c s IH]; [discriminate | ].
  cbn [isGlobPattern all_ws]. intros H. apply orb_prop in H. destruct H as [Hc | Hs].
  - now rewrite (isGlobChar_not_ws c Hc).
  - rewrite (IH Hs). apply andb_false_r.
Qed.

(** A glob pattern is never taken for a missing input. *)
Lemma isGlobPattern_required (s : string) :
  isGlobPattern s = true ->
  negb (truthy s) || String.eqb (trim s) EmptyString = false.
Proof.
  intros H. pose proof (isGlobPattern_not_ws s H) as Hws.
  destruct s as [ | c s]; [discriminate | ]. cbn [truthy negb orb].
  destruct (String.eqb_spec (trim (String c s)) EmptyString) as [E | _]; [ | reflexivity].
  apply trim_empty in E. congruence.
Qed.


End Resolution.



(* ===================================================================== *)
(** * Properties of the poller *)
(* ===================================================================== *)

Section Polling.

(** One turn of the loop, as the source writes it. *)
Lemma pollLoop_turn (req : Request) (timeout elapsed : Z) (w : World) :
  pollLoop req timeout elapsed w
  = if elapsed <? timeout then
      let r := fetch req (emit (Sleep (pollInterval * 1000)) w) in
      match pollAttempt (fst r) with
      | Ok (Some outcome) => (Ok outcome, snd r)
      | Ok None => pollLoop req timeout (elapsed + pollInterval) (snd r)
      | Throw message =>
          if rethrown message then (Throw message, snd r)
          else pollLoop req timeout (elapsed + pollInterval)
                 (emit (Warning (retryWarning message)) (snd r))
      end
    else (Ok TTimeout, w).
Proof.
  rewrite pollLoop_equation_1.
  destruct (Z_lt_dec elapsed timeout) as [Hlt | Hge];
    destruct (Z.ltb_spec elapsed timeout); try lia; reflexivity.
Qed.

Lemma pollsLeft_zero (timeout elapsed : Z) : timeout <= elapsed -> pollsLeft timeout elapsed = O.
Proof.
  intros H. unfold pollsLeft, pollInterval.
  assert ((timeout - elapsed + (5 - 1)) / 5 < 1) by (apply Z.div_lt_upper_bound; lia).
  lia.
Qed.

Lemma pollsLeft_succ (timeout elapsed : Z) :
  elapsed < timeout ->
  pollsLeft timeout elapsed = S (pollsLeft timeout (elapsed + pollInterval)).
Proof.
  intros H. unfold pollsLeft, pollInterval.
  replace (timeout - elapsed + (5 - 1)) with (timeout - (elapsed + 5) + (5 - 1) + 1 * 5) by lia.
  rewrite Z.div_add by lia.
  assert (0 <= (timeout - (elapsed + 5) + (5 - 1)) / 5) by (apply Z.div_pos; lia).
  lia.
Qed.

(** The budget is used up after [pollsLeft] turns, and not before. *)
Lemma pollsLeft_reaches (timeout : Z) :
  timeout <= pollInterval * Z.of_nat (pollsLeft timeout 0)
  /\ (0 < timeout -> pollInterval * (Z.of_nat (pollsLeft timeout 0) - 1) < timeout).
Proof.
  unfold pollsLeft, pollInterval. rewrite Z.sub_0_r.
  destruct (Z_lt_dec 0 timeout) as [Hpos | Hneg].
  - assert (0 <= (timeout + (5 - 1)) / 5) by (apply Z.div_pos; lia).
    rewrite Z2Nat.id by assumption.
    pose proof (Z.div_mod (timeout + (5 - 1)) 5 ltac:(lia)).
    pose proof (Z.mod_pos_bound (timeout + (5 - 1)) 5 ltac:(lia)). lia.
  - split; [ | lia].
    assert ((timeout + (5 - 1)) / 5 < 1) by (apply Z.div_lt_upper_bound; lia). lia.
Qed.

Lemma requests_emit (e : Event) (w : World) :
  requests (trace (emit e w)) = (requests (trace w) + if isFetch e then 1 else 0)%nat.
Proof.
  unfold requests, emit; cbn [trace]. rewrite filter_app, length_app. cbn [filter].
  now destruct (isFetch e).
Qed.

Lemma requests_fetch (req : Request) (w : World) :
  requests (trace (snd (fetch req w))) = S (requests (trace w)).
Proof.
  unfold requests, fetch; cbn [snd trace]. rewrite filter_app, length_app. cbn. lia.
Qed.

(** The loop runs out of budget when every reply within the budget lets it
    go on. *)
Lemma pollLoop_timeout (req : Request) (timeout : Z) (n : nat) :
  forall (elapsed : Z) (w : World),
    pollsLeft timeout elapsed = n ->
    (forall k, (k < n)%nat -> continues (net w (fetched w + k)) = true) ->
    exists w',
      pollLoop req timeout elapsed w = (Ok TTimeout, w') /\
      net w' = net w /\
      fetched w' = (fetched w + n)%nat /\
      requests (trace w') = (requests (trace w) + n)%nat.
Proof.
  induction n as [ | n IH]; intros elapsed w Hleft Hgo; rewrite pollLoop_turn.
  - destruct (Z.ltb_spec elapsed timeout) as [Hlt | Hge].
    + rewrite (pollsLeft_succ _ _ Hlt) in Hleft. discriminate.
    + exists w. repeat split; lia.
  - destruct (Z.ltb_spec elapsed timeout) as [Hlt | Hge];
      [ | rewrite (pollsLeft_zero _ _ Hge) in Hleft; discriminate].
    rewrite (pollsLeft_succ _ _ Hlt) in Hleft. injection Hleft as Hleft.
    cbv zeta. set (w1 := emit (Sleep (pollInterval * 1000)) w).
    pose proof (Hgo O ltac:(lia)) as H0. rewrite Nat.add_0_r in H0.
    unfold continues in H0.
    change (fst (fetch req w1)) with (net w (fetched w)).
    destruct (pollAttempt (net w (fetched w))) as [[outcome | ] | message];
      [discriminate | | ].
    + destruct (IH (elapsed + pollInterval) (snd (fetch req w1)) Hleft)
        as (w' & Hrun & Hnet & Hfetched & Hreq).
      { intros k Hk. cbn. rewrite <- Nat.add_succ_r. apply Hgo. lia. }
      exists w'. rewrite Hrun, Hnet, Hfetched, Hreq, requests_fetch.
      unfold w1. rewrite requests_emit. cbn. repeat split; lia.
    + destruct (rethrown message); [discriminate | ].
      destruct (IH (elapsed + pollInterval)
                  (emit (Warning (retryWarning message)) (snd (fetch req w1))) Hleft)
        as (w' & Hrun & Hnet & Hfetched & Hreq).
      { intros k Hk. cbn. rewrite <- Nat.add_succ_r. apply Hgo. lia. }
      exists w'. rewrite Hrun, Hnet, Hfetched, Hreq, requests_emit, requests_fetch.
      unfold w1. rewrite requests_emit. cbn. repeat split; lia.
Qed.

Lemma reports_object (st : string) (data : json) :
  prop data "status" = Some (JStr st) -> data <> JNull.
Proof. intros H ->. discriminate. Qed.

(** What the [try] block makes of a successful response, by its status. *)
Lemma pollAttempt_reports (st : string) (response : Response) (data : json) :
  ok response = true -> body_json response = Ok data ->
  prop data "status" = Some (JStr st) ->
  pollAttempt (Ok response)
  = if String.eqb st "SUCCESS" then
      Ok (Some (TSuccess (orElse (prop data "result") emptyObject)))
    else if String.eqb st "FAILURE" then
      Ok (Some (TFailure (orElse (prop data "error") (JStr "Unknown error"))))
    else if String.eqb st "REVOKED" then Ok (Some TRevoked)
    else Ok None.
Proof.
  intros Hok Hbody Hst. unfold pollAttempt. rewrite Hok, Hbody. cbn [negb].
  destruct data; try discriminate. cbv zeta. rewrite Hst. reflexivity.
Qed.

Lemma reports_pending_continues (reply : FetchReply) :
  reports "PENDING" reply -> continues reply = true.
Proof.
  intros (response & data & -> & Hok & Hbody & Hst).
  unfold continues. now rewrite (pollAttempt_reports _ _ _ Hok Hbody Hst).
Qed.

End Polling.

(** C4.  [pollTask] returns [{TIMEOUT}] when every reply within the budget
    lets the loop go on (a status that is not terminal, or a fault the loop
    retries): it has then issued one status request per 5-second interval
    that the budget spans, no fewer than it takes for the elapsed time to
    reach [pollingTimeoutSeconds].  With a budget of 10 seconds and replies
    that report PENDING, that is [{TIMEOUT}] after exactly 2 requests. *)
Theorem pollTask_timeout :
  (forall (baseUrl apiKey taskId : string) (pollingTimeoutSeconds : Z) (w : World),
      (forall k, (k < pollsLeft pollingTimeoutSeconds 0)%nat ->
                 continues (net w (fetched w + k)) = true) ->
      exists w',
        pollTask baseUrl apiKey taskId pollingTimeoutSeconds w = (Ok TTimeout, w') /\
        requests (trace w')
        = (requests (trace w) + pollsLeft pollingTimeoutSeconds 0)%nat /\
        pollingTimeoutSeconds
        <= pollInterval * Z.of_nat (pollsLeft pollingTimeoutSeconds 0) /\
        (0 < pollingTimeoutSeconds ->
         pollInterval * (Z.of_nat (pollsLeft pollingTimeoutSeconds 0) - 1)
         < pollingTimeoutSeconds)) /\
  (forall (baseUrl apiKey taskId : string) (w : World),
      (forall k, reports "PENDING" (net w k)) ->
      exists w',
        pollTask baseUrl apiKey taskId 10 w = (Ok TTimeout, w') /\
        requests (trace w') = (requests (trace w) + 2)%nat).
Proof.
  split.
  - intros baseUrl apiKey taskId timeout w Hgo.
    destruct (pollLoop_timeout (pollRequest baseUrl apiKey taskId) timeout
                (pollsLeft timeout 0) 0 w eq_refl Hgo)
      as (w' & Hrun & _ & _ & Hreq).
    exists w'. split; [exact Hrun | split; [exact Hreq | apply pollsLeft_reaches]].
  - intros baseUrl apiKey taskId w Hpending.
    destruct (pollLoop_timeout (pollRequest baseUrl apiKey taskId) 10 2 0 w eq_refl)
      as (w' & Hrun & _ & _ & Hreq).
    + intros k _. apply reports_pending_continues, Hpending.
    + exists w'. split; [exact Hrun | exact Hreq].
Qed.

Lemma pollTask_timeout_witness :
  let w := freshWorld (fun _ => okResponse (statusBody "PENDING")) in
  (forall k, (k < pollsLeft 10 0)%nat -> continues (net w (fetched w + k)) = true) /\
  (forall k, reports "PENDING" (net w k)) /\
  (exists w',
     pollTask "https://inprod.example" "key" "task-1" 10 w = (Ok TTimeout, w') /\
     requests (trace w') = (requests (trace w) + 2)%nat).
Proof.
  intros w.
  assert (Hpending : forall k, reports "PENDING" (net w k)).
  { intros k. eexists; exists (statusBody "PENDING"). repeat split. }
  split; [intros k _; reflexivity | split; [exact Hpending | ]].
  exact (proj2 pollTask_timeout "https://inprod.example" "key" "task-1" w Hpending).
Defined.




(* ===================================================================== *)
(** * Events of the operations *)
(* ===================================================================== *)

Section Events.

Lemma only_ret (q : Event -> bool) {A : Type} (a : A) : only q (ret a).
Proof. intros w. exists []. now rewrite app_nil_r. Qed.

Lemma only_throw (q : Event -> bool) {A : Type} (message : string) : only q (@throw A message).
Proof. intros w. exists []. now rewrite app_nil_r. Qed.

Lemma only_lift (q : Event -> bool) {A : Type} (r : Res A) : only q (lift r).
Proof. intros w. exists []. now rewrite app_nil_r. Qed.

Lemma only_require (q : Event -> bool) (b : bool) (message : string) : only q (require b message).
Proof. destruct b; [apply only_ret | apply only_throw]. Qed.

Lemma only_log (q : Event -> bool) (e : Event) : q e = true -> only q (log e).
Proof. intros He w. exists [e]. cbn. now rewrite He. Qed.

Lemma only_fetch (q : Event -> bool) (req : Request) :
  q (Fetch req) = true -> only q (await_fetch req).
Proof. intros He w. exists [Fetch req]. cbn. now rewrite He. Qed.

Lemma only_bind (q : Event -> bool) {A B : Type} (m : M A) (k : A -> M B) :
  only q m -> (forall a, only q (k a)) -> only q (bind m k).
Proof.
  intros Hm Hk w. unfold bind.
  destruct (Hm w) as (evs & Ht & Hq).
  destruct (m w) as [[a | message] w1]; cbn [snd] in *.
  - destruct (Hk a w1) as (evs' & Ht' & Hq').
    exists (evs ++ evs')%list. rewrite Ht', Ht, app_assoc, forallb_app, Hq, Hq'. now split.
  - now exists evs.
Qed.

Lemma only_attempt (q : Event -> bool) {A : Type} (m : M A) : only q m -> only q (attempt m).
Proof. intros Hm w. exact (Hm w). Qed.

Lemma only_weaken (q q' : Event -> bool) {A : Type} (m : M A) :
  (forall e, q e = true -> q' e = true) -> only q m -> only q' m.
Proof.
  intros Hqq Hm w. destruct (Hm w) as (evs & Ht & Hq). exists evs. split; [exact Ht | ].
  rewrite forallb_forall in *. auto.
Qed.

Lemma only_pollLoop (req : Request) (timeout : Z) (n : nat) :
  forall elapsed, pollsLeft timeout elapsed = n -> only quiet (pollLoop req timeout elapsed).
Proof.
  induction n as [ | n IH]; intros elapsed Hleft w; rewrite pollLoop_turn;
    destruct (Z.ltb_spec elapsed timeout) as [Hlt | Hge];
    try (exists []; now rewrite app_nil_r).
  - rewrite (pollsLeft_succ _ _ Hlt) in Hleft. discriminate.
  - rewrite (pollsLeft_succ _ _ Hlt) in Hleft. injection Hleft as Hleft.
    cbv zeta. set (sleep := Sleep (pollInterval * 1000)).
    destruct (pollAttempt (fst (fetch req (emit sleep w)))) as [[outcome | ] | message].
    + exists [sleep; Fetch req]. cbn. now rewrite <- app_assoc.
    + destruct (IH _ Hleft (snd (fetch req (emit sleep w)))) as (evs & Ht & Hq).
      exists (sleep :: Fetch req :: evs). rewrite Ht. cbn. now rewrite <- !app_assoc.
    + destruct (rethrown message).
      * exists [sleep; Fetch req]. cbn. now rewrite <- app_assoc.
      * destruct (IH _ Hleft (emit (Warning (retryWarning message))
                                (snd (fetch req (emit sleep w))))) as (evs & Ht & Hq).
        exists (sleep :: Fetch req :: Warning (retryWarning message) :: evs).
        rewrite Ht. cbn. now rewrite <- !app_assoc.
Qed.

Lemma only_pollTask (baseUrl apiKey taskId : string) (timeout : Z) :
  only quiet (pollTask baseUrl apiKey taskId timeout).
Proof. unfold pollTask. now apply (only_pollLoop _ _ (pollsLeft timeout 0)). Qed.

End Events.

(** Settles [only quiet] goals about code written with [bind]. *)
Ltac quiet_steps :=
  repeat first
    [ apply only_ret | apply only_throw | apply only_lift | apply only_require
    | apply only_pollTask
    | apply only_log; reflexivity
    | apply only_fetch; reflexivity
    | apply only_bind; [ | intros ? ]
    | match goal with
      | |- only _ (match ?x with _ => _ end) => destruct x
      | |- only _ (if ?b then _ else _) => destruct b
      end ].

Section Operations.

Variable P : Platform.

Lemma only_submit (endpoint : Format -> string) (m1 m2 m3 m4 filePath : string) (o : Options) :
  only quiet (submit P endpoint m1 m2 m3 m4 filePath o).
Proof. unfold submit. quiet_steps. Qed.

(** An attempt to validate: its mark, then requests and log lines. *)
Lemma validateFile_trace (filePath : string) (o : Options) (w : World) :
  exists evs,
    trace (snd (validateFile P filePath o w)) = (trace w ++ CallValidate filePath :: evs)%list
    /\ forallb quiet evs = true.
Proof.
  unfold validateFile.
  match goal with
  | |- context [bind (log ?e) ?k] =>
      assert (Hk : only quiet (k tt)) by quiet_steps;
      change (bind (log e) k w) with (k tt (emit e w))
  end.
  destruct (Hk (emit (CallValidate filePath) w)) as (evs & Ht & Hq).
  exists evs. rewrite Ht. cbn. now rewrite <- app_assoc.
Qed.

(** An attempt to execute: its mark, then requests and log lines. *)
Lemma executeFile_trace (filePath : string) (o : Options) (w : World) :
  exists evs,
    trace (snd (executeFile P filePath o w)) = (trace w ++ CallExecute filePath :: evs)%list
    /\ forallb quiet evs = true.
Proof.
  unfold executeFile.
  match goal with
  | |- context [bind (log ?e) ?k] =>
      assert (Hk : only quiet (k tt)) by quiet_steps;
      change (bind (log e) k w) with (k tt (emit e w))
  end.
  destruct (Hk (emit (CallExecute filePath) w)) as (evs & Ht & Hq).
  exists evs. rewrite Ht. cbn. now rewrite <- app_assoc.
Qed.

End Operations.

Section Counting.

Lemma validateAttempts_app (t evs : list Event) :
  validateAttempts (t ++ evs) = (validateAttempts t + validateAttempts evs)%nat.
Proof. unfold validateAttempts. now rewrite filter_app, length_app. Qed.

Lemma executeAttempts_app (t evs : list Event) :
  executeAttempts (t ++ evs) = (executeAttempts t + executeAttempts evs)%nat.
Proof. unfold executeAttempts. now rewrite filter_app, length_app. Qed.

Lemma outputs_app (name : string) (t evs : list Event) :
  outputs name (t ++ evs) = (outputs name t ++ outputs name evs)%list.
Proof. unfold outputs. now rewrite flat_map_app. Qed.

Lemma failures_app (t evs : list Event) :
  failures (t ++ evs) = (failures t ++ failures evs)%list.
Proof. unfold failures. now rewrite flat_map_app. Qed.

Lemma no_validate (q : Event -> bool) (evs : list Event) :
  (forall e, q e = true -> isCallValidate e = false) ->
  forallb q evs = true -> validateAttempts evs = O.
Proof.
  intros Hq H. unfold validateAttempts.
  induction evs as [ | e evs IH]; [reflexivity | ].
  cbn in *. apply andb_prop in H. destruct H as [He Hevs].
  rewrite (Hq e He). now apply IH.
Qed.

Lemma no_execute (q : Event -> bool) (evs : list Event) :
  (forall e, q e = true -> isCallExecute e = false) ->
  forallb q evs = true -> executeAttempts evs = O.
Proof.
  intros Hq H. unfold executeAttempts.
  induction evs as [ | e evs IH]; [reflexivity | ].
  cbn in *. apply andb_prop in H. destruct H as [He Hevs].
  rewrite (Hq e He). now apply IH.
Qed.

Lemma working_silent (name : string) (evs : list Event) :
  forallb working evs = true -> outputs name evs = [] /\ failures evs = [].
Proof.
  induction evs as [ | e evs IH]; [now split | ].
  cbn [forallb]. intros H. apply andb_prop in H. destruct H as [He Hevs].
  destruct (IH Hevs) as (Ho & Hf).
  destruct e; try discriminate; cbn; now rewrite ?Ho, ?Hf.
Qed.

Lemma quiet_validating (e : Event) : quiet e = true -> validating e = true.
Proof. unfold validating. now intros ->. Qed.

Lemma quiet_executing (e : Event) : quiet e = true -> executing e = true.
Proof. unfold executing. now intros ->. Qed.

Lemma validating_processing (e : Event) : validating e = true -> processing e = true.
Proof. unfold validating, processing. now intros ->. Qed.

Lemma executing_processing (e : Event) : executing e = true -> processing e = true.
Proof. unfold executing, processing. destruct (quiet e), (isCallExecute e); try discriminate; intros _; now rewrite ?orb_true_r. Qed.

Lemma processing_working (e : Event) : processing e = true -> working e = true.
Proof. now destruct e. Qed.

Lemma validating_not_execute (e : Event) : validating e = true -> isCallExecute e = false.
Proof. now destruct e. Qed.

Lemma executing_not_validate (e : Event) : executing e = true -> isCallValidate e = false.
Proof. now destruct e. Qed.

Lemma quiet_not_validate (e : Event) : quiet e = true -> isCallValidate e = false.
Proof. now destruct e. Qed.

Lemma quiet_not_execute (e : Event) : quiet e = true -> isCallExecute e = false.
Proof. now destruct e. Qed.

End Counting.

Section Files.

Variable P : Platform.

Lemma only_validateFile (filePath : string) (o : Options) :
  only validating (validateFile P filePath o).
Proof.
  intros w. destruct (validateFile_trace P filePath o w) as (evs & Ht & Hq).
  exists (CallValidate filePath :: evs). split; [exact Ht | ].
  cbn. rewrite forallb_forall in *. intros e He. now apply quiet_validating, Hq.
Qed.

Lemma only_executeFile (filePath : string) (o : Options) :
  only executing (executeFile P filePath o).
Proof.
  intros w. destruct (executeFile_trace P filePath o w) as (evs & Ht & Hq).
  exists (CallExecute filePath :: evs). split; [exact Ht | ].
  cbn. rewrite forallb_forall in *. intros e He. now apply quiet_executing, Hq.
Qed.

Lemma only_executeStep (filePath : string) (o : Options) :
  only executing (executeStep P filePath o).
Proof.
  unfold executeStep. apply only_bind; [apply only_executeFile | intros r].
  destruct (truthyError (op_error r)); apply only_ret.
Qed.

Lemma only_processSingleFile (filePath : string) (o : Options) :
  only processing (processSingleFile P filePath o).
Proof.
  assert (Hexec : only processing (executeStep P filePath o))
    by (eapply only_weaken; [exact executing_processing | apply only_executeStep]).
  unfold processSingleFile.
  destruct (validateOnly o || validateBeforeExecute o); [ | exact Hexec].
  apply only_bind.
  - eapply only_weaken; [exact validating_processing | apply only_validateFile].
  - intros v. destruct (negb (String.eqb (op_status v) "SUCCESS")); [apply only_ret | ].
    destruct (validateOnly o); [apply only_ret | exact Hexec].
Qed.

(** Without validation a file is only executed. *)
Lemma only_processSingleFile_execute (filePath : string) (o : Options) :
  validateOnly o = false -> validateBeforeExecute o = false ->
  only executing (processSingleFile P filePath o).
Proof.
  intros Hvo Hvbe. unfold processSingleFile. rewrite Hvo, Hvbe. apply only_executeStep.
Qed.

(** The loop over the files adds what processing one file adds, and the
    line that announces a stop. *)
Lemma only_processAll (q : Event -> bool) (o : Options) (ff : bool) :
  (forall e, quiet e = true -> q e = true) ->
  (forall filePath, only q (processSingleFile P filePath o)) ->
  forall filePaths results, only q (processAll P o ff filePaths results).
Proof.
  intros Hquiet Hone filePaths.
  induction filePaths as [ | f rest IH]; intros results; cbn [processAll];
    [apply only_ret | ].
  apply only_bind; [apply only_attempt, Hone | intros [r | message]].
  - destruct (truthyError (error r) && ff); [ | apply IH].
    apply only_bind; [apply only_log, Hquiet; reflexivity | intros _; apply only_ret].
  - destruct ff; [ | apply IH].
    apply only_bind; [apply only_log, Hquiet; reflexivity | intros _; apply only_ret].
Qed.

Lemma only_validateAll (o : Options) (ff : bool) :
  forall filePaths results, only validating (validateAll P o ff filePaths results).
Proof.
  intros filePaths.
  induction filePaths as [ | f rest IH]; intros results; cbn [validateAll];
    [apply only_ret | ].
  apply only_bind; [apply only_attempt, only_validateFile | intros [v | message]].
  - destruct (negb (String.eqb (op_status v) "SUCCESS")); [ | apply IH].
    destruct ff; [ | apply IH].
    apply only_bind; [apply only_log; reflexivity | intros _; apply only_ret].
  - destruct ff; [ | apply IH].
    apply only_bind; [apply only_log; reflexivity | intros _; apply only_ret].
Qed.

(** The loops catch what a file throws: they always return. *)
Lemma processAll_returns (o : Options) (ff : bool) :
  forall filePaths results w, exists results',
    fst (processAll P o ff filePaths results w) = Ok results'.
Proof.
  intros filePaths.
  induction filePaths as [ | f rest IH]; intros results w; cbn [processAll];
    [now exists results | ].
  unfold bind at 1, attempt. cbn [fst snd].
  destruct (fst (processSingleFile P f o w)) as [r | message].
  - destruct (truthyError (error r) && ff); [now eexists | apply IH].
  - destruct ff; [now eexists | apply IH].
Qed.

End Files.

Section Validation.

Variable P : Platform.

(** The statuses [validateFile] returns. *)
Lemma validateFile_settled (filePath : string) (o : Options) (w : World) (v : OpResult) :
  fst (validateFile P filePath o w) = Ok v -> settled (op_status v) (op_error v).
Proof.
  unfold validateFile, bind, log.
  destruct (submit P validateEndpoint _ _ _ _ filePath o _) as [[id | m] w1];
    [ | discriminate].
  destruct (pollTask (baseUrl o) (apiKey o) id (pollingTimeoutSeconds o) w1)
    as [[outcome | m] w2]; [ | discriminate].
  unfold settled. destruct outcome as [result | e | | ]; cbn [fst].
  - destruct (negb (truthy (prop result "is_valid"))); cbn [fst ret];
      intros H; injection H as <-; cbn; [right | left]; auto.
  - intros H; injection H as <-; cbn; right; auto.
  - intros H; injection H as <-; cbn; right; auto.
  - intros H; injection H as <-; cbn; right; auto.
Qed.

Lemma validateAttempts_attempt (filePath : string) (evs evs' : list Event) :
  forallb quiet evs = true ->
  validateAttempts (CallValidate filePath :: evs ++ evs') = S (validateAttempts evs').
Proof.
  intros Hq. change (CallValidate filePath :: evs ++ evs')%list
    with ([CallValidate filePath] ++ (evs ++ evs'))%list.
  rewrite !validateAttempts_app, (no_validate quiet evs quiet_not_validate Hq).
  reflexivity.
Qed.

Lemma validating_attempt (filePath : string) (evs evs' : list Event) :
  forallb quiet evs = true -> forallb validating evs' = true ->
  forallb validating (CallValidate filePath :: evs ++ evs') = true.
Proof.
  intros Hq Hq'. cbn. rewrite forallb_app, Hq', andb_true_r.
  rewrite forallb_forall in *. intros e He. now apply quiet_validating, Hq.
Qed.

(** Phase 1 returns the results it was given followed by the validations
    that did not succeed, and has attempted each validation once. *)
Lemma validateAll_run (o : Options) (ff : bool) :
  forall (filePaths : list string) (results : list FileResult) (w : World),
  exists w' evs,
    validateAll P o ff filePaths results w
    = (Ok (results ++ failedValidations P o ff filePaths w)%list, w') /\
    trace w' = (trace w ++ evs)%list /\
    forallb validating evs = true /\
    validateAttempts evs = List.length (validations P o ff filePaths w).
Proof.
  intros filePaths.
  induction filePaths as [ | f rest IH]; intros results w.
  - exists w, []. cbn. now rewrite !app_nil_r.
  - cbn [validateAll]. unfold bind at 1, attempt. cbn [fst snd].
    unfold failedValidations. cbn [validations filter map snd].
    destruct (validateFile_trace P f o w) as (evs0 & Ht0 & Hq0).
    set (r := validateFile P f o w) in *.
    assert (Hstop : forall results' : list FileResult,
               exists w' evs,
                 (log (stoppingValidation f) ;; ret results') (snd r) = (Ok results', w') /\
                 trace w' = (trace w ++ evs)%list /\
                 forallb validating evs = true /\
                 validateAttempts evs = 1%nat).
    { intros results'. eexists; exists (CallValidate f :: evs0 ++ [stoppingValidation f])%list.
      split; [reflexivity | ]. cbn [emit trace]. rewrite Ht0.
      split; [now rewrite <- app_assoc | ].
      split; [now apply validating_attempt | now rewrite validateAttempts_attempt]. }
    assert (Hnext : forall results',
               exists w' evs,
                 validateAll P o ff rest results' (snd r)
                 = (Ok (results'
                        ++ map recordOf
                             (filter (fun v => failedValidation (snd v))
                                (validations P o ff rest (snd r))))%list, w') /\
                 trace w' = (trace w ++ evs)%list /\
                 forallb validating evs = true /\
                 validateAttempts evs = S (List.length (validations P o ff rest (snd r)))).
    { intros results'. destruct (IH results' (snd r)) as (w' & evs & Hrun & Ht & Hq & Hn).
      exists w', (CallValidate f :: evs0 ++ evs)%list.
      split; [exact Hrun | ]. rewrite Ht, Ht0.
      split; [now rewrite <- app_assoc | ].
      split; [now apply validating_attempt | ].
      now rewrite validateAttempts_attempt, Hn. }
    destruct (fst r) as [v | message] eqn:Hr; cbn [failedValidation].
    + destruct (negb (String.eqb (op_status v) "SUCCESS")) eqn:Hfailed.
      * cbn [map recordOf fst snd]. destruct ff.
        -- apply Hstop.
        -- cbn [List.length].
           destruct (Hnext (results ++ [recordOf (f, Ok v)])%list)
             as (w' & evs & Hrun & Hrest).
           exists w', evs. split; [ | exact Hrest].
           unfold recordOf in Hrun; cbn [fst snd] in Hrun.
           rewrite Hrun. now rewrite <- app_assoc.
      * cbn [List.length]. apply Hnext.
    + cbn [map recordOf fst snd]. destruct ff.
      * apply Hstop.
      * cbn [List.length].
        destruct (Hnext (results ++ [thrownResult f message])%list)
          as (w' & evs & Hrun & Hrest).
        exists w', evs. split; [ | exact Hrest].
        rewrite Hrun. now rewrite <- app_assoc.
Qed.

(** Every recorded validation has a failing status. *)
Lemma failedValidations_failed (o : Options) (ff : bool) :
  forall (filePaths : list string) (w : World),
    Forall (fun r => isSuccess r = false /\ isFailed r = true)
      (failedValidations P o ff filePaths w).
Proof.
  intros filePaths. unfold failedValidations.
  induction filePaths as [ | f rest IH]; intros w; [constructor | ].
  cbn [validations filter snd].
  destruct (fst (validateFile P f o w)) as [v | message] eqn:Hr; cbn [failedValidation].
  - destruct (negb (String.eqb (op_status v) "SUCCESS")) eqn:Hfailed.
    + cbn [map]. constructor; [ | destruct ff; [constructor | apply IH]].
      unfold isSuccess, isFailed, recordOf; cbn [snd status].
      apply negb_true_iff in Hfailed. rewrite Hfailed. split; [reflexivity | ].
      destruct (validateFile_settled _ _ _ _ Hr) as [E | ([E | [E | E]] & _)];
        rewrite E in *; first [discriminate | reflexivity].
    + apply IH.
  - cbn [map]. constructor; [now split | destruct ff; [constructor | apply IH]].
Qed.

(** Without fail-fast every file is validated. *)
Lemma validations_all (o : Options) :
  forall (filePaths : list string) (w : World),
    List.length (validations P o false filePaths w) = List.length filePaths.
Proof.
  intros filePaths. induction filePaths as [ | f rest IH]; intros w; [reflexivity | ].
  cbn [validations List.length].
  destruct (failedValidation (fst (validateFile P f o w))); now rewrite IH.
Qed.

End Validation.

(* ===================================================================== *)
(** * Properties of the run *)
(* ===================================================================== *)

Section Run.

Variable P : Platform.

Lemma filter_all {A : Type} (f : A -> bool) (l : list A) :
  Forall (fun x => f x = true) l -> filter f l = l.
Proof. induction 1 as [ | x l Hx _ IH]; cbn; [reflexivity | now rewrite Hx, IH]. Qed.

Lemma someFailed_recorded (o : Options) (ff : bool) (filePaths : list string) (w : World) :
  someFailed (validations P o ff filePaths w) = true <->
  failedValidations P o ff filePaths w <> [].
Proof.
  unfold someFailed, failedValidations.
  induction (validations P o ff filePaths w) as [ | v vs IH]; cbn [existsb filter].
  - split; [discriminate | intros H; now elim H].
  - destruct (failedValidation (snd v)); cbn [orb map].
    + split; [discriminate | reflexivity].
    + exact IH.
Qed.

(** [configure] only registers the secret. *)
Lemma only_configure (i : Inputs) : only isSetSecret (configure P i).
Proof. unfold configure. quiet_steps. Qed.

(** The flags of a configuration are those of the inputs. *)
Lemma configure_flags (i : Inputs) (w w1 : World) (c : Config) :
  configure P i w = (Ok c, w1) ->
  executionStrategy c
  = (if JsString.truthy (in_execution_strategy i) then in_execution_strategy i
     else "per_file") /\
  validateOnly (options c) = String.eqb (in_validate_only i) "true" /\
  validateBeforeExecute (options c)
  = negb (String.eqb (in_validate_before_execute i) "false") /\
  failFast c = String.eqb (in_fail_fast i) "true".
Proof.
  unfold configure, bind, require, lift, log, ret, throw.
  repeat match goal with
         | |- context [if ?b then _ else _] =>
             lazymatch b with
             | JsString.truthy (in_execution_strategy i) => fail
             | _ => destruct b; try discriminate
             end
         | |- context [match ?x with Ok _ => _ | Throw _ => _ end] =>
             destruct x; try discriminate
         end;
    intros H; injection H as <- _; cbn; repeat split.
Qed.

(** The execution strategy does not change what [configure] does but for
    the strategy it records. *)
Lemma configure_withStrategy (i : Inputs) (strategy : string) (w : World) :
  configure P (withStrategy i strategy) w
  = match configure P i w with
    | (Ok c, w1) =>
        (Ok (configWithStrategy c
               (if JsString.truthy strategy then strategy else "per_file")), w1)
    | (Throw message, w1) => (Throw message, w1)
    end.
Proof.
  unfold configure, withStrategy, bind, require, lift, log, ret, throw.
  cbn [in_api_key in_base_url in_changeset_file in_environment
       in_validate_before_execute in_validate_only in_polling_timeout_minutes
       in_execution_strategy in_fail_fast in_changeset_variables
       env_INPROD_API_KEY env_INPROD_BASE_URL].
  repeat match goal with
         | |- context [if ?b then _ else _] =>
             lazymatch b with
             | JsString.truthy (in_execution_strategy i) => fail
             | JsString.truthy strategy => fail
             | _ => destruct b; try reflexivity
             end
         | |- context [match ?x with Ok _ => _ | Throw _ => _ end] =>
             destruct x; try reflexivity
         end.
Qed.

(** Phase 1 with a validation that did not succeed: the outputs are set and
    the error is thrown; no file is executed. *)
Lemma validateFirst_failure (c : Config) (w : World) :
  someFailed (validations P (options c) (failFast c) (filePaths c) w) = true ->
  let failed := failedValidations P (options c) (failFast c) (filePaths c) w in
  exists w' evs,
    validateFirst P c w
    = (Throw (failureMessage failed
                (validationSummary (List.length failed) (List.length (filePaths c)))), w') /\
    trace w'
    = (trace w ++ evs ++ [SetOutput "status" (OutString "FAILURE");
                          SetOutput "result" (OutResults (map toEntry failed))])%list /\
    forallb validating evs = true /\
    validateAttempts evs
    = List.length (validations P (options c) (failFast c) (filePaths c) w).
Proof.
  intros Hsome failed.
  destruct (validateAll_run P (options c) (failFast c) (filePaths c) [] w)
    as (w1 & evs & Hrun & Ht & Hq & Hn).
  fold failed in Hrun. cbn [app] in Hrun.
  assert (Hall : filter (fun r => negb (isSuccess r)) failed = failed).
  { apply filter_all.
    eapply Forall_impl; [ | apply failedValidations_failed].
    cbn. intros r (Hs & _). now rewrite Hs. }
  assert (Hne : failed <> []) by now apply someFailed_recorded.
  unfold validateFirst, bind at 1. rewrite Hrun, Hall.
  destruct failed as [ | r rs] eqn:Hfailed; [now elim Hne | ].
  replace (0 <? Z.of_nat (List.length (r :: rs))) with true
    by (symmetry; apply Z.ltb_lt; cbn [List.length]; lia).
  eexists; exists evs. split; [reflexivity | ].
  cbn [emit trace]. rewrite Ht. split; [now rewrite <- !app_assoc | now split].
Qed.

Lemma secret_not_validate (e : Event) : isSetSecret e = true -> isCallValidate e = false.
Proof. now destruct e. Qed.

Lemma secret_not_execute (e : Event) : isSetSecret e = true -> isCallExecute e = false.
Proof. now destruct e. Qed.

Lemma secret_working (e : Event) : isSetSecret e = true -> working e = true.
Proof. now destruct e. Qed.

Lemma forallb_weaken (q q' : Event -> bool) (evs : list Event) :
  (forall e, q e = true -> q' e = true) -> forallb q evs = true -> forallb q' evs = true.
Proof. intros Hqq. rewrite !forallb_forall. auto. Qed.

(** A run of the two-phase flow in which a validation did not succeed: its
    events, from first to last. *)
Lemma run_validateFirst_failure (i : Inputs) (w w1 : World) (c : Config) :
  configure P i w = (Ok c, w1) ->
  twoPhase c = true ->
  someFailed (validations P (options c) (failFast c) (filePaths c) w1) = true ->
  let failed := failedValidations P (options c) (failFast c) (filePaths c) w1 in
  let message :=
    failureMessage failed
      (validationSummary (List.length failed) (List.length (filePaths c))) in
  exists secrets evs,
    trace (run P i w)
    = (trace w ++ secrets ++ evs
       ++ [SetOutput "status" (OutString "FAILURE");
           SetOutput "result" (OutResults (map toEntry failed))]
       ++ failureEvents message)%list /\
    forallb isSetSecret secrets = true /\
    forallb validating evs = true /\
    validateAttempts evs
    = List.length (validations P (options c) (failFast c) (filePaths c) w1).
Proof.
  intros Hc Htwo Hsome failed message.
  destruct (only_configure i w) as (secrets & Hsecrets & Hq0). rewrite Hc in Hsecrets.
  cbn [snd] in Hsecrets.
  destruct (validateFirst_failure c w1 Hsome) as (w2 & evs & Hrun & Ht & Hq & Hn).
  exists secrets, evs.
  unfold run, bind at 1. rewrite Hc. unfold orchestrate. rewrite Htwo.
  unfold bind at 1. rewrite Hrun.
  unfold failAction, failureEvents. cbn [emit trace]. rewrite Ht, Hsecrets.
  fold failed. fold message.
  split; [now rewrite <- !app_assoc | now repeat split].
Qed.

End Run.

(** C6.  In the two-phase flow of [validate_first], when a validation does
    not succeed no file is executed: the status output is FAILURE and the
    run fails; every validation phase 1 attempted is counted, and without
    fail-fast that is one per file.  In particular, for three files of which
    the second fails validation, without fail-fast, there are exactly 3
    attempts to validate, none to execute, and the status is FAILURE. *)
Theorem validate_first_blocks_execution
    (P : Platform) (i : Inputs) (w w1 : World) (c : Config) :
  configure P i w = (Ok c, w1) ->
  twoPhase c = true ->
  let attempted := validations P (options c) (failFast c) (filePaths c) w1 in
  (someFailed attempted = true ->
   executeAttempts (trace (run P i w)) = executeAttempts (trace w) /\
   validateAttempts (trace (run P i w))
   = (validateAttempts (trace w) + List.length attempted)%nat /\
   (failFast c = false -> List.length attempted = List.length (filePaths c)) /\
   outputs "status" (trace (run P i w))
   = (outputs "status" (trace w) ++ [OutString "FAILURE"])%list /\
   exists message, failures (trace (run P i w)) = (failures (trace w) ++ [message])%list) /\
  (forall f1 f2 f3,
      filePaths c = [f1; f2; f3] ->
      failFast c = false ->
      failedValidation
        (fst (validateFile P f2 (options c) (snd (validateFile P f1 (options c) w1))))
      = true ->
      validateAttempts (trace (run P i w)) = (validateAttempts (trace w) + 3)%nat /\
      executeAttempts (trace (run P i w)) = executeAttempts (trace w) /\
      outputs "status" (trace (run P i w))
      = (outputs "status" (trace w) ++ [OutString "FAILURE"])%list).
Proof.
  intros Hc Htwo attempted.
  assert (Hgeneral : someFailed attempted = true ->
            executeAttempts (trace (run P i w)) = executeAttempts (trace w) /\
            validateAttempts (trace (run P i w))
            = (validateAttempts (trace w) + List.length attempted)%nat /\
            (failFast c = false -> List.length attempted = List.length (filePaths c)) /\
            outputs "status" (trace (run P i w))
            = (outputs "status" (trace w) ++ [OutString "FAILURE"])%list /\
            exists message,
              failures (trace (run P i w)) = (failures (trace w) ++ [message])%list).
  { intros Hsome.
    destruct (run_validateFirst_failure P i w w1 c Hc Htwo Hsome)
      as (secrets & evs & Ht & Hq0 & Hq & Hn).
    pose proof (forallb_weaken _ _ _ validating_processing Hq) as Hp.
    pose proof (forallb_weaken _ _ _ processing_working Hp) as Hw.
    pose proof (forallb_weaken _ _ _ secret_working Hq0) as Hw0.
    rewrite Ht. repeat split.
    - rewrite !executeAttempts_app.
      rewrite (no_execute _ _ secret_not_execute Hq0).
      rewrite (no_execute _ _ validating_not_execute Hq). cbn. lia.
    - rewrite !validateAttempts_app.
      rewrite (no_validate _ _ secret_not_validate Hq0), Hn. cbn. fold attempted. lia.
    - intros Hff. unfold attempted. rewrite Hff. apply validations_all.
    - rewrite !outputs_app.
      rewrite (proj1 (working_silent "status" _ Hw0)).
      rewrite (proj1 (working_silent "status" _ Hw)). reflexivity.
    - eexists. rewrite !failures_app.
      rewrite (proj2 (working_silent "status" _ Hw0)).
      rewrite (proj2 (working_silent "status" _ Hw)). reflexivity. }
  split; [exact Hgeneral | ].
  intros f1 f2 f3 Hfiles Hff Hsecond.
  assert (Hthree : List.length attempted = 3%nat).
  { unfold attempted. rewrite Hff, validations_all, Hfiles. reflexivity. }
  assert (Hsome : someFailed attempted = true).
  { unfold attempted, someFailed. rewrite Hfiles, Hff. cbn [validations existsb snd].
    destruct (failedValidation (fst (validateFile P f1 (options c) w1)));
      cbn [orb existsb snd]; [reflexivity | ].
    now rewrite Hsecond. }
  destruct (Hgeneral Hsome) as (Hexec & Hval & _ & Hstatus & _).
  rewrite Hthree in Hval. now repeat split.
Qed.

Lemma validate_first_blocks_execution_witness :
  let w := freshWorld secondInvalid in
  exists c w1,
    configure examplePlatform validateFirstInputs w = (Ok c, w1) /\
    twoPhase c = true /\
    someFailed (validations examplePlatform (options c) (failFast c) (filePaths c) w1) = true /\
    validateAttempts (trace (run examplePlatform validateFirstInputs w)) = 3%nat /\
    executeAttempts (trace (run examplePlatform validateFirstInputs w)) = 0%nat /\
    outputs "status" (trace (run examplePlatform validateFirstInputs w))
    = [OutString "FAILURE"].
Proof.
  intros w.
  let r := eval vm_compute in (configure examplePlatform validateFirstInputs w) in
  match r with
  | (Ok ?c, ?w1) => exists c, w1
  end.
  match goal with
  | |- ?start = (Ok ?c, ?w1) /\ _ =>
      assert (Hc : start = (Ok c, w1)) by (vm_compute; reflexivity);
      assert (Htwo : twoPhase c = true) by (vm_compute; reflexivity);
      assert (Hsome : someFailed
                        (validations examplePlatform (options c) (failFast c)
                           (filePaths c) w1) = true) by (vm_compute; reflexivity);
      destruct (proj1 (validate_first_blocks_execution examplePlatform validateFirstInputs
                         w w1 c Hc Htwo) Hsome)
        as (Hexec & Hval & _ & Hstatus & _)
  end.
  split; [exact Hc | split; [exact Htwo | split; [exact Hsome | ]]].
  split; [exact Hval | split; [exact Hexec | exact Hstatus]].
Defined.

(** C9, as the source has it.  When the two-phase flow ends because a
    validation did not succeed, the result output lists, in order, the files
    whose validation was attempted and did not succeed, none of them with
    the status SUCCESS: a file that validated successfully has no entry. *)
Theorem validate_first_reports_failures
    (P : Platform) (i : Inputs) (w w1 : World) (c : Config) :
  configure P i w = (Ok c, w1) ->
  twoPhase c = true ->
  let attempted := validations P (options c) (failFast c) (filePaths c) w1 in
  someFailed attempted = true ->
  exists entries,
    outputs "result" (trace (run P i w))
    = (outputs "result" (trace w) ++ [OutResults entries])%list /\
    map entry_file entries = map Path.basename (failedFiles attempted) /\
    Forall (fun e => entry_status e <> "SUCCESS") entries.
Proof.
  intros Hc Htwo attempted Hsome.
  destruct (run_validateFirst_failure P i w w1 c Hc Htwo Hsome)
    as (secrets & evs & Ht & Hq0 & Hq & _).
  pose proof (forallb_weaken _ _ _ validating_processing Hq) as Hp.
  pose proof (forallb_weaken _ _ _ processing_working Hp) as Hw.
  pose proof (forallb_weaken _ _ _ secret_working Hq0) as Hw0.
  exists (map toEntry (failedValidations P (options c) (failFast c) (filePaths c) w1)).
  split; [ | split].
  - rewrite Ht, !outputs_app.
    rewrite (proj1 (working_silent "result" _ Hw0)).
    rewrite (proj1 (working_silent "result" _ Hw)). reflexivity.
  - unfold failedValidations, failedFiles. fold attempted.
    rewrite !map_map. apply map_ext. intros [f [v | message]]; reflexivity.
  - apply Forall_map.
    eapply Forall_impl; [ | apply failedValidations_failed].
    cbn. intros r (Hs & _) E. unfold isSuccess in Hs. rewrite E in Hs. discriminate.
Qed.

Lemma validate_first_reports_failures_witness :
  let w := freshWorld secondInvalid in
  exists c w1,
    configure examplePlatform validateFirstInputs w = (Ok c, w1) /\
    twoPhase c = true /\
    someFailed (validations examplePlatform (options c) (failFast c) (filePaths c) w1) = true /\
    exists entries,
      outputs "result" (trace (run examplePlatform validateFirstInputs w))
      = [OutResults entries] /\
      map entry_file entries = ["02_queues.yaml"] /\
      Forall (fun e => entry_status e <> "SUCCESS") entries.
Proof.
  intros w.
  let r := eval vm_compute in (configure examplePlatform validateFirstInputs w) in
  match r with
  | (Ok ?c, ?w1) => exists c, w1
  end.
  match goal with
  | |- ?start = (Ok ?c, ?w1) /\ _ =>
      assert (Hc : start = (Ok c, w1)) by (vm_compute; reflexivity);
      assert (Htwo : twoPhase c = true) by (vm_compute; reflexivity);
      assert (Hsome : someFailed
                        (validations examplePlatform (options c) (failFast c)
                           (filePaths c) w1) = true) by (vm_compute; reflexivity);
      destruct (validate_first_reports_failures examplePlatform validateFirstInputs
                  w w1 c Hc Htwo Hsome)
        as (entries & Hout & Hfiles & Hstatus)
  end.
  split; [exact Hc | split; [exact Htwo | split; [exact Hsome | ]]].
  exists entries. split; [exact Hout | split; [exact Hfiles | exact Hstatus]].
Defined.

(** C9, as the specification words it, fails: of three validations attempted, of
    which the first and the third succeed, the result output has an entry
    for the second file only. *)
Lemma validate_first_omits_valid_files :
  let w := freshWorld secondInvalid in
  let o := {| apiKey := "key"; baseUrl := "https://inprod.example";
              environment := EmptyString; validateBeforeExecute := true;
              validateOnly := false; pollingTimeoutSeconds := 600;
              changesetVariables := None |} in
  let attempted :=
    validations examplePlatform o false
      ["/repo/changesets/01_users.json"; "/repo/changesets/02_queues.yaml";
       "/repo/changesets/10_flows.yaml"]
      (emit (SetSecret "key") w) in
  configure examplePlatform validateFirstInputs w
  = (Ok {| options := o;
           filePaths := ["/repo/changesets/01_users.json"; "/repo/changesets/02_queues.yaml";
                         "/repo/changesets/10_flows.yaml"];
           executionStrategy := "validate_first"; failFast := false |},
     emit (SetSecret "key") w) /\
  map (fun v => (fst v, failedValidation (snd v))) attempted
  = [("/repo/changesets/01_users.json", false); ("/repo/changesets/02_queues.yaml", true);
     ("/repo/changesets/10_flows.yaml", false)] /\
  outputs "result" (trace (run examplePlatform validateFirstInputs w))
  = [OutResults
       [ {| entry_file := "02_queues.yaml"; entry_status := "FAILURE";
            entry_result := JObj [("is_valid", JBool false)];
            entry_error :=
              Some "Changeset validation failed. See validation errors above." |} ]] /\
  ~ (forall v, In v attempted ->
       exists entries e,
         In (OutResults entries)
            (outputs "result" (trace (run examplePlatform validateFirstInputs w))) /\
         In e entries /\ entry_file e = Path.basename (fst v)).
Proof.
  intros w o attempted.
  assert (Hattempted : map (fun v => (fst v, failedValidation (snd v))) attempted
                       = [("/repo/changesets/01_users.json", false);
                          ("/repo/changesets/02_queues.yaml", true);
                          ("/repo/changesets/10_flows.yaml", false)])
    by (vm_compute; reflexivity).
  assert (Hout : outputs "result" (trace (run examplePlatform validateFirstInputs w))
                 = [OutResults
                      [ {| entry_file := "02_queues.yaml"; entry_status := "FAILURE";
                           entry_result := JObj [("is_valid", JBool false)];
                           entry_error :=
                             Some "Changeset validation failed. See validation errors above." |} ]])
    by (vm_compute; reflexivity).
  split; [vm_compute; reflexivity | ].
  split; [exact Hattempted | split; [exact Hout | ]].
  intros Hall.
  destruct attempted as [ | v1 rest] eqn:E; [discriminate Hattempted | ].
  destruct (Hall v1 (or_introl eq_refl)) as (entries & e & Hin & He & Hfile).
  rewrite Hout in Hin. destruct Hin as [Hin | []]. injection Hin as <-.
  destruct He as [<- | []]. cbn [entry_file] in Hfile.
  cbn [map] in Hattempted. injection Hattempted as Hv1 _ _.
  rewrite Hv1 in Hfile. vm_compute in Hfile. discriminate Hfile.
Qed.

Section Outcome.

Variable P : Platform.

(** The last step of a run: both outputs, then the error when the status
    fails the run. *)
Lemma aggregate_outcome (results : list FileResult) (w : World) :
  aggregate results w
  = ((if failing (worstStatus results)
      then Throw (failureMessage (filter isFailed results)
                    (failureSummary (List.length (filter isFailed results))
                       (List.length results)))
      else Ok tt),
     emit (SetOutput "result" (OutResults (map toEntry results)))
       (emit (SetOutput "status" (OutString (worstStatus results))) w)).
Proof. unfold aggregate, bind, log. cbn. now destruct (failing (worstStatus results)). Qed.

Lemma processAll_outcome (o : Options) (ff : bool) (filePaths : list string) (w : World) :
  exists results w' evs,
    processAll P o ff filePaths [] w = (Ok results, w') /\
    trace w' = (trace w ++ evs)%list /\ forallb working evs = true.
Proof.
  destruct (processAll_returns P o ff filePaths [] w) as (results & Hr).
  destruct (only_processAll P processing o ff
              (fun e He => validating_processing e (quiet_validating e He))
              (fun f => only_processSingleFile P f o) filePaths [] w)
    as (evs & Ht & Hq).
  exists results, (snd (processAll P o ff filePaths [] w)), evs.
  split; [ | split; [exact Ht | exact (forallb_weaken _ _ _ processing_working Hq)]].
  rewrite <- Hr. now destruct (processAll P o ff filePaths [] w).
Qed.


End Outcome.



(** [run], by the outcome of its two parts. *)
Lemma run_parts (P : Platform) (i : Inputs) (w : World) :
  run P i w
  = match configure P i w with
    | (Ok c, w1) =>
        match orchestrate P c w1 with
        | (Ok _, w') => w'
        | (Throw message, w') => failAction message w'
        end
    | (Throw message, w1) => failAction message w1
    end.
Proof. unfold run, bind. now destruct (configure P i w) as [[c | message] w1]. Qed.

(** C10.  With the strategy [validate_first], a run with
    [validate_before_execute] off or [validate_only] on is the run of the
    strategy [per_file] on the same inputs; with [validate_before_execute]
    off, and [validate_only] off too, no validation is attempted at all, so
    no phase of validations comes before the executions. *)
Theorem validate_first_needs_validation (P : Platform) (i : Inputs) (w : World) :
  in_execution_strategy i = "validate_first" ->
  (in_validate_before_execute i = "false" \/ in_validate_only i = "true" ->
   run P i w = run P (withStrategy i "per_file") w) /\
  (in_validate_before_execute i = "false" -> in_validate_only i <> "true" ->
   validateAttempts (trace (run P i w)) = validateAttempts (trace w)).
Proof.
  intros Hstrategy. split.
  - intros Hflags. rewrite !run_parts, configure_withStrategy.
    destruct (configure P i w) as [[c | message] w1] eqn:Hc; [ | reflexivity].
    destruct (configure_flags P i w w1 c Hc) as (_ & Hvo & Hvbe & _).
    assert (Htwo : twoPhase c = false).
    { unfold twoPhase. rewrite Hvo, Hvbe.
      destruct Hflags as [-> | ->]; cbn; now rewrite ?andb_false_r. }
    unfold orchestrate. rewrite Htwo. reflexivity.
  - intros Hvbe Hvo.
    destruct (only_configure P i w) as (secrets & Hsecrets & Hq0).
    pose proof (no_validate _ _ secret_not_validate Hq0) as Hnone.
    rewrite run_parts.
    destruct (configure P i w) as [[c | message] w1] eqn:Hc; cbn [snd] in Hsecrets.
    + destruct (configure_flags P i w w1 c Hc) as (_ & Hvo' & Hvbe' & _).
      rewrite Hvbe in Hvbe'. cbn in Hvbe'.
      assert (Hvo'' : validateOnly (options c) = false).
      { rewrite Hvo'. destruct (String.eqb_spec (in_validate_only i) "true"); congruence. }
      assert (Htwo : twoPhase c = false)
        by (unfold twoPhase; rewrite Hvbe'; apply andb_false_r).
      unfold orchestrate. rewrite Htwo. unfold bind at 1.
      destruct (processAll_returns P (options c) (failFast c) (filePaths c) [] w1)
        as (results & Hr).
      destruct (only_processAll P executing (options c) (failFast c) quiet_executing
                  (fun f => only_processSingleFile_execute P f (options c) Hvo'' Hvbe')
                  (filePaths c) [] w1) as (evs & Ht & Hq).
      pose proof (no_validate _ _ executing_not_validate Hq) as Hnone'.
      destruct (processAll P (options c) (failFast c) (filePaths c) [] w1)
        as [[results' | message] w2]; cbn [fst snd] in *; [ | discriminate].
      rewrite aggregate_outcome.
      destruct (failing (worstStatus results')); unfold failAction; cbn [emit trace];
        rewrite Ht, Hsecrets, !validateAttempts_app, Hnone, Hnone'; cbn; lia.
    + unfold failAction; cbn [emit trace].
      rewrite Hsecrets, !validateAttempts_app, Hnone. cbn. lia.
Qed.

Lemma validate_first_needs_validation_witness :
  let w := freshWorld allExecuted in
  in_execution_strategy withoutValidationInputs = "validate_first" /\
  in_validate_before_execute withoutValidationInputs = "false" /\
  in_validate_only withoutValidationInputs <> "true" /\
  run examplePlatform withoutValidationInputs w
  = run examplePlatform (withStrategy withoutValidationInputs "per_file") w /\
  validateAttempts (trace (run examplePlatform withoutValidationInputs w)) = 0%nat /\
  executeAttempts (trace (run examplePlatform withoutValidationInputs w)) = 3%nat.
Proof.
  intros w.
  assert (Hvo : in_validate_only withoutValidationInputs <> "true") by discriminate.
  destruct (validate_first_needs_validation examplePlatform withoutValidationInputs w eq_refl)
    as (Hsame & Hnone).
  split; [reflexivity | split; [reflexivity | split; [exact Hvo | ]]].
  split; [exact (Hsame (or_introl eq_refl)) | ].
  split; [exact (Hnone eq_refl Hvo) | vm_compute; reflexivity].
Defined.


(* ===================================================================== *)
(** * Further properties of the poller *)
(* ===================================================================== *)

Section PollerMore.

Lemma slept_app (t evs : list Event) : slept (t ++ evs) = slept t + slept evs.
Proof.
  unfold slept. induction t as [ | e t IH]; cbn [app fold_right]; [reflexivity | ].
  destruct e; rewrite ?IH; lia.
Qed.

(** After [n] replies that let the loop go on, the loop is where it would be
    [n] intervals later. *)
Lemma pollLoop_skip (req : Request) (timeout : Z) (n : nat) :
  forall (elapsed : Z) (w : World),
    (forall k, (k < n)%nat -> continues (net w (fetched w + k)) = true) ->
    elapsed + pollInterval * Z.of_nat n < timeout + pollInterval ->
    exists w1,
      pollLoop req timeout elapsed w
      = pollLoop req timeout (elapsed + pollInterval * Z.of_nat n) w1 /\
      net w1 = net w /\
      fetched w1 = (fetched w + n)%nat /\
      requests (trace w1) = (requests (trace w) + n)%nat /\
      slept (trace w1) = slept (trace w) + pollInterval * 1000 * Z.of_nat n.
Proof.
  induction n as [ | n IH]; intros elapsed w Hgo Hbudget.
  - exists w. cbn [Z.of_nat]. rewrite !Z.mul_0_r, !Z.add_0_r, !Nat.add_0_r.
    repeat split; reflexivity.
  - unfold pollInterval in *.
    rewrite pollLoop_turn. destruct (Z.ltb_spec elapsed timeout) as [Hlt | Hge]; [ | lia].
    cbv zeta. set (w1 := emit (Sleep (pollInterval * 1000)) w).
    pose proof (Hgo O ltac:(lia)) as H0. rewrite Nat.add_0_r in H0.
    unfold continues in H0.
    change (fst (fetch req w1)) with (net w (fetched w)).
    assert (Hnext : forall w2,
               net w2 = net w -> fetched w2 = S (fetched w) ->
               requests (trace w2) = S (requests (trace w)) ->
               slept (trace w2) = slept (trace w) + 5000 ->
               exists w3,
                 pollLoop req timeout (elapsed + pollInterval) w2
                 = pollLoop req timeout (elapsed + 5 * Z.of_nat (S n)) w3 /\
                 net w3 = net w /\
                 fetched w3 = (fetched w + S n)%nat /\
                 requests (trace w3) = (requests (trace w) + S n)%nat /\
                 slept (trace w3) = slept (trace w) + 5 * 1000 * Z.of_nat (S n)).
    { intros w2 Hnet Hf Hr Hs.
      destruct (IH (elapsed + pollInterval) w2) as (w3 & Hrun & Hnet3 & Hf3 & Hr3 & Hs3).
      - intros k Hk. rewrite Hnet, Hf. cbn. rewrite <- Nat.add_succ_r. apply Hgo. lia.
      - unfold pollInterval. lia.
      - exists w3. unfold pollInterval in *. rewrite Hrun.
        split; [f_equal; lia | ].
        rewrite Hnet3, Hf3, Hr3, Hs3, Hnet, Hf, Hr, Hs. repeat split; lia. }
    destruct (pollAttempt (net w (fetched w))) as [[outcome | ] | message];
      [discriminate | | ].
    + apply Hnext; try reflexivity.
      * unfold w1. now rewrite requests_fetch, requests_emit, Nat.add_0_r.
      * unfold w1, fetch, emit; cbn [snd trace]. rewrite !slept_app. cbn. lia.
    + destruct (rethrown message); [discriminate | ].
      apply Hnext; try reflexivity.
      * unfold w1. rewrite requests_emit, requests_fetch, requests_emit. cbn. lia.
      * unfold w1, fetch, emit; cbn [snd trace]. rewrite !slept_app. cbn. lia.
Qed.

End PollerMore.



(** X2.  [pollTask] returns the first terminal status it is told: after [n]
    replies that let the loop go on, a response within the budget that
    reports SUCCESS, FAILURE or REVOKED ends the loop after [n + 1] requests
    and [n + 1] intervals of sleep, with the result (or the empty object),
    the error (or [Unknown error]), or nothing. *)
Theorem pollTask_returns_terminal
    (baseUrl apiKey taskId : string) (pollingTimeoutSeconds : Z) (w : World)
    (n : nat) (response : Response) (data : json) (st : string) (outcome : TaskOutcome) :
  (forall k, (k < n)%nat -> continues (net w (fetched w + k)) = true) ->
  pollInterval * Z.of_nat n < pollingTimeoutSeconds ->
  net w (fetched w + n) = Ok response ->
  ok response = true ->
  body_json response = Ok data ->
  prop data "status" = Some (JStr st) ->
  terminalOutcome st data = Some outcome ->
  exists w',
    pollTask baseUrl apiKey taskId pollingTimeoutSeconds w = (Ok outcome, w') /\
    requests (trace w') = (requests (trace w) + S n)%nat /\
    slept (trace w') = slept (trace w) + pollInterval * 1000 * Z.of_nat (S n).
Proof.
  intros Hgo Hbudget Hreply Hok Hbody Hst Hout. unfold pollTask.
  destruct (pollLoop_skip (pollRequest baseUrl apiKey taskId) pollingTimeoutSeconds n 0 w Hgo)
    as (w1 & Hrun & Hnet & Hf & Hr & Hs); [unfold pollInterval in *; lia | ].
  rewrite Hrun, pollLoop_turn. unfold pollInterval in *.
  destruct (Z.ltb_spec (0 + 5 * Z.of_nat n) pollingTimeoutSeconds); [ | lia].
  cbv zeta.
  match goal with
  | |- context [pollAttempt (fst (fetch ?req ?w2))] =>
      change (fst (fetch req w2)) with (net w1 (fetched w1))
  end.
  rewrite Hnet, Hf, Hreply, (pollAttempt_reports _ _ _ Hok Hbody Hst).
  unfold terminalOutcome in Hout.
  assert (Hattempt :
            (if String.eqb st "SUCCESS"
             then Ok (Some (TSuccess (orElse (prop data "result") emptyObject)))
             else if String.eqb st "FAILURE"
                  then Ok (Some (TFailure (orElse (prop data "error") (JStr "Unknown error"))))
                  else if String.eqb st "REVOKED" then Ok (Some TRevoked) else Ok None)
            = Ok (Some outcome)).
  { destruct (String.eqb st "SUCCESS"); [congruence | ].
    destruct (String.eqb st "FAILURE"); [congruence | ].
    destruct (String.eqb st "REVOKED"); [congruence | discriminate]. }
  rewrite Hattempt. eexists; split; [reflexivity | ].
  rewrite requests_fetch, requests_emit, Hr.
  unfold fetch, emit; cbn [snd trace]. rewrite !slept_app, Hs. cbn [slept fold_right isFetch]. split; lia.
Qed.

Lemma pollTask_returns_terminal_witness :
  let w := freshWorld
             (script [okResponse (statusBody "PENDING"); okResponse (statusBody "STARTED");
                      successReply (JObj [("run_id", JNum 5)])]) in
  exists w',
    pollTask "https://inprod.example" "key" "task-1" 600 w
    = (Ok (TSuccess (JObj [("run_id", JNum 5)])), w') /\
    requests (trace w') = 3%nat /\
    slept (trace w') = 15000.
Proof.
  intros w.
  refine (pollTask_returns_terminal "https://inprod.example" "key" "task-1" 600 w 2
            _ _ "SUCCESS" _ _ _ eq_refl eq_refl eq_refl eq_refl eq_refl).
  - intros k Hk.
    destruct k as [ | [ | k]]; [reflexivity | reflexivity | lia].
  - reflexivity.
Defined.

(** X3.  A budget that is not positive allows nothing: [pollTask] returns
    [{TIMEOUT}] at once, without a sleep or a request. *)
Theorem pollTask_without_budget
    (baseUrl apiKey taskId : string) (pollingTimeoutSeconds : Z) (w : World) :
  pollingTimeoutSeconds <= 0 ->
  pollTask baseUrl apiKey taskId pollingTimeoutSeconds w = (Ok TTimeout, w).
Proof.
  intros H. unfold pollTask. rewrite pollLoop_turn.
  destruct (Z.ltb_spec 0 pollingTimeoutSeconds); [lia | reflexivity].
Qed.

Lemma pollTask_without_budget_witness :
  let w := freshWorld (script [successReply emptyObject]) in
  -60 <= 0 /\
  pollTask "https://inprod.example" "key" "task-1" (-60) w = (Ok TTimeout, w).
Proof.
  intros w. split; [lia | ].
  apply pollTask_without_budget. lia.
Defined.

Section PollerBound.

Lemma pollLoop_bounded (req : Request) (timeout : Z) (n : nat) :
  forall (elapsed : Z) (w : World),
    pollsLeft timeout elapsed = n ->
    exists k,
      (k <= n)%nat /\
      net (snd (pollLoop req timeout elapsed w)) = net w /\
      fetched (snd (pollLoop req timeout elapsed w)) = (fetched w + k)%nat /\
      requests (trace (snd (pollLoop req timeout elapsed w)))
      = (requests (trace w) + k)%nat /\
      slept (trace (snd (pollLoop req timeout elapsed w)))
      = slept (trace w) + pollInterval * 1000 * Z.of_nat k.
Proof.
  induction n as [ | n IH]; intros elapsed w Hleft; rewrite pollLoop_turn;
    destruct (Z.ltb_spec elapsed timeout) as [Hlt | Hge];
    try (exists O; cbn [snd Z.of_nat]; rewrite !Nat.add_0_r, Z.mul_0_r, Z.add_0_r;
         repeat split; reflexivity || lia).
  - rewrite (pollsLeft_succ _ _ Hlt) in Hleft. discriminate.
  - rewrite (pollsLeft_succ _ _ Hlt) in Hleft. injection Hleft as Hleft.
    cbv zeta. set (sleep := Sleep (pollInterval * 1000)).
    assert (Hone : exists k, (k <= S n)%nat /\
                     net (snd (fetch req (emit sleep w))) = net w /\
                     fetched (snd (fetch req (emit sleep w))) = (fetched w + k)%nat /\
                     requests (trace (snd (fetch req (emit sleep w))))
                     = (requests (trace w) + k)%nat /\
                     slept (trace (snd (fetch req (emit sleep w))))
                     = slept (trace w) + pollInterval * 1000 * Z.of_nat k).
    { exists 1%nat. rewrite requests_fetch, requests_emit.
      unfold fetch, emit; cbn [snd trace net fetched]. rewrite !slept_app.
      cbn [slept fold_right isFetch sleep Z.of_nat]. repeat split; lia. }
    assert (Hnext : forall w2,
               net w2 = net w -> fetched w2 = S (fetched w) ->
               requests (trace w2) = S (requests (trace w)) ->
               slept (trace w2) = slept (trace w) + pollInterval * 1000 ->
               exists k, (k <= S n)%nat /\
                 net (snd (pollLoop req timeout (elapsed + pollInterval) w2)) = net w /\
                 fetched (snd (pollLoop req timeout (elapsed + pollInterval) w2))
                 = (fetched w + k)%nat /\
                 requests (trace (snd (pollLoop req timeout (elapsed + pollInterval) w2)))
                 = (requests (trace w) + k)%nat /\
                 slept (trace (snd (pollLoop req timeout (elapsed + pollInterval) w2)))
                 = slept (trace w) + pollInterval * 1000 * Z.of_nat k).
    { intros w2 Hnet Hf Hr Hs.
      destruct (IH _ w2 Hleft) as (k & Hk & Hnet' & Hf' & Hr' & Hs').
      exists (S k). rewrite Hnet', Hf', Hr', Hs', Hnet, Hf, Hr, Hs.
      repeat split; lia. }
    destruct (pollAttempt (fst (fetch req (emit sleep w)))) as [[outcome | ] | message].
    + exact Hone.
    + apply Hnext; try reflexivity.
      * now rewrite requests_fetch, requests_emit, Nat.add_0_r.
      * unfold fetch, emit; cbn [snd trace]. rewrite !slept_app.
        cbn [slept fold_right sleep]. lia.
    + destruct (rethrown message); [exact Hone | ].
      apply Hnext; try reflexivity.
      * rewrite requests_emit, requests_fetch, requests_emit. subst sleep. cbn [isFetch]. lia.
      * unfold fetch, emit; cbn [snd trace]. rewrite !slept_app.
        cbn [slept fold_right sleep]. lia.
Qed.

End PollerBound.

(** X4.  Whatever the network answers, [pollTask] issues at most
    ceil(timeout / 5) status requests, sleeps one interval of 5000 ms before
    each of them, and does not sleep otherwise. *)
Theorem pollTask_requests_bounded
    (baseUrl apiKey taskId : string) (pollingTimeoutSeconds : Z) (w : World) :
  exists k,
    (k <= pollsLeft pollingTimeoutSeconds 0)%nat /\
    requests (trace (snd (pollTask baseUrl apiKey taskId pollingTimeoutSeconds w)))
    = (requests (trace w) + k)%nat /\
    slept (trace (snd (pollTask baseUrl apiKey taskId pollingTimeoutSeconds w)))
    = slept (trace w) + 5000 * Z.of_nat k.
Proof.
  unfold pollTask.
  destruct (pollLoop_bounded (pollRequest baseUrl apiKey taskId) pollingTimeoutSeconds
              _ 0 w eq_refl) as (k & Hk & _ & _ & Hr & Hs).
  exists k. unfold pollInterval in Hs. repeat split; [exact Hk | exact Hr | rewrite Hs; lia].
Qed.

(* ===================================================================== *)
(** * Further properties of the aggregation *)
(* ===================================================================== *)

Section AggregationMore.

Lemma priority_range (s : string) : priority s <= 4 \/ priority s = 99.
Proof.
  unfold priority, STATUS_PRIORITY; cbn [assoc].
  repeat match goal with
         | |- context [String.eqb ?a s] => destruct (String.eqb a s); [left; lia | ]
         end.
  now right.
Qed.

Lemma priority_ranked (s : string) : priority s < 99 -> ranked s.
Proof.
  unfold priority, ranked. destruct (STATUS_PRIORITY s); [discriminate | lia].
Qed.

Lemma failing_priority (s : string) : failing s = (priority s <=? 2).
Proof.
  unfold failing, priority, STATUS_PRIORITY; cbn [assoc].
  rewrite !(String.eqb_sym s).
  repeat match goal with
         | |- context [String.eqb ?a s] =>
             destruct (String.eqb_spec a s) as [<- | _]; [reflexivity | ]
         end.
  reflexivity.
Qed.

(** The callback of the reduction may see two results in either order. *)
Lemma worse_swap (init : string) (r1 r2 : FileResult) :
  worse (worse init r1) r2 = worse (worse init r2) r1.
Proof.
  pose proof (priority_range init) as Hinit.
  assert (Hsame : priority (status r1) = priority (status r2) ->
                  priority (status r1) < priority init -> status r1 = status r2).
  { intros Heq Hlt. apply priority_injective; [ | | exact Heq];
      apply priority_ranked; lia. }
  unfold worse.
  destruct (Z.ltb_spec (priority (status r1)) (priority init));
    destruct (Z.ltb_spec (priority (status r2)) (priority init));
    repeat match goal with
           | |- context [?a <? ?b] => destruct (Z.ltb_spec a b)
           end;
    try reflexivity; try lia.
  - apply Hsame; lia.
Qed.

Lemma fold_worse_perm (results results' : list FileResult) :
  Permutation results results' ->
  forall init, fold_left worse results init = fold_left worse results' init.
Proof.
  induction 1 as [ | r l l' _ IH | r1 r2 l | l l' l'' _ IH _ IH']; intros init; cbn [fold_left].
  - reflexivity.
  - apply IH.
  - now rewrite worse_swap.
  - now rewrite IH.
Qed.

Lemma failing_worse (init : string) (r : FileResult) :
  failing (worse init r) = failing init || failing (status r).
Proof.
  rewrite !failing_priority. unfold worse.
  destruct (Z.ltb_spec (priority (status r)) (priority init));
    destruct (Z.leb_spec (priority init) 2);
    destruct (Z.leb_spec (priority (status r)) 2);
    cbn [orb]; try reflexivity; try lia;
    match goal with |- (?a <=? ?b) = _ => destruct (Z.leb_spec a b) end;
    try reflexivity; lia.
Qed.

Lemma failing_fold (results : list FileResult) :
  forall init,
    failing (fold_left worse results init)
    = failing init || existsb (fun r => failing (status r)) results.
Proof.
  induction results as [ | r results IH]; intros init; cbn [fold_left existsb].
  - now rewrite orb_false_r.
  - now rewrite IH, failing_worse, orb_assoc.
Qed.

End AggregationMore.

(** X5.  The aggregate status does not depend on the order of the results. *)
Theorem worstStatus_order_independent (results results' : list FileResult) :
  Permutation results results' -> worstStatus results = worstStatus results'.
Proof. intros H. unfold worstStatus. now apply fold_worse_perm. Qed.

Lemma worstStatus_order_independent_witness :
  let a := resultOf "a.yaml" "TIMEOUT" (Some "timed out") in
  let b := resultOf "b.yaml" "FAILURE" (Some "failed") in
  let c := resultOf "c.yaml" "SUCCESS" None in
  worstStatus [a; b; c] = worstStatus [b; a; c] /\ worstStatus [a; b; c] = "FAILURE".
Proof.
  intros a b c. split; [ | reflexivity].
  apply worstStatus_order_independent. apply perm_swap.
Defined.

(** X6.  The aggregate status is one of those that fail the run (FAILURE,
    TIMEOUT, REVOKED) exactly when the status of some result is. *)
Theorem worstStatus_failing_iff_some_result (results : list FileResult) :
  failing (worstStatus results) = existsb (fun r => failing (status r)) results.
Proof. unfold worstStatus. now rewrite failing_fold. Qed.

(* ===================================================================== *)
(** * Further properties of the variable parser *)
(* ===================================================================== *)

Section ParserMore.

Import JsString.

Lemma put_keys (k v : string) (o : JsObject.t) (k' : string) :
  In k' (map fst (JsObject.put k v o)) -> k' = k \/ In k' (map fst o).
Proof.
  induction o as [ | [k0 v0] o IH]; cbn [JsObject.put map fst In].
  - intros [<- | []]. now left.
  - destruct (String.eqb_spec k0 k) as [-> | Hne]; cbn [map fst In].
    + intros [<- | H]; [now left | now right; right].
    + intros [<- | H]; [right; now left | ].
      destruct (IH H) as [-> | H']; [now left | right; now right].
Qed.

Lemma put_NoDup (k v : string) (o : JsObject.t) :
  NoDup (map fst o) -> NoDup (map fst (JsObject.put k v o)).
Proof.
  induction o as [ | [k0 v0] o IH]; cbn [JsObject.put map fst]; intros Hnd.
  - constructor; [intros [] | constructor].
  - inversion Hnd as [ | ? ? Hnotin Hnd']; subst.
    destruct (String.eqb_spec k0 k) as [-> | Hne]; cbn [map fst].
    + now constructor.
    + constructor; [ | now apply IH].
      intros Hin. destruct (put_keys _ _ _ _ Hin) as [-> | Hin']; [now elim Hne | now elim Hnotin].
Qed.

Lemma put_Forall (P : string * string -> Prop) (k v : string) (o : JsObject.t) :
  P (k, v) -> Forall P o -> Forall P (JsObject.put k v o).
Proof.
  intros Hkv. induction 1 as [ | [k0 v0] o Hx Ho IH]; cbn [JsObject.put].
  - now repeat constructor.
  - destruct (String.eqb k0 k); constructor; assumption.
Qed.

Lemma trimStart_head (s : string) (c : ascii) (t : string) :
  trimStart s = String c t -> is_ws c = false.
Proof.
  induction s as [ | a s IH]; cbn [trimStart]; [discriminate | ].
  destruct (is_ws a) eqn:Ha; [exact IH | ].
  intros H; injection H as <- _. exact Ha.
Qed.

Lemma trimEnd_head (s : string) (c : ascii) (t : string) :
  trimEnd s = String c t -> exists s', s = String c s'.
Proof.
  destruct s as [ | a s]; cbn [trimEnd]; [discriminate | ].
  destruct (all_ws (String a s)); [discriminate | ].
  intros H; injection H as <- _. now exists s.
Qed.

Lemma trim_head (s : string) (c : ascii) (t : string) :
  trim s = String c t -> is_ws c = false.
Proof.
  unfold trim. intros H. destruct (trimEnd_head _ _ _ H) as (s' & Hs').
  exact (trimStart_head _ _ _ Hs').
Qed.

Lemma mem_trimStart (c : ascii) (s : string) :
  mem c s = false -> mem c (trimStart s) = false.
Proof.
  induction s as [ | a s IH]; cbn [mem trimStart]; [reflexivity | ].
  intros H. apply orb_false_iff in H as [Ha Hs].
  destruct (is_ws a); [now apply IH | ]. cbn [mem]. now rewrite Ha, Hs.
Qed.

Lemma mem_trimEnd (c : ascii) (s : string) :
  mem c s = false -> mem c (trimEnd s) = false.
Proof.
  induction s as [ | a s IH]; cbn [mem trimEnd]; [reflexivity | ].
  intros H. apply orb_false_iff in H as [Ha Hs].
  destruct (all_ws (String a s)); [reflexivity | ]. cbn [mem]. now rewrite Ha, IH.
Qed.

Lemma mem_trim (c : ascii) (s : string) : mem c s = false -> mem c (trim s) = false.
Proof. intros H. unfold trim. now apply mem_trimEnd, mem_trimStart. Qed.

(** No piece of a split contains the separator. *)
Lemma split_pieces (c : ascii) (s : string) :
  Forall (fun p => mem c p = false) (split c s).
Proof.
  induction s as [ | a s IH]; [now repeat constructor | ].
  rewrite split_cons. destruct (Ascii.eqb a c) eqn:Ha.
  - now constructor.
  - rewrite (split_hd_tl c s) in IH. inversion IH as [ | ? ? Hh Ht]; subst.
    constructor; [ | exact Ht]. cbn [mem]. now rewrite Ha, Hh.
Qed.

Lemma parseLine_wellFormed (vars vars' : JsObject.t) (line : string) :
  parseLine vars line = Ok vars' ->
  NoDup (map fst vars) /\ Forall wellFormedVariable vars ->
  NoDup (map fst vars') /\ Forall wellFormedVariable vars'.
Proof.
  unfold parseLine.
  destruct (negb (truthy (trim line)) || startsWith (trim line) "#") eqn:Hskip.
  { intros H; injection H as <-. tauto. }
  pose proof (split_pieces "=" (trim line)) as Hpieces.
  destruct (trim line) as [ | a rest] eqn:Htrim; [discriminate Hskip | ].
  pose proof (trim_head _ _ _ Htrim) as Ha.
  rewrite split_cons in *. destruct (Ascii.eqb a "=") eqn:Heq.
  { cbn [truthy negb orb]. discriminate. }
  set (key := String a (hd EmptyString (split "=" rest))) in *.
  cbn [truthy negb orb key].
  destruct (Z.of_nat (List.length (tl (split "=" rest))) =? 0); [discriminate | ].
  intros H; injection H as <-. intros [Hnd Hall].
  unfold JsObject.set.
  destruct (String.eqb_spec (trim key) "__proto__") as [Hproto | Hproto]; [tauto | ].
  split; [now apply put_NoDup | ].
  apply put_Forall; [ | exact Hall].
  assert (Hkey : trim key = String a (trimEnd (hd EmptyString (split "=" rest)))).
  { unfold trim, key. cbn [trimStart]. rewrite Ha. cbn [trimEnd all_ws]. now rewrite Ha. }
  unfold wellFormedVariable; cbn [fst snd]. repeat split.
  - rewrite Hkey. discriminate.
  - apply trim_idem.
  - apply mem_trim. now inversion Hpieces.
  - exact Hproto.
  - apply trim_idem.
Qed.

Lemma parseLines_wellFormed (lines : list string) :
  forall vars vars',
    parseLines lines vars = Ok vars' ->
    NoDup (map fst vars) /\ Forall wellFormedVariable vars ->
    NoDup (map fst vars') /\ Forall wellFormedVariable vars'.
Proof.
  induction lines as [ | line lines IH]; intros vars vars'; cbn [parseLines].
  - intros H; injection H as <-. tauto.
  - destruct (parseLine vars line) as [vars1 | m] eqn:Hline; [ | discriminate].
    intros Hrest Hinv. apply (IH _ _ Hrest). exact (parseLine_wellFormed _ _ _ Hline Hinv).
Qed.

End ParserMore.

(** X7.  Every variable set the parser of [run] yields is well formed: no
    key is defined twice, no key is empty, contains [=], has white space at
    either end or is [__proto__], and no value has white space at either
    end. *)
Theorem parseChangesetVariables_well_formed (raw : string) (vars : JsObject.t) :
  parseChangesetVariables raw = Ok (Some vars) ->
  NoDup (map fst vars) /\ Forall wellFormedVariable vars.
Proof.
  unfold parseChangesetVariables.
  destruct (JsString.truthy raw && JsString.truthy (JsString.trim raw)); [ | discriminate].
  destruct (parseLines (JsString.split LF (JsString.trim raw)) []) as [vars' | m] eqn:Hlines;
    [ | discriminate].
  intros H; injection H as <-.
  apply (parseLines_wellFormed _ _ _ Hlines). split; constructor.
Qed.

Lemma parseChangesetVariables_well_formed_witness :
  let raw := (" HOST = a=b " ++ nl ++ "# note" ++ nl ++ "PORT=1" ++ nl ++ "HOST=c")%string in
  parseChangesetVariables raw = Ok (Some [("HOST", "c"); ("PORT", "1")]) /\
  NoDup (map fst [("HOST", "c"); ("PORT", "1")]) /\
  Forall wellFormedVariable [("HOST", "c"); ("PORT", "1")].
Proof.
  intros raw. split; [reflexivity | ].
  apply (parseChangesetVariables_well_formed raw). reflexivity.
Defined.

(* ===================================================================== *)
(** * Properties of the payload *)
(* ===================================================================== *)

Section Payload.

Import JsString.

Lemma mem_app (c : ascii) (a b : string) : mem c (a ++ b) = mem c a || mem c b.
Proof.
  induction a as [ | x a IH]; cbn [append mem]; [reflexivity | ].
  now rewrite IH, orb_assoc.
Qed.

Lemma mem_replaceAll (c x : ascii) (r s : string) :
  mem c r = false -> mem c s = false -> mem c (replaceAll x r s) = false.
Proof.
  intros Hr. induction s as [ | a s IH]; cbn [replaceAll mem]; [reflexivity | ].
  intros H. apply orb_false_iff in H as [Ha Hs]. rewrite mem_app, (IH Hs), orb_false_r.
  destruct (Ascii.eqb a x); [exact Hr | ]. cbn [mem]. now rewrite Ha.
Qed.

Lemma append_assoc (a b c : string) : (a ++ b) ++ c = a ++ (b ++ c).
Proof. induction a as [ | x a IH]; cbn [append]; [reflexivity | now rewrite IH]. Qed.

Lemma replaceAll_app (c : ascii) (r a b : string) :
  replaceAll c r (a ++ b) = replaceAll c r a ++ replaceAll c r b.
Proof.
  induction a as [ | x a IH]; cbn [append replaceAll]; [reflexivity | ].
  now rewrite IH, append_assoc.
Qed.

(** A text without the separator is one piece. *)
Lemma split_one (c : ascii) (s : string) : mem c s = false -> split c s = [s].
Proof.
  induction s as [ | a s IH]; cbn [mem]; [reflexivity | ].
  intros H. apply orb_false_iff in H as [Ha Hs].
  rewrite split_cons, Ha, (IH Hs). reflexivity.
Qed.

(** A first line. *)
Lemma split_first (c : ascii) (a b : string) :
  mem c a = false -> split c (a ++ String c b) = a :: split c b.
Proof.
  induction a as [ | x a IH]; cbn [mem append]; intros H.
  - rewrite split_cons, Ascii.eqb_refl. reflexivity.
  - apply orb_false_iff in H as [Hx Ha]. rewrite split_cons, Hx, (IH Ha). reflexivity.
Qed.

(** A last line. *)
Lemma split_last (c : ascii) (s a : string) :
  mem c a = false -> split c (s ++ String c a) = (split c s ++ [a])%list.
Proof.
  intros Ha. induction s as [ | x s IH]; cbn [append].
  - rewrite split_cons, Ascii.eqb_refl, (split_one _ _ Ha). reflexivity.
  - rewrite !split_cons, IH. destruct (Ascii.eqb x c); [reflexivity | ].
    rewrite (split_hd_tl c s). reflexivity.
Qed.

Lemma split_join (c : ascii) (parts : list string) :
  parts <> [] ->
  Forall (fun p => mem c p = false) parts ->
  split c (join (String c EmptyString) parts) = parts.
Proof.
  induction parts as [ | p parts IH]; [congruence | ].
  intros _ Hall. inversion Hall as [ | ? ? Hp Hparts]; subst.
  destruct parts as [ | q parts]; [now apply split_one | ].
  rewrite join_cons. cbn [append]. rewrite (split_first _ _ _ Hp), IH; [reflexivity | discriminate | exact Hparts].
Qed.

Lemma variableLine_singleLine (kv : string * string) :
  singleLine kv -> mem LF (variableLine kv) = false.
Proof.
  intros [Hk Hv]. unfold variableLine, escapeValue.
  rewrite !mem_app, Hk. cbn [mem].
  rewrite mem_replaceAll; [reflexivity | reflexivity | ].
  now apply mem_replaceAll.
Qed.

Lemma fold_variableLines (entries : list (string * string)) :
  Forall singleLine entries ->
  forall yaml,
    split LF (fold_left (fun yaml kv => yaml ++ nl ++ variableLine kv) entries yaml)
    = (split LF yaml ++ map variableLine entries)%list.
Proof.
  induction 1 as [ | kv entries Hkv _ IH]; intros yaml; cbn [fold_left map].
  - now rewrite app_nil_r.
  - rewrite IH. change (nl ++ variableLine kv) with (String LF (variableLine kv)).
    rewrite (split_last _ _ _ (variableLine_singleLine _ Hkv)), <- app_assoc. reflexivity.
Qed.

Lemma escapeValue_cons (c : ascii) (value : string) :
  escapeValue (String c value)
  = (if Ascii.eqb c backslash then String backslash (String backslash EmptyString)
     else if Ascii.eqb c dquote then String backslash (String dquote EmptyString)
          else String c EmptyString)
    ++ escapeValue value.
Proof.
  unfold escapeValue. cbn [replaceAll]. rewrite replaceAll_app.
  destruct (Ascii.eqb_spec c backslash) as [-> | Hc]; [reflexivity | ].
  cbn [replaceAll]. destruct (Ascii.eqb c dquote); reflexivity.
Qed.

End Payload.

(** X8.  The payload of the block-structured dialect, line by line: the
    line [changeset: |], then every line of the content behind two spaces,
    then, when there are variables, the line [variables:] and one line per
    variable in the order of [Object.entries].  This holds when no key and
    no value contains a line feed. *)
Theorem buildYamlPayload_lines (content : string) (variables : option JsObject.t) :
  Forall singleLine (variablesOf variables) ->
  JsString.split LF (buildYamlPayload content variables)
  = "changeset: |"
    :: List.app (map (fun line => "  " ++ line) (JsString.split LF content))
         match variablesOf variables with
         | [] => []
         | entries => "variables:" :: map variableLine entries
         end.
Proof.
  intros Hlines.
  assert (Hbase : JsString.split LF
                    ("changeset: |" ++ nl
                     ++ JsString.join nl
                          (map (fun line => "  " ++ line) (JsString.split LF content)))
                  = "changeset: |"
                    :: map (fun line => "  " ++ line) (JsString.split LF content)).
  { change ("changeset: |" ++ nl ++ ?x) with ("changeset: |" ++ String LF x).
    rewrite split_first by reflexivity. f_equal. apply split_join.
    - destruct (JsString.split LF content) eqn:H;
        [now elim (split_nonempty LF content) | discriminate].
    - apply Forall_map. eapply Forall_impl; [ | apply split_pieces].
      intros p Hp. rewrite mem_app, Hp. reflexivity. }
  unfold buildYamlPayload. cbv zeta.
  destruct variables as [vars | ]; cbn [variablesOf] in *;
    [ | rewrite Hbase, app_nil_r; reflexivity].
  unfold JsObject.keys. rewrite length_map.
  destruct (JsObject.entries vars) as [ | kv entries] eqn:Hentries.
  - cbn [List.length Z.of_nat]. cbn [Z.ltb Z.compare]. rewrite Hbase, app_nil_r. reflexivity.
  - replace (0 <? Z.of_nat (List.length (kv :: entries))) with true
      by (symmetry; apply Z.ltb_lt; cbn [List.length]; lia).
    rewrite (fold_variableLines _ Hlines).
    change (?y ++ nl ++ "variables:") with (y ++ String LF "variables:").
    rewrite split_last by reflexivity. rewrite Hbase. cbn [app]. f_equal.
    rewrite <- app_assoc. reflexivity.
Qed.

Lemma buildYamlPayload_lines_witness :
  let content := ("action: create" ++ nl ++ "  name: q")%string in
  let variables := Some [("HOST", "a\b"); ("7", "say " ++ String dquote "hi"); ("2", "x")] in
  Forall singleLine (variablesOf variables) /\
  JsString.split LF (buildYamlPayload content variables)
  = ["changeset: |"; "  action: create"; "    name: q"; "variables:";
     "  2: " ++ String dquote ("x" ++ String dquote EmptyString);
     "  7: " ++ String dquote ("say \" ++ String dquote ("hi" ++ String dquote EmptyString));
     "  HOST: " ++ String dquote ("a\\b" ++ String dquote EmptyString)].
Proof.
  intros content variables.
  assert (H : Forall singleLine (variablesOf variables)).
  { repeat constructor. }
  split; [exact H | ].
  exact (buildYamlPayload_lines content variables H).
Defined.

(** X9.  The quoting of a variable's value loses nothing: the first double
    quote of the written text that no backslash escapes is the closing one,
    and reading the text before it, with the code unit after each backslash
    taken as it is, gives the value back. *)
Theorem escapeValue_reads_back (value rest : string) :
  quoted (escapeValue value ++ String dquote rest) = Some (escapeValue value) /\
  unescape (escapeValue value) = value.
Proof.
  induction value as [ | c value [IHq IHu]]; [split; reflexivity | ].
  rewrite escapeValue_cons.
  destruct (Ascii.eqb_spec c backslash) as [-> | Hb].
  - cbn [append quoted unescape]. rewrite IHq, IHu. split; reflexivity.
  - destruct (Ascii.eqb_spec c dquote) as [-> | Hq].
    + cbn [append quoted unescape]. rewrite IHq, IHu. split; reflexivity.
    + cbn [append quoted unescape].
      apply Ascii.eqb_neq in Hb, Hq. rewrite Hb, Hq, IHq, IHu. split; reflexivity.
Qed.

(* ===================================================================== *)
(** * Further properties of file resolution and of the file format *)
(* ===================================================================== *)

Section ResolutionMore.

Import JsString.

Lemma required_all_ws (s : string) :
  negb (truthy s) || String.eqb (trim s) EmptyString = all_ws s.
Proof.
  destruct s as [ | c s]; [reflexivity | ]. cbn [truthy negb orb].
  destruct (String.eqb_spec (trim (String c s)) EmptyString) as [E | E].
  - symmetry. now apply trim_empty.
  - destruct (all_ws (String c s)) eqn:Hws; [ | reflexivity].
    elim E. now apply trim_empty.
Qed.

Lemma length_zero {A : Type} (l : list A) :
  (Z.of_nat (List.length l) =? 0) = match l with [] => true | _ => false end.
Proof. destruct l; [reflexivity | ]. apply Z.eqb_neq. cbn [List.length]. lia. Qed.

Lemma isGlobPattern_replaceAll (s : string) :
  isGlobPattern (replaceAll backslash "/" s) = isGlobPattern s.
Proof.
  induction s as [ | c s IH]; [reflexivity | ]. cbn [replaceAll].
  destruct (Ascii.eqb_spec c backslash) as [-> | Hc]; cbn [append isGlobPattern];
    now rewrite IH.
Qed.

Lemma lastDot_none (s : string) : mem "." s = false -> Path.lastDot s = None.
Proof.
  induction s as [ | c s IH]; cbn [mem Path.lastDot]; [reflexivity | ].
  intros H. apply orb_false_iff in H as [Hc Hs]. now rewrite (IH Hs), Hc.
Qed.

Lemma lastDot_extension (stem ext : string) :
  mem "." ext = false ->
  Path.lastDot (stem ++ String "." ext) = Some (String.length stem, String "." ext).
Proof.
  intros Hext. induction stem as [ | c stem IH]; cbn [append String.length].
  - cbn [Path.lastDot]. now rewrite (lastDot_none _ Hext).
  - cbn [Path.lastDot]. fold Path.lastDot. now rewrite IH.
Qed.

Lemma fold_left_last {A B : Type} (f : A -> B -> A) (l : list B) (x : B) (init : A) :
  fold_left f (l ++ [x]) init = f (fold_left f l init) x.
Proof. now rewrite fold_left_app. Qed.

(** The base name of a path that ends in a name. *)
Lemma basename_name (dir name : string) :
  name <> EmptyString -> mem "/" name = false ->
  Path.basename (dir ++ String "/" name) = name.
Proof.
  intros Hname Hslash. unfold Path.basename.
  rewrite (split_last _ _ _ Hslash), fold_left_last.
  destruct name; [now elim Hname | reflexivity].
Qed.

End ResolutionMore.

(** X10.  What [resolveFiles] answers, in full: a list that is never empty
    (as many paths as the pattern has matches, one for a literal path) for an
    input that is not blank, or one of three errors: the input is blank; the
    pattern, quoted as given, matches nothing; the literal path, quoted as
    resolved, does not exist. *)
Theorem resolveFiles_outcomes (P : Platform) (changesetFile : string) :
  match resolveFiles P changesetFile with
  | Ok filePaths =>
      filePaths <> [] /\
      JsString.all_ws changesetFile = false /\
      List.length filePaths
      = (if isGlobPattern changesetFile then List.length (matchesOf P changesetFile)
         else 1%nat)
  | Throw message =>
      (JsString.all_ws changesetFile = true /\ message = "changeset_file is required") \/
      (JsString.all_ws changesetFile = false /\ isGlobPattern changesetFile = true /\
       matchesOf P changesetFile = [] /\
       message = "No files matched the pattern: " ++ changesetFile) \/
      (JsString.all_ws changesetFile = false /\ isGlobPattern changesetFile = false /\
       existsSync P (path_resolve P changesetFile) = false /\
       message = "Changeset file not found: " ++ path_resolve P changesetFile)
  end.
Proof.
  unfold resolveFiles. rewrite required_all_ws.
  destruct (JsString.all_ws changesetFile); [now left | ].
  destruct (isGlobPattern changesetFile).
  - fold (matchesOf P changesetFile). rewrite length_zero.
    destruct (matchesOf P changesetFile) as [ | m ms] eqn:Hm.
    + right; left. now repeat split.
    + assert (Hlen : List.length (sort (byBasename P) (map (path_resolve P) (m :: ms)))
                     = List.length (m :: ms)).
      { rewrite (Permutation_length (sort_perm _ _)). apply length_map. }
      repeat split; [ | exact Hlen].
      intros Hnil. rewrite Hnil in Hlen. discriminate Hlen.
  - destruct (existsSync P (path_resolve P changesetFile)); cbn [negb].
    + repeat split. discriminate.
    + right; right. now repeat split.
Qed.

(** X11.  In a glob pattern the two separators are the same: patterns that
    differ only in backslashes for slashes resolve to the same files, and
    fail together. *)
Theorem resolveFiles_separators (P : Platform) (pattern pattern' : string) :
  isGlobPattern pattern = true ->
  JsString.replaceAll backslash "/" pattern = JsString.replaceAll backslash "/" pattern' ->
  match resolveFiles P pattern, resolveFiles P pattern' with
  | Ok filePaths, Ok filePaths' => filePaths = filePaths'
  | Throw message, Throw message' =>
      message = "No files matched the pattern: " ++ pattern /\
      message' = "No files matched the pattern: " ++ pattern'
  | _, _ => False
  end.
Proof.
  intros Hglob Hsame.
  assert (Hglob' : isGlobPattern pattern' = true).
  { now rewrite <- isGlobPattern_replaceAll, <- Hsame, isGlobPattern_replaceAll. }
  unfold resolveFiles.
  rewrite (isGlobPattern_required _ Hglob), (isGlobPattern_required _ Hglob'), Hglob, Hglob'.
  rewrite <- Hsame.
  destruct (Z.of_nat (List.length (globSync P (JsString.replaceAll backslash "/" pattern)))
            =? 0); [split; reflexivity | reflexivity].
Qed.

Lemma resolveFiles_separators_witness :
  let pattern := "changesets\*.yaml" in
  let pattern' := "changesets/*.yaml" in
  match resolveFiles examplePlatform pattern, resolveFiles examplePlatform pattern' with
  | Ok filePaths, Ok filePaths' => filePaths = filePaths'
  | Throw message, Throw message' =>
      message = "No files matched the pattern: " ++ pattern /\
      message' = "No files matched the pattern: " ++ pattern'
  | _, _ => False
  end.
Proof.
  intros pattern pattern'.
  exact (resolveFiles_separators examplePlatform pattern pattern' eq_refl eq_refl).
Defined.

(** X12.  The format of a file is decided by what follows the last dot of
    its base name, without regard to case: [json] gives the JSON dialect,
    anything else the block-structured one.  The directory plays no role. *)
Theorem getFileFormat_by_extension (dir stem ext : string) :
  stem <> EmptyString ->
  JsString.mem "/" stem = false ->
  JsString.mem "/" ext = false ->
  JsString.mem "." ext = false ->
  getFileFormat (dir ++ "/" ++ stem ++ "." ++ ext)
  = if String.eqb (JsString.toLowerCase ext) "json" then FormatJson else FormatYaml.
Proof.
  intros Hstem Hs Hse Hde.
  assert (Hbase : Path.basename (dir ++ "/" ++ stem ++ "." ++ ext) = stem ++ "." ++ ext).
  { change (dir ++ "/" ++ ?x) with (dir ++ String "/" x). apply basename_name.
    - destruct stem; [now elim Hstem | discriminate].
    - rewrite mem_app, Hs. cbn [append JsString.mem orb]. exact Hse. }
  unfold getFileFormat, Path.extname. rewrite Hbase.
  change (stem ++ "." ++ ext) with (stem ++ String "." ext).
  rewrite (lastDot_extension _ _ Hde).
  destruct stem as [ | c stem]; [now elim Hstem | ]. cbn [String.length].
  destruct (String.eqb_spec (String c stem ++ String "." ext) "..") as [Hdots | _].
  - destruct stem as [ | c' stem]; cbn [append] in Hdots.
    + inversion Hdots; subst. reflexivity.
    + inversion Hdots as [[Hc Hc' Hrest]]. destruct stem; discriminate Hrest.
  - cbn [JsString.toLowerCase]. reflexivity.
Qed.

Lemma getFileFormat_by_extension_witness :
  getFileFormat "/repo/changesets/01_users.v2.JSON" = FormatJson /\
  getFileFormat "/repo/changes.json/02_queues.yml" = FormatYaml.
Proof.
  split.
  - apply (getFileFormat_by_extension "/repo/changesets" "01_users.v2" "JSON");
      [discriminate | reflexivity | reflexivity | reflexivity].
  - apply (getFileFormat_by_extension "/repo/changes.json" "02_queues" "yml");
      [discriminate | reflexivity | reflexivity | reflexivity].
Defined.

(** X13.  A base name without a dot, and a base name whose only dot is its
    first code unit, have the block-structured format: [Makefile] and
    [.json] are not JSON files. *)
Theorem getFileFormat_without_extension (dir name : string) :
  name <> EmptyString ->
  JsString.mem "/" name = false ->
  JsString.mem "." name = false ->
  getFileFormat (dir ++ "/" ++ name) = FormatYaml /\
  getFileFormat (dir ++ "/." ++ name) = FormatYaml.
Proof.
  intros Hname Hslash Hdot. unfold getFileFormat, Path.extname. split.
  - change (dir ++ "/" ++ name) with (dir ++ String "/" name).
    rewrite (basename_name _ _ Hname Hslash), (lastDot_none _ Hdot). reflexivity.
  - change (dir ++ "/." ++ name) with (dir ++ String "/" (String "." name)).
    rewrite basename_name; [ | discriminate | cbn [JsString.mem]; now rewrite Hslash].
    change (String "." name) with (EmptyString ++ String "." name).
    rewrite (lastDot_extension _ _ Hdot). reflexivity.
Qed.

Lemma getFileFormat_without_extension_witness :
  getFileFormat "/repo/changesets/json" = FormatYaml /\
  getFileFormat "/repo/changesets/.json" = FormatYaml.
Proof.
  apply (getFileFormat_without_extension "/repo/changesets" "json");
    [discriminate | reflexivity | reflexivity].
Defined.

(* ===================================================================== *)
(** * Further properties of the operations *)
(* ===================================================================== *)

Section Submission.

Variable P : Platform.
Variable endpoint : Format -> string.
Variables failedMessage extractMessage variable emptyMessage : string.

Lemma checkTaskId_ok (taskId : jsval) (s : string) :
  checkTaskId variable emptyMessage taskId = Ok s ->
  taskId = Some (JStr s) /\ JsString.all_ws s = false.
Proof.
  unfold checkTaskId. destruct (negb (truthy taskId)); [discriminate | ].
  destruct taskId as [[ | b | n | s' | items | fields] | ]; try discriminate.
  destruct (String.eqb_spec (JsString.trim s') EmptyString) as [E | E]; [discriminate | ].
  intros H; injection H as <-. split; [reflexivity | ].
  destruct (JsString.all_ws s') eqn:Hws; [ | reflexivity].
  elim E. now apply trim_empty.
Qed.

(** A submission that is not accepted throws after its one request. *)
Lemma submit_refused (filePath content : string) (o : Options) (w : World) :
  readFileSync P filePath = Ok content ->
  acceptedTaskId (net w (fetched w)) = None ->
  exists message w',
    submit P endpoint failedMessage extractMessage variable emptyMessage filePath o w
    = (Throw message, w') /\
    requests (trace w') = S (requests (trace w)) /\
    slept (trace w') = slept (trace w).
Proof.
  intros Hread Hrefused.
  assert (Hone : forall req,
             requests (trace (snd (fetch req w))) = S (requests (trace w)) /\
             slept (trace (snd (fetch req w))) = slept (trace w)).
  { intros req. split; [apply requests_fetch | ].
    unfold fetch; cbn [snd trace]. rewrite slept_app. cbn [slept fold_right]. lia. }
  unfold submit, bind, lift, await_fetch. rewrite Hread. cbv zeta.
  match goal with
  | |- context [fetch ?r w] => set (req := r)
  end.
  change (fst (fetch req w)) with (net w (fetched w)).
  unfold acceptedTaskId in Hrefused.
  destruct (net w (fetched w)) as [response | m].
  - destruct (ok response); cbn [negb].
    + destruct (body_json response) as [data | m]; [ | eexists; eexists; split; [reflexivity | apply Hone]].
      destruct (readTaskId data) as [taskId | m];
        [ | eexists; eexists; split; [reflexivity | apply Hone]].
      destruct (checkTaskId variable emptyMessage taskId) as [s | m] eqn:Hcheck;
        [ | eexists; eexists; split; [reflexivity | apply Hone]].
      destruct (checkTaskId_ok _ _ Hcheck) as [-> Hws]. rewrite Hws in Hrefused. discriminate.
    + destruct (text response) as [errorBody | m];
        eexists; eexists; (split; [reflexivity | apply Hone]).
  - unfold log, throw. eexists; eexists; split; [reflexivity | ].
    rewrite requests_emit. cbn [isFetch]. rewrite Nat.add_0_r.
    unfold emit; cbn [trace]. rewrite slept_app. cbn [slept fold_right].
    destruct (Hone req) as [-> ->]. split; [reflexivity | lia].
Qed.

(** A submission that cannot be sent. *)
Lemma submit_unreachable (filePath content : string) (o : Options) (w : World)
    (message : string) :
  readFileSync P filePath = Ok content ->
  net w (fetched w) = Throw message ->
  let req := submission P endpoint filePath content o in
  submit P endpoint failedMessage extractMessage variable emptyMessage filePath o w
  = (Throw ("Failed to connect to InProd API at " ++ url req ++ ": " ++ message),
     emit (Error ("Network error connecting to InProd API: " ++ message))
       (snd (fetch req w))).
Proof.
  intros Hread Hnet req.
  unfold submit, bind, lift, await_fetch. rewrite Hread. cbv zeta.
  fold (submission P endpoint filePath content o). fold req.
  change (fst (fetch req w)) with (net w (fetched w)). rewrite Hnet. reflexivity.
Qed.


End Submission.

(** X14.  What [validateFile] returns is a verdict: SUCCESS without an
    error, and then the result of the task says [is_valid]; or FAILURE,
    REVOKED or TIMEOUT with a message.  Nothing else is returned. *)
Theorem validateFile_verdict
    (P : Platform) (filePath : string) (o : Options) (w : World) (v : OpResult) :
  fst (validateFile P filePath o w) = Ok v ->
  verdict v /\
  (op_status v = "SUCCESS" -> truthy (prop (op_result v) "is_valid") = true).
Proof.
  unfold validateFile, bind, log.
  destruct (submit P validateEndpoint _ _ _ _ filePath o _) as [[id | m] w1];
    [ | discriminate].
  destruct (pollTask (baseUrl o) (apiKey o) id (pollingTimeoutSeconds o) w1)
    as [[outcome | m] w2]; [ | discriminate].
  unfold verdict. destruct outcome as [result | e | | ]; cbn [fst].
  - destruct (truthy (prop result "is_valid")) eqn:Hvalid; cbn [negb fst ret];
      intros H; injection H as <-; cbn [op_status op_error op_result truthyError JsString.truthy].
    + split; [left; now split | now intros _].
    + split; [right; split; [now left | reflexivity] | discriminate].
  - intros H; injection H as <-; cbn [op_status op_error truthyError append JsString.truthy].
    split; [right; split; [now left | reflexivity] | discriminate].
  - intros H; injection H as <-; cbn [op_status op_error truthyError JsString.truthy].
    split; [right; split; [right; now left | reflexivity] | discriminate].
  - intros H; injection H as <-; cbn [op_status op_error truthyError append JsString.truthy].
    split; [right; split; [right; now right | reflexivity] | discriminate].
Qed.

Lemma validateFile_verdict_witness :
  let w := freshWorld (script [taskReply "v-01"; okResponse (statusBody "PENDING");
                               invalidReply]) in
  let v := {| op_taskId := None; op_status := "FAILURE";
              op_result := JObj [("is_valid", JBool false)];
              op_error := Some "Changeset validation failed. See validation errors above." |} in
  fst (validateFile examplePlatform "/repo/changesets/01_users.json" exampleOptions w) = Ok v /\
  verdict v /\
  (op_status v = "SUCCESS" -> truthy (prop (op_result v) "is_valid") = true).
Proof.
  intros w v.
  assert (H : fst (validateFile examplePlatform "/repo/changesets/01_users.json"
                     exampleOptions w) = Ok v) by (vm_compute; reflexivity).
  split; [exact H | ].
  exact (validateFile_verdict examplePlatform _ exampleOptions w v H).
Defined.

(** X15.  What [executeFile] returns is a verdict too, and only a SUCCESS
    carries a result: FAILURE, REVOKED and TIMEOUT come with the empty
    object. *)
Theorem executeFile_verdict
    (P : Platform) (filePath : string) (o : Options) (w : World) (v : OpResult) :
  fst (executeFile P filePath o w) = Ok v ->
  verdict v /\
  (op_status v <> "SUCCESS" -> op_result v = emptyObject) /\
  op_taskId v = None.
Proof.
  unfold executeFile, bind, log.
  destruct (submit P executeEndpoint _ _ _ _ filePath o _) as [[id | m] w1];
    [ | discriminate].
  destruct (pollTask (baseUrl o) (apiKey o) id (pollingTimeoutSeconds o) w1)
    as [[outcome | m] w2]; [ | discriminate].
  unfold verdict. destruct outcome as [result | e | | ]; cbn [fst ret];
    intros H; injection H as <-;
    cbn [op_status op_error op_result op_taskId truthyError append JsString.truthy].
  - split; [left; now split | split; [intros Hne; now elim Hne | reflexivity]].
  - split; [right; split; [now left | reflexivity] | now split].
  - split; [right; split; [right; now left | reflexivity] | now split].
  - split; [right; split; [right; now right | reflexivity] | now split].
Qed.

Lemma executeFile_verdict_witness :
  let w := freshWorld (script [taskReply "e-01";
                               okResponse (JObj [("status", JStr "FAILURE");
                                                 ("error", JStr "queue exists")])]) in
  let v := {| op_taskId := None; op_status := "FAILURE"; op_result := emptyObject;
              op_error := Some "Changeset execution failed: queue exists" |} in
  fst (executeFile examplePlatform "/repo/changesets/02_queues.yaml" exampleOptions w) = Ok v /\
  verdict v /\
  (op_status v <> "SUCCESS" -> op_result v = emptyObject) /\
  op_taskId v = None.
Proof.
  intros w v.
  assert (H : fst (executeFile examplePlatform "/repo/changesets/02_queues.yaml"
                     exampleOptions w) = Ok v) by (vm_compute; reflexivity).
  split; [exact H | ].
  exact (executeFile_verdict examplePlatform _ exampleOptions w v H).
Defined.

(** X16.  A submission that is not accepted is never polled for: when the
    reply to the submission is not an ok response with a task id that is a
    non-blank string, [validateFile] and [executeFile] throw after that one
    request, without a sleep. *)
Theorem refused_submission_never_polled
    (P : Platform) (filePath content : string) (o : Options) (w : World) :
  readFileSync P filePath = Ok content ->
  acceptedTaskId (net w (fetched w)) = None ->
  (exists message w',
     validateFile P filePath o w = (Throw message, w') /\
     requests (trace w') = S (requests (trace w)) /\
     slept (trace w') = slept (trace w)) /\
  (exists message w',
     executeFile P filePath o w = (Throw message, w') /\
     requests (trace w') = S (requests (trace w)) /\
     slept (trace w') = slept (trace w)).
Proof.
  intros Hread Hrefused.
  assert (Hmark : forall e,
             requests (trace (emit e w))
             = (requests (trace w) + if isFetch e then 1 else 0)%nat /\
             slept (trace (emit e w)) = slept (trace w) + slept [e]).
  { intros e. split; [apply requests_emit | ].
    unfold emit; cbn [trace]. apply slept_app. }
  split.
  - destruct (submit_refused P validateEndpoint
                "Validation request failed with status "
                "Failed to extract task_id from validation response. Response: "
                "validateTaskId" "Validation API returned an empty task_id"
                filePath content o (emit (CallValidate filePath) w) Hread Hrefused)
      as (message & w' & Hsubmit & Hr & Hs).
    exists message, w'. unfold validateFile, bind, log. rewrite Hsubmit.
    destruct (Hmark (CallValidate filePath)) as [Hr' Hs']. rewrite Hr, Hs, Hr', Hs'.
    cbn [isFetch slept fold_right]. repeat split; lia.
  - destruct (submit_refused P executeEndpoint
                "API request failed with status "
                "Failed to extract task_id from API response. Response: "
                "taskId" "API returned an empty task_id"
                filePath content o (emit (CallExecute filePath) w) Hread Hrefused)
      as (message & w' & Hsubmit & Hr & Hs).
    exists message, w'. unfold executeFile, bind, log. rewrite Hsubmit.
    destruct (Hmark (CallExecute filePath)) as [Hr' Hs']. rewrite Hr, Hs, Hr', Hs'.
    cbn [isFetch slept fold_right]. repeat split; lia.
Qed.

Lemma refused_submission_never_polled_witness :
  let blank := okResponse (JObj [("data", JObj [("attributes", JObj [("task_id", JStr "  ")])])]) in
  let w := freshWorld (script [blank; validReply]) in
  (exists message w',
     validateFile examplePlatform "/repo/changesets/01_users.json" exampleOptions w
     = (Throw message, w') /\
     requests (trace w') = S (requests (trace w)) /\
     slept (trace w') = slept (trace w)) /\
  (exists message w',
     executeFile examplePlatform "/repo/changesets/01_users.json" exampleOptions w
     = (Throw message, w') /\
     requests (trace w') = S (requests (trace w)) /\
     slept (trace w') = slept (trace w)).
Proof.
  intros blank w.
  exact (refused_submission_never_polled examplePlatform "/repo/changesets/01_users.json"
           _ exampleOptions w eq_refl eq_refl).
Defined.

(** X17.  When the submission cannot be sent, the operation logs the
    network error and throws [Failed to connect to InProd API at <url>:
    <message>], the URL being the one the file was submitted to. *)
Theorem unreachable_api_throws
    (P : Platform) (filePath content : string) (o : Options) (w : World)
    (message : string) :
  readFileSync P filePath = Ok content ->
  net w (fetched w) = Throw message ->
  let validation := submission P validateEndpoint filePath content o in
  let execution := submission P executeEndpoint filePath content o in
  let networkError := Error ("Network error connecting to InProd API: " ++ message) in
  (exists w',
     validateFile P filePath o w
     = (Throw ("Failed to connect to InProd API at " ++ url validation ++ ": " ++ message),
        w') /\
     trace w' = (trace w ++ [CallValidate filePath; Fetch validation; networkError])%list) /\
  (exists w',
     executeFile P filePath o w
     = (Throw ("Failed to connect to InProd API at " ++ url execution ++ ": " ++ message),
        w') /\
     trace w' = (trace w ++ [CallExecute filePath; Fetch execution; networkError])%list).
Proof.
  intros Hread Hnet validation execution networkError. split.
  - unfold validateFile, bind, log.
    rewrite (submit_unreachable P validateEndpoint _ _ _ _ filePath content o
               (emit (CallValidate filePath) w) message Hread Hnet).
    eexists; split; [reflexivity | ].
    unfold emit, fetch; cbn [snd trace]. now rewrite <- !app_assoc.
  - unfold executeFile, bind, log.
    rewrite (submit_unreachable P executeEndpoint _ _ _ _ filePath content o
               (emit (CallExecute filePath) w) message Hread Hnet).
    eexists; split; [reflexivity | ].
    unfold emit, fetch; cbn [snd trace]. now rewrite <- !app_assoc.
Qed.

Lemma unreachable_api_throws_witness :
  let w := freshWorld (script []) in
  fst (validateFile examplePlatform "changesets/01_users.json" exampleOptions w)
  = Throw ("Failed to connect to InProd API at "
           ++ "https://inprod.example/api/v1/change-set/change-set/validate_json/"
           ++ "?environment=prod: fetch failed") /\
  fst (executeFile examplePlatform "changesets/02_queues.yaml" exampleOptions w)
  = Throw ("Failed to connect to InProd API at "
           ++ "https://inprod.example/api/v1/change-set/change-set/execute_yaml/"
           ++ "?environment=prod: fetch failed").
Proof.
  intros w. split.
  - destruct (proj1 (unreachable_api_throws examplePlatform "changesets/01_users.json"
                       _ exampleOptions w "fetch failed" eq_refl eq_refl))
      as (w' & Hrun & _).
    rewrite Hrun. reflexivity.
  - destruct (proj2 (unreachable_api_throws examplePlatform "changesets/02_queues.yaml"
                       _ exampleOptions w "fetch failed" eq_refl eq_refl))
      as (w' & Hrun & _).
    rewrite Hrun. reflexivity.
Defined.



(** X19.  A file that cannot be read is never submitted: the error of the
    read is thrown before any request. *)
Theorem unreadable_file_not_submitted
    (P : Platform) (filePath : string) (o : Options) (w : World) (message : string) :
  readFileSync P filePath = Throw message ->
  validateFile P filePath o w = (Throw message, emit (CallValidate filePath) w) /\
  executeFile P filePath o w = (Throw message, emit (CallExecute filePath) w).
Proof.
  intros Hread.
  unfold validateFile, executeFile, submit, bind, log, lift. rewrite Hread. now split.
Qed.

Lemma unreadable_file_not_submitted_witness :
  let message := "EACCES: permission denied, open '/repo/changesets/01_users.json'" in
  let w := freshWorld (script [taskReply "v-01"; validReply]) in
  validateFile unreadablePlatform "/repo/changesets/01_users.json" exampleOptions w
  = (Throw message, emit (CallValidate "/repo/changesets/01_users.json") w) /\
  executeFile unreadablePlatform "/repo/changesets/01_users.json" exampleOptions w
  = (Throw message, emit (CallExecute "/repo/changesets/01_users.json") w).
Proof.
  intros message w.
  exact (unreadable_file_not_submitted unreadablePlatform "/repo/changesets/01_users.json"
           exampleOptions w message eq_refl).
Defined.

(* ===================================================================== *)
(** * The requests of a run *)
(* ===================================================================== *)

Section Authorization.

Variable P : Platform.

Lemma prefix_append (p s : string) : String.prefix p (p ++ s) = true.
Proof.
  induction p as [ | a p IH]; cbn; [now destruct s | ].
  destruct (Ascii.ascii_dec a a) as [_ | F]; [exact IH | now elim F].
Qed.

Lemma startsWith_api (base rest : string) :
  JsString.startsWith (base ++ "/api/v1/" ++ rest) (base ++ "/api/v1/") = true.
Proof.
  unfold JsString.startsWith. rewrite <- append_assoc. apply prefix_append.
Qed.

Lemma authorized_poll (o : Options) (taskId : string) :
  authorized o (Fetch (pollRequest (baseUrl o) (apiKey o) taskId)) = true.
Proof.
  unfold authorized, pollRequest; cbn [authorization url].
  rewrite String.eqb_refl.
  exact (startsWith_api (baseUrl o) ("task-status/" ++ taskId ++ "/")).
Qed.

Lemma authorized_submit (endpoint : Format -> string) (filePath content : string)
    (o : Options) :
  (forall format, exists rest, endpoint format = "/api/v1/" ++ rest) ->
  authorized o (Fetch (submission P endpoint filePath content o)) = true.
Proof.
  intros Hendpoint. unfold authorized, submission, buildUrl; cbn [authorization url].
  rewrite String.eqb_refl. destruct (Hendpoint (getFileFormat filePath)) as (rest & ->).
  cbn [andb]. rewrite (append_assoc "/api/v1/" rest). apply startsWith_api.
Qed.

Lemma authorized_same (o o' : Options) (e : Event) :
  apiKey o' = apiKey o -> baseUrl o' = baseUrl o -> authorized o' e = authorized o e.
Proof. intros Hk Hb. unfold authorized. now rewrite Hk, Hb. Qed.

(** The loop of [pollTask] adds sleeps, its request and warnings. *)
Lemma only_pollLoop_request (q : Event -> bool) (req : Request) (timeout : Z) (n : nat) :
  (forall e, isFetch e = false -> quiet e = true -> q e = true) ->
  q (Fetch req) = true ->
  forall elapsed, pollsLeft timeout elapsed = n -> only q (pollLoop req timeout elapsed).
Proof.
  intros Hquiet Hreq.
  induction n as [ | n IH]; intros elapsed Hleft w; rewrite pollLoop_turn;
    destruct (Z.ltb_spec elapsed timeout) as [Hlt | Hge];
    try (exists []; now rewrite app_nil_r).
  - rewrite (pollsLeft_succ _ _ Hlt) in Hleft. discriminate.
  - rewrite (pollsLeft_succ _ _ Hlt) in Hleft. injection Hleft as Hleft.
    cbv zeta. set (sleep := Sleep (pollInterval * 1000)).
    assert (Hsleep : q sleep = true) by (now apply Hquiet).
    destruct (pollAttempt (fst (fetch req (emit sleep w)))) as [[outcome | ] | message].
    + exists [sleep; Fetch req]. cbn. rewrite Hsleep, Hreq. now rewrite <- app_assoc.
    + destruct (IH _ Hleft (snd (fetch req (emit sleep w)))) as (evs & Ht & Hq).
      exists (sleep :: Fetch req :: evs). rewrite Ht. cbn.
      rewrite Hsleep, Hreq, Hq. now rewrite <- !app_assoc.
    + destruct (rethrown message).
      * exists [sleep; Fetch req]. cbn. rewrite Hsleep, Hreq. now rewrite <- app_assoc.
      * destruct (IH _ Hleft (emit (Warning (retryWarning message))
                                (snd (fetch req (emit sleep w))))) as (evs & Ht & Hq).
        exists (sleep :: Fetch req :: Warning (retryWarning message) :: evs).
        rewrite Ht. cbn. rewrite Hsleep, Hreq, Hq, (Hquiet (Warning _)) by reflexivity.
        now rewrite <- !app_assoc.
Qed.

Lemma authorized_quiet (o : Options) (e : Event) :
  isFetch e = false -> quiet e = true -> authorized o e = true.
Proof. now destruct e. Qed.

Lemma only_pollTask_authorized (o : Options) (taskId : string) :
  only (authorized o)
    (pollTask (baseUrl o) (apiKey o) taskId (pollingTimeoutSeconds o)).
Proof.
  unfold pollTask.
  apply (only_pollLoop_request _ _ _ (pollsLeft (pollingTimeoutSeconds o) 0));
    [apply authorized_quiet | apply authorized_poll | reflexivity].
Qed.

Lemma only_submit_authorized (endpoint : Format -> string) (m1 m2 m3 m4 filePath : string)
    (o : Options) :
  (forall format, exists rest, endpoint format = "/api/v1/" ++ rest) ->
  only (authorized o) (submit P endpoint m1 m2 m3 m4 filePath o).
Proof.
  intros Hendpoint. unfold submit.
  apply only_bind; [apply only_lift | intros content].
  apply only_bind.
  - apply only_fetch. exact (authorized_submit endpoint filePath content o Hendpoint).
  - intros reply. quiet_steps.
Qed.

Lemma validateEndpoint_api (format : Format) :
  exists rest, validateEndpoint format = "/api/v1/" ++ rest.
Proof. destruct format; eexists; reflexivity. Qed.

Lemma executeEndpoint_api (format : Format) :
  exists rest, executeEndpoint format = "/api/v1/" ++ rest.
Proof. destruct format; eexists; reflexivity. Qed.

Lemma only_validateFile_authorized (filePath : string) (o : Options) :
  only (authorized o) (validateFile P filePath o).
Proof.
  unfold validateFile.
  apply only_bind; [now apply only_log | intros _].
  apply only_bind; [apply only_submit_authorized, validateEndpoint_api | intros id].
  apply only_bind; [apply only_pollTask_authorized | intros outcome].
  quiet_steps.
Qed.

Lemma only_executeFile_authorized (filePath : string) (o : Options) :
  only (authorized o) (executeFile P filePath o).
Proof.
  unfold executeFile.
  apply only_bind; [now apply only_log | intros _].
  apply only_bind; [apply only_submit_authorized, executeEndpoint_api | intros id].
  apply only_bind; [apply only_pollTask_authorized | intros outcome].
  quiet_steps.
Qed.

Lemma only_processSingleFile_authorized (filePath : string) (o : Options) :
  only (authorized o) (processSingleFile P filePath o).
Proof.
  assert (Hexec : only (authorized o) (executeStep P filePath o)).
  { unfold executeStep. apply only_bind; [apply only_executeFile_authorized | intros r].
    destruct (truthyError (op_error r)); apply only_ret. }
  unfold processSingleFile.
  destruct (validateOnly o || validateBeforeExecute o); [ | exact Hexec].
  apply only_bind; [apply only_validateFile_authorized | intros v].
  destruct (negb (String.eqb (op_status v) "SUCCESS")); [apply only_ret | ].
  destruct (validateOnly o); [apply only_ret | exact Hexec].
Qed.

Lemma only_processAll_authorized (o o' : Options) (ff : bool) :
  apiKey o' = apiKey o -> baseUrl o' = baseUrl o ->
  forall filePaths results, only (authorized o) (processAll P o' ff filePaths results).
Proof.
  intros Hk Hb filePaths.
  assert (Hone : forall f, only (authorized o) (processSingleFile P f o')).
  { intros f. eapply only_weaken; [ | apply only_processSingleFile_authorized].
    intros e. now rewrite (authorized_same o o' e Hk Hb). }
  induction filePaths as [ | f rest IH]; intros results; cbn [processAll];
    [apply only_ret | ].
  apply only_bind; [apply only_attempt, Hone | intros [r | message]].
  - destruct (truthyError (error r) && ff); [ | apply IH].
    apply only_bind; [now apply only_log | intros _; apply only_ret].
  - destruct ff; [ | apply IH].
    apply only_bind; [now apply only_log | intros _; apply only_ret].
Qed.

Lemma only_validateAll_authorized (o : Options) (ff : bool) :
  forall filePaths results, only (authorized o) (validateAll P o ff filePaths results).
Proof.
  intros filePaths.
  induction filePaths as [ | f rest IH]; intros results; cbn [validateAll];
    [apply only_ret | ].
  apply only_bind; [apply only_attempt, only_validateFile_authorized | intros [v | message]].
  - destruct (negb (String.eqb (op_status v) "SUCCESS")); [ | apply IH].
    destruct ff; [ | apply IH].
    apply only_bind; [now apply only_log | intros _; apply only_ret].
  - destruct ff; [ | apply IH].
    apply only_bind; [now apply only_log | intros _; apply only_ret].
Qed.

Lemma only_orchestrate_authorized (c : Config) :
  only (authorized (options c)) (orchestrate P c).
Proof.
  unfold orchestrate. apply only_bind.
  - destruct (twoPhase c); [ | now apply only_processAll_authorized].
    unfold validateFirst. apply only_bind; [apply only_validateAll_authorized | intros results].
    destruct (0 <? Z.of_nat (List.length (filter (fun r => negb (isSuccess r)) results))).
    + apply only_bind; [now apply only_log | intros _].
      apply only_bind; [now apply only_log | intros _; apply only_throw].
    + now apply only_processAll_authorized.
  - intros results. unfold aggregate.
    apply only_bind; [now apply only_log | intros _].
    apply only_bind; [now apply only_log | intros _].
    destruct (failing (worstStatus results)); [apply only_throw | apply only_ret].
Qed.

(** What [configure] leaves behind when it returns. *)
Lemma configure_secret (i : Inputs) (w w1 : World) (c : Config) :
  configure P i w = (Ok c, w1) ->
  w1 = emit (SetSecret (apiKey (options c))) w.
Proof.
  unfold configure, bind, require, lift, log, ret, throw.
  repeat match goal with
         | |- context [if ?b then _ else _] =>
             lazymatch b with
             | JsString.truthy (in_execution_strategy i) => fail
             | _ => destruct b; try discriminate
             end
         | |- context [match ?x with Ok _ => _ | Throw _ => _ end] =>
             destruct x; try discriminate
         end;
    intros H; injection H as <- <-; reflexivity.
Qed.

End Authorization.

(** X20.  In a run that gets as far as its files, the key is registered as
    a secret before anything else happens, and every request of the run
    carries that key in its [Authorization] header and goes to the API
    under the configured base URL. *)
Theorem run_requests_authorized (P : Platform) (i : Inputs) (w w1 : World) (c : Config) :
  configure P i w = (Ok c, w1) ->
  exists evs,
    trace (run P i w) = (trace w ++ SetSecret (apiKey (options c)) :: evs)%list /\
    forallb (authorized (options c)) evs = true.
Proof.
  intros Hc. rewrite run_parts, Hc.
  rewrite (configure_secret P i w w1 c Hc).
  destruct (only_orchestrate_authorized P c (emit (SetSecret (apiKey (options c))) w))
    as (evs & Ht & Hq).
  destruct (orchestrate P c (emit (SetSecret (apiKey (options c))) w))
    as [[[] | message] w2]; cbn [snd] in Ht.
  - exists evs. rewrite Ht. cbn [emit trace]. rewrite <- app_assoc. now split.
  - exists (evs ++ failureEvents message)%list. unfold failAction, emit; cbn [trace].
    rewrite Ht. cbn [emit trace]. rewrite <- !app_assoc. split; [reflexivity | ].
    rewrite forallb_app, Hq. reflexivity.
Qed.

Lemma run_requests_authorized_witness :
  let w := freshWorld secondInvalid in
  exists c w1,
    configure examplePlatform validateFirstInputs w = (Ok c, w1) /\
    exists evs,
      trace (run examplePlatform validateFirstInputs w)
      = (trace w ++ SetSecret (apiKey (options c)) :: evs)%list /\
      forallb (authorized (options c)) evs = true.
Proof.
  intros w.
  let r := eval vm_compute in (configure examplePlatform validateFirstInputs w) in
  match r with
  | (Ok ?c, ?w1) => exists c, w1
  end.
  match goal with
  | |- ?start = (Ok ?c, ?w1) /\ _ =>
      assert (Hc : start = (Ok c, w1)) by (vm_compute; reflexivity);
      split; [exact Hc | ];
      exact (run_requests_authorized examplePlatform validateFirstInputs w w1 c Hc)
  end.
Defined.

(* ===================================================================== *)
(** * Further properties of the processing of files *)
(* ===================================================================== *)

Section Processing.

Variable P : Platform.

(** With [validate_only] a file is only validated. *)
Lemma only_processSingleFile_validate (filePath : string) (o : Options) :
  validateOnly o = true -> only validating (processSingleFile P filePath o).
Proof.
  intros Hvo. unfold processSingleFile. rewrite Hvo. cbn [orb].
  apply only_bind; [apply only_validateFile | intros v].
  destruct (negb (String.eqb (op_status v) "SUCCESS")); apply only_ret.
Qed.

Lemma executeStep_file (filePath : string) (o : Options) (w : World) (r : FileResult) :
  fst (executeStep P filePath o w) = Ok r -> file r = filePath.
Proof.
  unfold executeStep, bind.
  destruct (executeFile P filePath o w) as [[v | m] w1]; [ | discriminate].
  destruct (truthyError (op_error v)); cbn [ret fst]; intros H; injection H as <-; reflexivity.
Qed.

(** A result is the result of the file that was processed. *)
Lemma processSingleFile_file (filePath : string) (o : Options) (w : World) (r : FileResult) :
  fst (processSingleFile P filePath o w) = Ok r -> file r = filePath.
Proof.
  unfold processSingleFile.
  destruct (validateOnly o || validateBeforeExecute o); [ | apply executeStep_file].
  unfold bind. destruct (validateFile P filePath o w) as [[v | m] w1]; [ | discriminate].
  destruct (negb (String.eqb (op_status v) "SUCCESS"));
    [cbn [ret fst]; intros H; injection H as <-; reflexivity | ].
  destruct (validateOnly o); [ | apply executeStep_file].
  cbn [ret fst]; intros H; injection H as <-; reflexivity.
Qed.

(** The loop over the files, from any results so far. *)
Lemma processAll_results (o : Options) (ff : bool) (filePaths : list string) :
  forall results w, exists new,
    fst (processAll P o ff filePaths results w) = Ok (results ++ new)%list /\
    map file new = firstn (List.length new) filePaths /\
    (ff = false -> List.length new = List.length filePaths) /\
    (ff = true ->
     Forall (fun r => truthyError (error r) = false) (removelast new)).
Proof.
  induction filePaths as [ | f rest IH]; intros results w; cbn [processAll].
  - exists []. rewrite app_nil_r. repeat split; constructor.
  - unfold bind at 1, attempt. cbn [fst snd].
    assert (Hstop : forall r w0,
               file r = f ->
               exists new,
                 fst (bind (log (stopping f)) (fun _ => ret (results ++ [r])%list) w0)
                 = Ok (results ++ new)%list /\
                 map file new = firstn (List.length new) (f :: rest) /\
                 (true = false -> List.length new = List.length (f :: rest)) /\
                 (true = true ->
                  Forall (fun r => truthyError (error r) = false) (removelast new))).
    { intros r w0 Hfile. exists [r]. cbn. rewrite Hfile.
      repeat split; [discriminate | constructor]. }
    assert (Hnext : forall r,
               file r = f -> (ff = true -> truthyError (error r) = false) ->
               exists new,
                 fst (processAll P o ff rest (results ++ [r])%list
                        (snd (processSingleFile P f o w)))
                 = Ok (results ++ new)%list /\
                 map file new = firstn (List.length new) (f :: rest) /\
                 (ff = false -> List.length new = List.length (f :: rest)) /\
                 (ff = true ->
                  Forall (fun r => truthyError (error r) = false) (removelast new))).
    { intros r Hfile Herr.
      destruct (IH (results ++ [r])%list (snd (processSingleFile P f o w)))
        as (new & Hrun & Hfiles & Hlen & Hclean).
      exists (r :: new). rewrite Hrun, <- app_assoc. cbn [app List.length firstn map].
      rewrite Hfile, Hfiles.
      repeat split; [intros Hff; now rewrite (Hlen Hff) | ].
      intros Hff. destruct new as [ | r' new]; [constructor | ].
      cbn [removelast]. constructor; [now apply Herr | now apply Hclean]. }
    destruct (fst (processSingleFile P f o w)) as [r | message] eqn:Hone.
    + pose proof (processSingleFile_file _ _ _ _ Hone) as Hfile.
      destruct (truthyError (error r)) eqn:Herr; cbn [andb].
      * destruct ff; [now apply Hstop | apply Hnext; [exact Hfile | discriminate]].
      * apply Hnext; [exact Hfile | intros _; exact Herr].
    + destruct ff; [now apply Hstop | apply Hnext; [reflexivity | discriminate]].
Qed.

End Processing.

Section PerFile.

Variable P : Platform.

(** A run that does not take the two-phase flow: the secret, the events of
    the loop over the files, the two outputs and, when the status fails the
    run, the events of the failure. *)
Lemma run_per_file (i : Inputs) (w w1 : World) (c : Config) :
  configure P i w = (Ok c, w1) ->
  twoPhase c = false ->
  exists results w2 evs,
    processAll P (options c) (failFast c) (filePaths c) [] w1 = (Ok results, w2) /\
    trace w2 = (trace w1 ++ evs)%list /\
    trace (run P i w)
    = (trace w ++ SetSecret (apiKey (options c)) :: evs
       ++ SetOutput "status" (OutString (worstStatus results))
       :: SetOutput "result" (OutResults (map toEntry results))
       :: (if failing (worstStatus results)
           then failureEvents
                  (failureMessage (filter isFailed results)
                     (failureSummary (List.length (filter isFailed results))
                        (List.length results)))
           else []))%list.
Proof.
  intros Hc Htwo.
  destruct (processAll_outcome P (options c) (failFast c) (filePaths c) w1)
    as (results & w2 & evs & Hrun & Ht & _).
  exists results, w2, evs. split; [exact Hrun | split; [exact Ht | ]].
  rewrite run_parts, Hc. unfold orchestrate. rewrite Htwo. unfold bind at 1.
  rewrite Hrun, aggregate_outcome.
  rewrite (configure_secret P i w w1 c Hc) in Ht.
  destruct (failing (worstStatus results));
    unfold failAction, failureEvents, emit; cbn [trace]; rewrite Ht; cbn [emit trace];
    rewrite <- !app_assoc; reflexivity.
Qed.

Lemma executeAttempts_none (q : Event -> bool) (t evs rest : list Event) :
  (forall e, q e = true -> isCallExecute e = false) ->
  forallb q evs = true ->
  executeAttempts rest = O ->
  executeAttempts (t ++ evs ++ rest) = executeAttempts t.
Proof.
  intros Hq Hevs Hrest.
  rewrite !executeAttempts_app, (no_execute q evs Hq Hevs), Hrest. lia.
Qed.

End PerFile.

(** X21.  A run with [validate_only] executes nothing: whatever the other
    inputs, the files and the network, no attempt to execute a file is
    made. *)
Theorem validate_only_never_executes (P : Platform) (i : Inputs) (w : World) :
  in_validate_only i = "true" ->
  executeAttempts (trace (run P i w)) = executeAttempts (trace w).
Proof.
  intros Hvo.
  destruct (configure P i w) as [[c | message] w1] eqn:Hc.
  - destruct (configure_flags P i w w1 c Hc) as (_ & Hflag & _).
    rewrite Hvo in Hflag. cbn in Hflag.
    assert (Htwo : twoPhase c = false).
    { unfold twoPhase. rewrite Hflag. cbn [negb]. now rewrite andb_false_r. }
    destruct (run_per_file P i w w1 c Hc Htwo) as (results & w2 & evs & Hrun & Ht & ->).
    destruct (only_processAll P validating (options c) (failFast c) quiet_validating
                (fun f => only_processSingleFile_validate P f (options c) Hflag)
                (filePaths c) [] w1) as (evs' & Ht' & Hq).
    rewrite Hrun in Ht'. cbn [snd] in Ht'. rewrite Ht in Ht'.
    apply app_inv_head in Ht'. subst evs'.
    change (SetSecret (apiKey (options c)) :: evs ++ ?rest)%list
      with ([SetSecret (apiKey (options c))] ++ evs ++ rest)%list.
    rewrite !executeAttempts_app, (no_execute validating evs validating_not_execute Hq).
    destruct (failing (worstStatus results)); cbn; lia.
  - rewrite run_parts, Hc.
    destruct (only_configure P i w) as (secrets & Ht & Hq). rewrite Hc in Ht. cbn [snd] in Ht.
    unfold failAction, emit; cbn [trace]. rewrite Ht, <- !app_assoc.
    apply (executeAttempts_none isSetSecret _ secrets _ secret_not_execute Hq). reflexivity.
Qed.

Lemma validate_only_never_executes_witness :
  let w := freshWorld secondInvalid in
  executeAttempts (trace (run examplePlatform validateOnlyInputs w)) = executeAttempts (trace w) /\
  validateAttempts (trace (run examplePlatform validateOnlyInputs w)) = 3%nat.
Proof.
  intros w. split; [ | vm_compute; reflexivity].
  exact (validate_only_never_executes examplePlatform validateOnlyInputs w eq_refl).
Defined.

(** X22.  In the per-file processing a file whose validation did not
    succeed is not executed: [processSingleFile] ends where the validation
    ended, with the status, result and error of the validation as the
    result of the file, or with the error that the validation threw. *)
Theorem failed_validation_not_executed
    (P : Platform) (filePath : string) (o : Options) (w : World) :
  validateOnly o || validateBeforeExecute o = true ->
  failedValidation (fst (validateFile P filePath o w)) = true ->
  processSingleFile P filePath o w
  = (match fst (validateFile P filePath o w) with
     | Ok valResult => Ok (fileResultOf filePath valResult)
     | Throw message => Throw message
     end,
     snd (validateFile P filePath o w)) /\
  executeAttempts (trace (snd (processSingleFile P filePath o w)))
  = executeAttempts (trace w).
Proof.
  intros Hflags Hfailed.
  assert (Hrun : processSingleFile P filePath o w
                 = (match fst (validateFile P filePath o w) with
                    | Ok valResult => Ok (fileResultOf filePath valResult)
                    | Throw message => Throw message
                    end,
                    snd (validateFile P filePath o w))).
  { unfold processSingleFile. rewrite Hflags. unfold bind.
    destruct (validateFile P filePath o w) as [[v | m] w1]; [ | reflexivity].
    cbn [fst failedValidation] in Hfailed. rewrite Hfailed. reflexivity. }
  split; [exact Hrun | ]. rewrite Hrun. cbn [snd].
  destruct (only_validateFile P filePath o w) as (evs & Ht & Hq).
  rewrite Ht, executeAttempts_app, (no_execute validating evs validating_not_execute Hq).
  lia.
Qed.

Lemma failed_validation_not_executed_witness :
  let w := freshWorld (script [taskReply "v-01"; invalidReply; taskReply "e-01";
                               successReply emptyObject]) in
  let f := "/repo/changesets/01_users.json" in
  fst (processSingleFile examplePlatform f exampleOptions w)
  = Ok {| file := f; taskId := None; status := "FAILURE";
          result := JObj [("is_valid", JBool false)];
          error := Some "Changeset validation failed. See validation errors above." |} /\
  executeAttempts (trace (snd (processSingleFile examplePlatform f exampleOptions w)))
  = executeAttempts (trace w).
Proof.
  intros w f.
  destruct (failed_validation_not_executed examplePlatform f exampleOptions w
              eq_refl eq_refl) as [Hrun Hnone].
  split; [rewrite Hrun; reflexivity | exact Hnone].
Defined.

(** X23.  The results of a run that goes file by file: the result output
    has one entry per processed file, in the order of the files; without
    [fail_fast] every file is processed, and with it no entry but the last
    carries an error. *)
Theorem per_file_results_in_order
    (P : Platform) (i : Inputs) (w w1 : World) (c : Config) :
  configure P i w = (Ok c, w1) ->
  twoPhase c = false ->
  exists results,
    outputs "result" (trace (run P i w))
    = (outputs "result" (trace w) ++ [OutResults (map toEntry results)])%list /\
    map file results = firstn (List.length results) (filePaths c) /\
    (failFast c = false -> List.length results = List.length (filePaths c)) /\
    (failFast c = true ->
     Forall (fun r => truthyError (error r) = false) (removelast results)).
Proof.
  intros Hc Htwo.
  destruct (run_per_file P i w w1 c Hc Htwo) as (results & w2 & evs & Hrun & Ht & ->).
  destruct (processAll_results P (options c) (failFast c) (filePaths c) [] w1)
    as (new & Hnew & Hfiles & Hlen & Hclean).
  rewrite Hrun in Hnew. cbn [fst app] in Hnew. injection Hnew as <-.
  exists results. split; [ | now repeat split].
  destruct (only_processAll P processing (options c) (failFast c)
              (fun e He => validating_processing e (quiet_validating e He))
              (fun f => only_processSingleFile P f (options c)) (filePaths c) [] w1)
    as (evs' & Ht' & Hq).
  rewrite Hrun in Ht'. cbn [snd] in Ht'. rewrite Ht in Ht'.
  apply app_inv_head in Ht'. subst evs'.
  pose proof (proj1 (working_silent "result" evs
                       (forallb_weaken _ _ _ processing_working Hq))) as Hsilent.
  change (SetSecret (apiKey (options c)) :: evs ++ ?rest)%list
    with ([SetSecret (apiKey (options c))] ++ evs ++ rest)%list.
  rewrite !outputs_app, Hsilent.
  destruct (failing (worstStatus results)); reflexivity.
Qed.

Lemma per_file_results_in_order_witness :
  let w := freshWorld secondInvalid in
  exists c w1,
    configure examplePlatform validateOnlyInputs w = (Ok c, w1) /\
    twoPhase c = false /\
    exists results,
      outputs "result" (trace (run examplePlatform validateOnlyInputs w))
      = (outputs "result" (trace w) ++ [OutResults (map toEntry results)])%list /\
      map file results = firstn (List.length results) (filePaths c) /\
      (failFast c = false -> List.length results = List.length (filePaths c)) /\
      (failFast c = true ->
       Forall (fun r => truthyError (error r) = false) (removelast results)).
Proof.
  intros w.
  let r := eval vm_compute in (configure examplePlatform validateOnlyInputs w) in
  match r with
  | (Ok ?c, ?w1) => exists c, w1
  end.
  match goal with
  | |- ?start = (Ok ?c, ?w1) /\ _ =>
      assert (Hc : start = (Ok c, w1)) by (vm_compute; reflexivity);
      split; [exact Hc | split; [reflexivity | ]];
      exact (per_file_results_in_order examplePlatform validateOnlyInputs w w1 c Hc eq_refl)
  end.
Defined.

(* ===================================================================== *)
(** * Further properties of the configuration *)
(* ===================================================================== *)

Section Configuration.

Variable P : Platform.


Lemma resolveFiles_nonempty (changesetFile : string) (filePaths : list string) :
  resolveFiles P changesetFile = Ok filePaths -> filePaths <> [].
Proof.
  unfold resolveFiles.
  destruct (negb (JsString.truthy changesetFile)
            || String.eqb (JsString.trim changesetFile) EmptyString); [discriminate | ].
  destruct (isGlobPattern changesetFile).
  - rewrite length_zero.
    destruct (globSync P _) as [ | m ms]; [discriminate | ].
    intros H; injection H as <-. intros Hnil.
    apply (f_equal (@List.length string)) in Hnil.
    rewrite (Permutation_length (sortInsert_perm _ _ _)) in Hnil. discriminate Hnil.
  - destruct (negb (existsSync P (path_resolve P changesetFile))); [discriminate | ].
    intros H; injection H as <-. discriminate.
Qed.

Lemma configure_returns (i : Inputs) (w w1 : World) (c : Config) :
  configure P i w = (Ok c, w1) ->
  let key := firstTruthy (in_api_key i) (env_INPROD_API_KEY i) in
  let base := stripTrailingSlash (firstTruthy (in_base_url i) (env_INPROD_BASE_URL i)) in
  apiKey (options c) = key /\
  baseUrl (options c) = base /\
  JsString.all_ws key = false /\
  JsString.all_ws base = false /\
  isURL P base = true /\
  resolveFiles P (in_changeset_file i) = Ok (filePaths c) /\
  parseChangesetVariables (in_changeset_variables i) = Ok (changesetVariables (options c)) /\
  pollingTimeoutSeconds (options c)
  = match parseInt10 (in_polling_timeout_minutes i) with
    | Some n => if n =? 0 then 10 else n
    | None => 10
    end * 60.
Proof.
  intros Hc key base. revert Hc.
  unfold configure, bind, require, lift, log, ret, throw. fold key. fold base.
  rewrite !required_all_ws.
  destruct (JsString.truthy (in_changeset_file i)); [ | discriminate].
  destruct (parseChangesetVariables (in_changeset_variables i)) as [vars | m];
    [ | discriminate].
  destruct (JsString.all_ws key); [discriminate | ]. cbn [negb].
  destruct (JsString.all_ws base); [discriminate | ]. cbn [negb].
  destruct (isURL P base); [ | discriminate].
  destruct (resolveFiles P (in_changeset_file i)) as [files | m]; [ | discriminate].
  intros H; injection H as <- _. cbn [options apiKey baseUrl filePaths changesetVariables
                                       pollingTimeoutSeconds].
  repeat split.
Qed.

End Configuration.



(** X25.  A run whose configuration fails does nothing but fail: the error
    is handed to [core.setFailed], the process exits with code 1, and there
    is no request, no attempt on a file and no output. *)
Theorem configuration_error_fails_run
    (P : Platform) (i : Inputs) (w : World) (message : string) :
  fst (configure P i w) = Throw message ->
  failures (trace (run P i w)) = (failures (trace w) ++ [message])%list /\
  requests (trace (run P i w)) = requests (trace w) /\
  validateAttempts (trace (run P i w)) = validateAttempts (trace w) /\
  executeAttempts (trace (run P i w)) = executeAttempts (trace w) /\
  outputs "status" (trace (run P i w)) = outputs "status" (trace w) /\
  outputs "result" (trace (run P i w)) = outputs "result" (trace w) /\
  exists before, trace (run P i w) = (before ++ [Exit 1])%list.
Proof.
  intros Hc. rewrite run_parts.
  destruct (only_configure P i w) as (secrets & Ht & Hq).
  destruct (configure P i w) as [[c | m] w1]; [discriminate | ].
  cbn [fst] in Hc. injection Hc as ->. cbn [snd] in Ht.
  pose proof (forallb_weaken _ _ _ secret_working Hq) as Hw.
  destruct (working_silent "status" secrets Hw) as [Hstatus Hfail].
  destruct (working_silent "result" secrets Hw) as [Hresult _].
  unfold failAction, emit; cbn [trace]. rewrite Ht, <- !app_assoc.
  repeat split.
  - rewrite !failures_app, Hfail. reflexivity.
  - unfold requests. rewrite !filter_app, !length_app.
    assert (Hnone : filter isFetch secrets = []).
    { clear - Hq. induction secrets as [ | e evs IH]; [reflexivity | ].
      cbn [forallb] in Hq. apply andb_prop in Hq as [He Hevs].
      destruct e; try discriminate. cbn. now apply IH. }
    rewrite Hnone. cbn. lia.
  - rewrite !validateAttempts_app, (no_validate isSetSecret secrets secret_not_validate Hq).
    cbn. lia.
  - rewrite !executeAttempts_app, (no_execute isSetSecret secrets secret_not_execute Hq).
    cbn. lia.
  - rewrite !outputs_app, Hstatus. cbn. now rewrite !app_nil_r.
  - rewrite !outputs_app, Hresult. cbn. now rewrite !app_nil_r.
  - eexists. rewrite !app_assoc. reflexivity.
Qed.

Lemma configuration_error_fails_run_witness :
  let w := freshWorld secondInvalid in
  let message := "api_key is required and cannot be empty" in
  fst (configure examplePlatform withoutKeyInputs w) = Throw message /\
  failures (trace (run examplePlatform withoutKeyInputs w)) = [message] /\
  requests (trace (run examplePlatform withoutKeyInputs w)) = O.
Proof.
  intros w message.
  destruct (configuration_error_fails_run examplePlatform withoutKeyInputs w message eq_refl)
    as (Hfail & Hreq & _).
  split; [reflexivity | split; [exact Hfail | exact Hreq]].
Defined.

(* ===================================================================== *)
(** * The statuses of a run *)
(* ===================================================================== *)

Section Verdicts.

Variable P : Platform.

Lemma settled_verdict (st : string) (e : option string) : settled st e -> verdictStatus st.
Proof. unfold settled, verdictStatus. tauto. Qed.

Lemma executeFile_settled (filePath : string) (o : Options) (w : World) (v : OpResult) :
  fst (executeFile P filePath o w) = Ok v -> settled (op_status v) (op_error v).
Proof.
  unfold executeFile, bind, log.
  destruct (submit P executeEndpoint _ _ _ _ filePath o _) as [[id | m] w1];
    [ | discriminate].
  destruct (pollTask (baseUrl o) (apiKey o) id (pollingTimeoutSeconds o) w1)
    as [[outcome | m] w2]; [ | discriminate].
  unfold settled. destruct outcome as [result | e | | ]; cbn [fst ret];
    intros H; injection H as <-; cbn; [left | right | right | right]; auto.
Qed.

Lemma processSingleFile_verdict (filePath : string) (o : Options) (w : World)
    (r : FileResult) :
  fst (processSingleFile P filePath o w) = Ok r -> verdictStatus (status r).
Proof.
  assert (Hexec : forall w0, fst (executeStep P filePath o w0) = Ok r ->
                             verdictStatus (status r)).
  { intros w0. unfold executeStep, bind.
    destruct (executeFile P filePath o w0) as [[v | m] w1] eqn:Hrun; [ | discriminate].
    pose proof (executeFile_settled filePath o w0 v) as Hv. rewrite Hrun in Hv.
    specialize (Hv eq_refl). apply settled_verdict in Hv.
    destruct (truthyError (op_error v)); cbn [ret fst]; intros H; injection H as <-; exact Hv. }
  unfold processSingleFile.
  destruct (validateOnly o || validateBeforeExecute o); [ | apply Hexec].
  unfold bind. destruct (validateFile P filePath o w) as [[v | m] w1] eqn:Hrun;
    [ | discriminate].
  pose proof (validateFile_settled P filePath o w v) as Hv. rewrite Hrun in Hv.
  specialize (Hv eq_refl). apply settled_verdict in Hv.
  destruct (negb (String.eqb (op_status v) "SUCCESS"));
    [cbn [ret fst]; intros H; injection H as <-; exact Hv | ].
  destruct (validateOnly o); [ | apply Hexec].
  cbn [ret fst]; intros H; injection H as <-. now left.
Qed.

Lemma processAll_verdicts (o : Options) (ff : bool) (filePaths : list string) :
  forall results w results',
    Forall (fun r => verdictStatus (status r)) results ->
    fst (processAll P o ff filePaths results w) = Ok results' ->
    Forall (fun r => verdictStatus (status r)) results'.
Proof.
  induction filePaths as [ | f rest IH]; intros results w results' Hall; cbn [processAll].
  - intros H; injection H as <-. exact Hall.
  - unfold bind at 1, attempt. cbn [fst snd].
    destruct (fst (processSingleFile P f o w)) as [r | message] eqn:Hone.
    + assert (Hall' : Forall (fun r => verdictStatus (status r)) (results ++ [r])).
      { apply Forall_app. split; [exact Hall | ]. constructor; [ | constructor].
        exact (processSingleFile_verdict _ _ _ _ Hone). }
      destruct (truthyError (error r) && ff); [ | now apply IH].
      cbn. intros H; injection H as <-. exact Hall'.
    + assert (Hall' : Forall (fun r => verdictStatus (status r))
                        (results ++ [thrownResult f message])).
      { apply Forall_app. split; [exact Hall | ]. constructor; [ | constructor].
        right; now left. }
      destruct ff; [ | now apply IH].
      cbn. intros H; injection H as <-. exact Hall'.
Qed.

Lemma failedValidations_verdicts (o : Options) (ff : bool) :
  forall (filePaths : list string) (w : World),
    Forall (fun r => verdictStatus (status r)) (failedValidations P o ff filePaths w).
Proof.
  intros filePaths. unfold failedValidations.
  induction filePaths as [ | f rest IH]; intros w; [constructor | ].
  cbn [validations filter snd].
  destruct (fst (validateFile P f o w)) as [v | message] eqn:Hr; cbn [failedValidation].
  - destruct (negb (String.eqb (op_status v) "SUCCESS")).
    + cbn [map]. constructor; [ | destruct ff; [constructor | apply IH]].
      unfold recordOf; cbn [snd status].
      exact (settled_verdict _ _ (validateFile_settled P f o w v Hr)).
    + apply IH.
  - cbn [map]. constructor; [ | destruct ff; [constructor | apply IH]].
    unfold recordOf; cbn [snd]. right; now left.
Qed.

(** The reduction of [worstStatus] stays within the statuses it sees. *)
Lemma worstStatus_verdict (results : list FileResult) :
  Forall (fun r => verdictStatus (status r)) results -> verdictStatus (worstStatus results).
Proof.
  intros Hall.
  destruct (reduce_worse results "SUCCESS") as (_ & _ & [Heq | Hin]).
  - unfold worstStatus. rewrite Heq. now left.
  - apply in_map_iff in Hin as (r & Hr & Hin). unfold worstStatus. rewrite <- Hr.
    rewrite Forall_forall in Hall. now apply Hall.
Qed.

(** The two-phase flow when every validation succeeded: phase 2 starts on
    the world phase 1 left, with no result so far. *)
Lemma validateFirst_success (c : Config) (w : World) :
  someFailed (validations P (options c) (failFast c) (filePaths c) w) = false ->
  exists w1 evs,
    validateFirst P c w
    = processAll P (executeOptions (options c)) (failFast c) (filePaths c) [] w1 /\
    trace w1 = (trace w ++ evs)%list /\
    forallb validating evs = true /\
    validateAttempts evs
    = List.length (validations P (options c) (failFast c) (filePaths c) w).
Proof.
  intros Hsome.
  destruct (validateAll_run P (options c) (failFast c) (filePaths c) [] w)
    as (w1 & evs & Hrun & Ht & Hq & Hn).
  assert (Hnone : failedValidations P (options c) (failFast c) (filePaths c) w = []).
  { destruct (failedValidations P (options c) (failFast c) (filePaths c) w) eqn:E;
      [reflexivity | ].
    assert (Hs : someFailed (validations P (options c) (failFast c) (filePaths c) w) = true)
      by (apply someFailed_recorded; rewrite E; discriminate).
    congruence. }
  rewrite Hnone in Hrun. cbn [app] in Hrun.
  exists w1, evs. split; [ | now repeat split].
  unfold validateFirst, bind. rewrite Hrun. reflexivity.
Qed.

End Verdicts.

Section RunVerdict.

Variable P : Platform.

(** What [run] does with the files, with the statuses it can report. *)
Lemma orchestrate_verdict (c : Config) (w : World) :
  exists st results pre,
    trace (snd (orchestrate P c w))
    = (trace w ++ pre ++ [SetOutput "status" (OutString st);
                          SetOutput "result" (OutResults (map toEntry results))])%list /\
    forallb working pre = true /\
    verdictStatus st /\
    Forall (fun r => verdictStatus (status r)) results.
Proof.
  assert (Hprocess : forall o w0 evs0,
             trace w0 = (trace w ++ evs0)%list -> forallb working evs0 = true ->
             exists st results pre,
               trace (snd (bind (processAll P o (failFast c) (filePaths c) []) aggregate w0))
               = (trace w ++ pre ++ [SetOutput "status" (OutString st);
                                     SetOutput "result" (OutResults (map toEntry results))])%list /\
               forallb working pre = true /\
               verdictStatus st /\
               Forall (fun r => verdictStatus (status r)) results).
  { intros o w0 evs0 Ht0 Hw0.
    destruct (processAll_outcome P o (failFast c) (filePaths c) w0)
      as (results & w1 & evs & Hrun & Ht & Hw).
    assert (Hall : Forall (fun r => verdictStatus (status r)) results).
    { apply (processAll_verdicts P o (failFast c) (filePaths c) [] w0); [constructor | ].
      now rewrite Hrun. }
    exists (worstStatus results), results, (evs0 ++ evs)%list.
    unfold bind at 1. rewrite Hrun, aggregate_outcome. cbn [snd emit trace].
    rewrite Ht, Ht0. split; [now rewrite <- !app_assoc | ].
    split; [now rewrite forallb_app, Hw0, Hw | ].
    split; [now apply worstStatus_verdict | exact Hall]. }
  unfold orchestrate. destruct (twoPhase c).
  - destruct (someFailed (validations P (options c) (failFast c) (filePaths c) w)) eqn:Hsome.
    + destruct (validateFirst_failure P c w Hsome) as (w1 & evs & Hrun & Ht & Hq & _).
      exists "FAILURE", (failedValidations P (options c) (failFast c) (filePaths c) w), evs.
      unfold bind at 1. rewrite Hrun. cbn [snd].
      split; [exact Ht | split; [ | split; [right; now left | ]]].
      * exact (forallb_weaken _ _ _ processing_working
                 (forallb_weaken _ _ _ validating_processing Hq)).
      * apply failedValidations_verdicts.
    + destruct (validateFirst_success P c w Hsome) as (w1 & evs & Hrun & Ht & Hq & _).
      assert (Heq : bind (validateFirst P c) (fun results => aggregate results) w
                    = bind (processAll P (executeOptions (options c)) (failFast c)
                              (filePaths c) []) aggregate w1).
      { unfold bind. rewrite Hrun. reflexivity. }
      rewrite Heq. apply (Hprocess _ w1 evs Ht).
      exact (forallb_weaken _ _ _ processing_working
               (forallb_weaken _ _ _ validating_processing Hq)).
  - apply (Hprocess _ w []); [now rewrite app_nil_r | reflexivity].
Qed.

End RunVerdict.

(** X26.  The status output of a run is SUCCESS, FAILURE, REVOKED or
    TIMEOUT, and so is the status of every entry of the result output: the
    status SUBMITTED, which the ranking and the count of failures provide
    for, never occurs.  Hence a run fails exactly when its status is not
    SUCCESS. *)
Theorem run_status_is_verdict (P : Platform) (i : Inputs) (w w1 : World) (c : Config) :
  configure P i w = (Ok c, w1) ->
  exists st entries,
    outputs "status" (trace (run P i w)) = (outputs "status" (trace w) ++ [OutString st])%list /\
    outputs "result" (trace (run P i w))
    = (outputs "result" (trace w) ++ [OutResults entries])%list /\
    verdictStatus st /\
    Forall (fun e => verdictStatus (entry_status e)) entries /\
    failing st = negb (String.eqb st "SUCCESS").
Proof.
  intros Hc.
  destruct (orchestrate_verdict P c w1) as (st & results & pre & Ht & Hw & Hst & Hall).
  exists st, (map toEntry results).
  assert (Htrace : exists rest,
             trace (run P i w)
             = (trace w ++ [SetSecret (apiKey (options c))] ++ pre
                ++ [SetOutput "status" (OutString st);
                    SetOutput "result" (OutResults (map toEntry results))] ++ rest)%list /\
             outputs "status" rest = [] /\ outputs "result" rest = []).
  { rewrite run_parts, Hc.
    rewrite (configure_secret P i w w1 c Hc) in Ht |- *.
    destruct (orchestrate P c (emit (SetSecret (apiKey (options c))) w))
      as [[[] | message] w2]; cbn [snd] in Ht.
    - exists []. rewrite Ht. cbn [emit trace]. rewrite <- !app_assoc. now split.
    - exists (failureEvents message). unfold failAction, emit; cbn [trace].
      rewrite Ht. cbn [emit trace]. rewrite <- !app_assoc. now split. }
  destruct Htrace as (rest & -> & Hrest & Hrest').
  destruct (working_silent "status" pre Hw) as [Hs _].
  destruct (working_silent "result" pre Hw) as [Hr _].
  rewrite !outputs_app, Hs, Hr, Hrest, Hrest'.
  split; [reflexivity | split; [reflexivity | split; [exact Hst | split]]].
  - apply Forall_map. eapply Forall_impl; [ | exact Hall]. now intros r.
  - destruct Hst as [-> | [-> | [-> | ->]]]; reflexivity.
Qed.

Lemma run_status_is_verdict_witness :
  let w := freshWorld secondInvalid in
  exists c w1,
    configure examplePlatform validateFirstInputs w = (Ok c, w1) /\
    exists st entries,
      outputs "status" (trace (run examplePlatform validateFirstInputs w))
      = (outputs "status" (trace w) ++ [OutString st])%list /\
      outputs "result" (trace (run examplePlatform validateFirstInputs w))
      = (outputs "result" (trace w) ++ [OutResults entries])%list /\
      verdictStatus st /\
      Forall (fun e => verdictStatus (entry_status e)) entries /\
      failing st = negb (String.eqb st "SUCCESS").
Proof.
  intros w.
  let r := eval vm_compute in (configure examplePlatform validateFirstInputs w) in
  match r with
  | (Ok ?c, ?w1) => exists c, w1
  end.
  match goal with
  | |- ?start = (Ok ?c, ?w1) /\ _ =>
      assert (Hc : start = (Ok c, w1)) by (vm_compute; reflexivity);
      split; [exact Hc | ];
      exact (run_status_is_verdict examplePlatform validateFirstInputs w w1 c Hc)
  end.
Defined.

(* ===================================================================== *)
(** * The two phases of [validate_first] *)
(* ===================================================================== *)

Section TwoPhases.

Variable P : Platform.

(** When no validation fails, every file is validated. *)
Lemma validations_none_failed (o : Options) (ff : bool) :
  forall (filePaths : list string) (w : World),
    someFailed (validations P o ff filePaths w) = false ->
    List.length (validations P o ff filePaths w) = List.length filePaths.
Proof.
  unfold someFailed. intros filePaths.
  induction filePaths as [ | f rest IH]; intros w; [reflexivity | ].
  cbn [validations existsb snd List.length].
  destruct (failedValidation (fst (validateFile P f o w))); [discriminate | ].
  cbn [orb]. intros H. now rewrite (IH _ H).
Qed.

Lemma executeStep_trace (filePath : string) (o : Options) (w : World) :
  exists evs,
    trace (snd (executeStep P filePath o w)) = (trace w ++ CallExecute filePath :: evs)%list
    /\ forallb quiet evs = true.
Proof.
  destruct (executeFile_trace P filePath o w) as (evs & Ht & Hq).
  exists evs. split; [ | exact Hq]. unfold executeStep, bind.
  destruct (executeFile P filePath o w) as [[v | m] w1]; cbn [snd] in *; [ | exact Ht].
  now destruct (truthyError (op_error v)).
Qed.

(** One turn of the loop over the files. *)
Lemma processAll_turn (o : Options) (ff : bool) (f : string) (rest : list string)
    (results : list FileResult) (w : World) :
  processAll P o ff (f :: rest) results w
  = match fst (processSingleFile P f o w) with
    | Ok r =>
        if truthyError (error r) && ff
        then bind (log (stopping f)) (fun _ => ret (results ++ [r])%list)
               (snd (processSingleFile P f o w))
        else processAll P o ff rest (results ++ [r])%list (snd (processSingleFile P f o w))
    | Throw message =>
        if ff
        then bind (log (stopping f)) (fun _ => ret (results ++ [thrownResult f message])%list)
               (snd (processSingleFile P f o w))
        else processAll P o ff rest (results ++ [thrownResult f message])%list
               (snd (processSingleFile P f o w))
    end.
Proof.
  cbn [processAll]. unfold bind at 1, attempt. cbn [fst snd].
  destruct (fst (processSingleFile P f o w)) as [r | message].
  - now destruct (truthyError (error r) && ff).
  - now destruct ff.
Qed.

(** The loop over the files without validation: one attempt to execute per
    result. *)
Lemma processAll_executes (o : Options) (ff : bool) :
  validateOnly o = false -> validateBeforeExecute o = false ->
  forall filePaths results w,
  exists new evs,
    fst (processAll P o ff filePaths results w) = Ok (results ++ new)%list /\
    trace (snd (processAll P o ff filePaths results w)) = (trace w ++ evs)%list /\
    forallb executing evs = true /\
    executeAttempts evs = List.length new /\
    (List.length new <= List.length filePaths)%nat /\
    (ff = false -> List.length new = List.length filePaths) /\
    (filePaths <> [] -> new <> []).
Proof.
  intros Hvo Hvbe filePaths.
  induction filePaths as [ | f rest IH]; intros results w.
  - cbn [processAll]. exists [], []. rewrite !app_nil_r.
    repeat split; cbn [List.length]; solve [lia | tauto].
  - rewrite processAll_turn.
    assert (Hone : processSingleFile P f o w = executeStep P f o w).
    { unfold processSingleFile. now rewrite Hvo, Hvbe. }
    rewrite Hone.
    destruct (executeStep_trace f o w) as (evs0 & Ht0 & Hq0).
    assert (Hzero : executeAttempts evs0 = O)
      by exact (no_execute quiet evs0 quiet_not_execute Hq0).
    assert (Hexec0 : forallb executing evs0 = true)
      by exact (forallb_weaken _ _ _ quiet_executing Hq0).
    set (w0 := snd (executeStep P f o w)) in *.
    assert (Hstop : forall r,
               exists new evs,
                 fst (bind (log (stopping f)) (fun _ => ret (results ++ [r])%list) w0)
                 = Ok (results ++ new)%list /\
                 trace (snd (bind (log (stopping f)) (fun _ => ret (results ++ [r])%list) w0))
                 = (trace w ++ evs)%list /\
                 forallb executing evs = true /\
                 executeAttempts evs = List.length new /\
                 (List.length new <= List.length (f :: rest))%nat /\
                 (true = false -> List.length new = List.length (f :: rest)) /\
                 (f :: rest <> [] -> new <> [])).
    { intros r. exists [r], (CallExecute f :: evs0 ++ [stopping f])%list.
      unfold bind, log, ret, emit; cbn [fst snd trace]. rewrite Ht0.
      split; [reflexivity | split; [now rewrite <- app_assoc | ]].
      split; [cbn [forallb]; now rewrite forallb_app, Hexec0 | ].
      change (CallExecute f :: evs0 ++ [stopping f])%list
        with ([CallExecute f] ++ evs0 ++ [stopping f])%list.
      rewrite !executeAttempts_app, Hzero. cbn [List.length].
      repeat split; [lia | discriminate | discriminate]. }
    assert (Hnext : forall r,
               exists new evs,
                 fst (processAll P o ff rest (results ++ [r])%list w0)
                 = Ok (results ++ new)%list /\
                 trace (snd (processAll P o ff rest (results ++ [r])%list w0))
                 = (trace w ++ evs)%list /\
                 forallb executing evs = true /\
                 executeAttempts evs = List.length new /\
                 (List.length new <= List.length (f :: rest))%nat /\
                 (ff = false -> List.length new = List.length (f :: rest)) /\
                 (f :: rest <> [] -> new <> [])).
    { intros r.
      destruct (IH (results ++ [r])%list w0)
        as (new & evs & Hrun & Ht & Hq & Hn & Hle & Hlen & _).
      exists (r :: new), (CallExecute f :: evs0 ++ evs)%list.
      rewrite Hrun, Ht, Ht0, <- !app_assoc. cbn [app List.length].
      split; [reflexivity | split; [reflexivity | ]].
      split; [cbn [forallb]; now rewrite forallb_app, Hexec0, Hq | ].
      change (CallExecute f :: evs0 ++ evs)%list
        with ([CallExecute f] ++ evs0 ++ evs)%list.
      rewrite !executeAttempts_app, Hzero, Hn.
      repeat split; [lia | intros Hff; now rewrite (Hlen Hff) | discriminate]. }
    destruct (fst (executeStep P f o w)) as [r | message].
    + destruct (truthyError (error r) && ff) eqn:Hstopping; [ | apply Hnext].
      apply andb_prop in Hstopping as [_ ->]. apply Hstop.
    + destruct ff; [apply Hstop | apply Hnext].
Qed.

End TwoPhases.

(** X27.  The two-phase flow when every validation succeeds: the run
    validates every file before it executes any, then executes the files:
    all of them without [fail_fast], at least one with it.  No file is
    validated again in phase 2. *)
Theorem validate_first_validates_all_first
    (P : Platform) (i : Inputs) (w w1 : World) (c : Config) :
  configure P i w = (Ok c, w1) ->
  twoPhase c = true ->
  someFailed (validations P (options c) (failFast c) (filePaths c) w1) = false ->
  exists vs es rest,
    trace (run P i w)
    = (trace w ++ SetSecret (apiKey (options c)) :: vs ++ es ++ rest)%list /\
    forallb validating vs = true /\
    validateAttempts vs = List.length (filePaths c) /\
    forallb executing es = true /\
    (1 <= executeAttempts es <= List.length (filePaths c))%nat /\
    (failFast c = false -> executeAttempts es = List.length (filePaths c)) /\
    forallb reporting rest = true.
Proof.
  intros Hc Htwo Hsome.
  destruct (validateFirst_success P c w1 Hsome) as (w2 & vs & Hfirst & Ht & Hq & Hn).
  rewrite (validations_none_failed P _ _ _ _ Hsome) in Hn.
  destruct (processAll_executes P (executeOptions (options c)) (failFast c) eq_refl eq_refl
              (filePaths c) [] w2)
    as (new & es & Hrun & Ht' & Hq' & Hn' & Hle & Hlen & Hne).
  assert (Hfiles : filePaths c <> []).
  { destruct (configure_returns P i w w1 c Hc) as (_ & _ & _ & _ & _ & Hfiles & _).
    exact (resolveFiles_nonempty P _ _ Hfiles). }
  assert (Hpos : (1 <= List.length new)%nat).
  { destruct new; [now elim (Hne Hfiles) | cbn [List.length]; lia]. }
  set (rest := (SetOutput "status" (OutString (worstStatus new))
                :: SetOutput "result" (OutResults (map toEntry new))
                :: (if failing (worstStatus new)
                    then failureEvents
                           (failureMessage (filter isFailed new)
                              (failureSummary (List.length (filter isFailed new))
                                 (List.length new)))
                    else []))%list).
  exists vs, es, rest.
  split; [ | split; [exact Hq | split; [exact Hn | split; [exact Hq' | ]]]].
  - rewrite run_parts, Hc. unfold orchestrate. rewrite Htwo. unfold bind at 1.
    rewrite Hfirst.
    destruct (processAll P (executeOptions (options c)) (failFast c) (filePaths c) [] w2)
      as [[results | message] w3]; cbn [fst snd app] in Hrun, Ht'; [ | discriminate].
    injection Hrun as ->. rewrite aggregate_outcome.
    rewrite (configure_secret P i w w1 c Hc) in Ht.
    unfold rest.
    destruct (failing (worstStatus new));
      unfold failAction, failureEvents, emit; cbn [trace]; rewrite Ht', Ht; cbn [emit trace];
      rewrite <- !app_assoc; reflexivity.
  - rewrite Hn'. split; [lia | split; [exact Hlen | ]].
    unfold rest. now destruct (failing (worstStatus new)).
Qed.

Lemma validate_first_validates_all_first_witness :
  let w := freshWorld
             (script [taskReply "v-01"; validReply; taskReply "v-02"; validReply;
                      taskReply "v-03"; validReply;
                      taskReply "e-01"; successReply emptyObject;
                      taskReply "e-02"; successReply emptyObject;
                      taskReply "e-03"; successReply emptyObject]) in
  exists c w1,
    configure examplePlatform validateFirstInputs w = (Ok c, w1) /\
    exists vs es rest,
      trace (run examplePlatform validateFirstInputs w)
      = (trace w ++ SetSecret (apiKey (options c)) :: vs ++ es ++ rest)%list /\
      forallb validating vs = true /\
      validateAttempts vs = List.length (filePaths c) /\
      forallb executing es = true /\
      (1 <= executeAttempts es <= List.length (filePaths c))%nat /\
      (failFast c = false -> executeAttempts es = List.length (filePaths c)) /\
      forallb reporting rest = true.
Proof.
  intros w.
  let r := eval vm_compute in (configure examplePlatform validateFirstInputs w) in
  match r with
  | (Ok ?c, ?w1) => exists c, w1
  end.
  match goal with
  | |- ?start = (Ok ?c, ?w1) /\ _ =>
      assert (Hc : start = (Ok c, w1)) by (vm_compute; reflexivity);
      split; [exact Hc | ];
      apply (validate_first_validates_all_first examplePlatform validateFirstInputs w w1 c Hc);
      vm_compute; reflexivity
  end.
Defined.

Section FailFast.

Variable P : Platform.



End FailFast.



(* ===================================================================== *)
(** * The effort of a run *)
(* ===================================================================== *)

Section Effort.

Variable P : Platform.

Lemma spends_ret {A : Type} (a : A) : spends 0 0 (ret a).
Proof. intros w. cbn [ret snd Z.of_nat]. split; lia. Qed.

Lemma spends_throw {A : Type} (message : string) : spends 0 0 (@throw A message).
Proof. intros w. cbn [throw snd Z.of_nat]. split; lia. Qed.

Lemma spends_lift {A : Type} (r : Res A) : spends 0 0 (lift r).
Proof. intros w. cbn [lift snd Z.of_nat]. split; lia. Qed.

Lemma spends_log (e : Event) : isFetch e = false -> slept [e] = 0 -> spends 0 0 (log e).
Proof.
  intros He Hs w. unfold log; cbn [snd]. rewrite requests_emit, He.
  unfold emit; cbn [trace]. rewrite slept_app, Hs. cbn [Z.of_nat]. split; lia.
Qed.

Lemma spends_fetch (req : Request) : spends 1 0 (await_fetch req).
Proof.
  intros w. unfold await_fetch; cbn [snd]. rewrite requests_fetch.
  unfold fetch; cbn [snd trace]. rewrite slept_app. cbn [slept fold_right Z.of_nat].
  split; lia.
Qed.

Lemma spends_bind (k1 s1 k2 s2 k s : nat) {A B : Type} (m : M A) (f : A -> M B) :
  spends k1 s1 m -> (forall a, spends k2 s2 (f a)) ->
  (k1 + k2 <= k)%nat -> (s1 + s2 <= s)%nat ->
  spends k s (bind m f).
Proof.
  intros Hm Hf Hk Hs w. unfold bind. destruct (Hm w) as [Hr1 Hs1].
  unfold pollInterval in *.
  destruct (m w) as [[a | message] w1]; cbn [snd] in *.
  - destruct (Hf a w1) as [Hr2 Hs2]. unfold pollInterval in Hs2. split; lia.
  - split; lia.
Qed.

Lemma spends_attempt (k s : nat) {A : Type} (m : M A) : spends k s m -> spends k s (attempt m).
Proof. intros Hm w. exact (Hm w). Qed.

Lemma spends_pollTask (baseUrl apiKey taskId : string) (timeout : Z) :
  spends (pollsLeft timeout 0) (pollsLeft timeout 0) (pollTask baseUrl apiKey taskId timeout).
Proof.
  intros w. unfold pollTask.
  destruct (pollLoop_bounded (pollRequest baseUrl apiKey taskId) timeout _ 0 w eq_refl)
    as (k & Hk & _ & _ & Hr & Hs).
  rewrite Hr, Hs. unfold pollInterval. split; lia.
Qed.

Lemma spends_submit (endpoint : Format -> string) (m1 m2 m3 m4 filePath : string)
    (o : Options) :
  spends 1 0 (submit P endpoint m1 m2 m3 m4 filePath o).
Proof.
  unfold submit.
  apply (spends_bind 0 0 1 0); [apply spends_lift | intros content | lia | lia].
  apply (spends_bind 1 0 0 0); [apply spends_fetch | intros reply | lia | lia].
  destruct reply as [response | message].
  - destruct (negb (ok response)).
    + apply (spends_bind 0 0 0 0); [apply spends_lift | intros b; apply spends_throw | lia | lia].
    + apply (spends_bind 0 0 0 0); [apply spends_lift | intros data | lia | lia].
      apply (spends_bind 0 0 0 0); [apply spends_lift | intros id; apply spends_lift | lia | lia].
  - apply (spends_bind 0 0 0 0);
      [now apply spends_log | intros _; apply spends_throw | lia | lia].
Qed.

Lemma spends_validateFile (filePath : string) (o : Options) :
  let polls := pollsLeft (pollingTimeoutSeconds o) 0 in
  spends (1 + polls) polls (validateFile P filePath o).
Proof.
  intros polls. unfold validateFile.
  apply (spends_bind 0 0 (1 + polls) polls); [now apply spends_log | intros _ | lia | lia].
  apply (spends_bind 1 0 polls polls); [apply spends_submit | intros id | lia | lia].
  apply (spends_bind polls polls 0 0); [apply spends_pollTask | intros outcome | lia | lia].
  destruct outcome as [result | e | | ]; try apply spends_ret.
  destruct (negb (truthy (prop result "is_valid"))); [ | apply spends_ret].
  apply (spends_bind 0 0 0 0); [now apply spends_log | intros _; apply spends_ret | lia | lia].
Qed.

Lemma spends_executeStep (filePath : string) (o : Options) :
  let polls := pollsLeft (pollingTimeoutSeconds o) 0 in
  spends (1 + polls) polls (executeStep P filePath o).
Proof.
  intros polls. unfold executeStep.
  apply (spends_bind (1 + polls) polls 0 0); [ | | lia | lia].
  - unfold executeFile.
    apply (spends_bind 0 0 (1 + polls) polls); [now apply spends_log | intros _ | lia | lia].
    apply (spends_bind 1 0 polls polls); [apply spends_submit | intros id | lia | lia].
    apply (spends_bind polls polls 0 0); [apply spends_pollTask | intros outcome | lia | lia].
    destruct outcome as [result | e | | ]; try apply spends_ret;
      (apply (spends_bind 0 0 0 0);
       [now apply spends_log | intros _; apply spends_ret | lia | lia]).
  - intros r. destruct (truthyError (op_error r)); apply spends_ret.
Qed.

Lemma spends_weaken (k s k' s' : nat) {A : Type} (m : M A) :
  (k <= k')%nat -> (s <= s')%nat -> spends k s m -> spends k' s' m.
Proof.
  intros Hk Hs Hm w. destruct (Hm w) as [Hr Hsl]. unfold pollInterval in *. split; lia.
Qed.

Lemma spends_processSingleFile (filePath : string) (o : Options) :
  let polls := pollsLeft (pollingTimeoutSeconds o) 0 in
  spends (2 * (1 + polls)) (2 * polls) (processSingleFile P filePath o).
Proof.
  intros polls.
  assert (Hexec : spends (2 * (1 + polls)) (2 * polls) (executeStep P filePath o))
    by (eapply spends_weaken; [ | | apply spends_executeStep]; fold polls; lia).
  unfold processSingleFile.
  destruct (validateOnly o || validateBeforeExecute o); [ | exact Hexec].
  apply (spends_bind (1 + polls) polls (1 + polls) polls);
    [apply spends_validateFile | intros v | lia | lia].
  destruct (negb (String.eqb (op_status v) "SUCCESS"));
    [eapply spends_weaken; [ | | apply spends_ret]; lia | ].
  destruct (validateOnly o);
    [eapply spends_weaken; [ | | apply spends_ret]; lia | apply spends_executeStep].
Qed.

Lemma spends_processAll (o : Options) (ff : bool) (k s : nat) :
  (forall filePath, spends k s (processSingleFile P filePath o)) ->
  forall filePaths results,
    spends (List.length filePaths * k) (List.length filePaths * s)
      (processAll P o ff filePaths results).
Proof.
  intros Hone filePaths.
  assert (Hstop : forall f (results : list FileResult),
             spends 0 0 (bind (log (stopping f)) (fun _ => ret results))).
  { intros f results.
    apply (spends_bind 0 0 0 0); [now apply spends_log | intros _; apply spends_ret | lia | lia]. }
  induction filePaths as [ | f rest IH]; intros results; cbn [processAll];
    [apply spends_ret | ].
  cbn [List.length].
  apply (spends_bind k s (List.length rest * k) (List.length rest * s));
    [apply spends_attempt, Hone | intros [r | message] | lia | lia].
  - destruct (truthyError (error r) && ff); [ | apply IH].
    eapply spends_weaken; [ | | apply Hstop]; lia.
  - destruct ff; [ | apply IH].
    eapply spends_weaken; [ | | apply Hstop]; lia.
Qed.

Lemma spends_validateAll (o : Options) (ff : bool) :
  let polls := pollsLeft (pollingTimeoutSeconds o) 0 in
  forall filePaths results,
    spends (List.length filePaths * (1 + polls)) (List.length filePaths * polls)
      (validateAll P o ff filePaths results).
Proof.
  intros polls filePaths.
  assert (Hstop : forall f (results : list FileResult),
             spends 0 0 (bind (log (stoppingValidation f)) (fun _ => ret results))).
  { intros f results.
    apply (spends_bind 0 0 0 0); [now apply spends_log | intros _; apply spends_ret | lia | lia]. }
  induction filePaths as [ | f rest IH]; intros results; cbn [validateAll];
    [apply spends_ret | ].
  cbn [List.length].
  apply (spends_bind (1 + polls) polls (List.length rest * (1 + polls))
           (List.length rest * polls));
    [apply spends_attempt, spends_validateFile | intros [v | message] | lia | lia].
  - destruct (negb (String.eqb (op_status v) "SUCCESS")); [ | apply IH].
    destruct ff; [ | apply IH].
    eapply spends_weaken; [ | | apply Hstop]; lia.
  - destruct ff; [ | apply IH].
    eapply spends_weaken; [ | | apply Hstop]; lia.
Qed.

Lemma spends_orchestrate (c : Config) :
  let polls := pollsLeft (pollingTimeoutSeconds (options c)) 0 in
  let files := List.length (filePaths c) in
  spends (2 * files * (1 + polls)) (2 * files * polls) (orchestrate P c).
Proof.
  intros polls files. unfold orchestrate.
  apply (spends_bind (2 * files * (1 + polls)) (2 * files * polls) 0 0);
    [ | intros results | lia | lia].
  - destruct (twoPhase c).
    + unfold validateFirst.
      apply (spends_bind (files * (1 + polls)) (files * polls)
               (files * (1 + polls)) (files * polls));
        [apply spends_validateAll | intros results | lia | lia].
      destruct (0 <? Z.of_nat (List.length (filter (fun r => negb (isSuccess r)) results))).
      * apply (spends_bind 0 0 0 0); [now apply spends_log | intros _ | lia | lia].
        apply (spends_bind 0 0 0 0);
          [now apply spends_log | intros _; apply spends_throw | lia | lia].
      * apply spends_processAll. intros f.
        unfold processSingleFile. cbn [validateOnly validateBeforeExecute orb].
        exact (spends_executeStep f (executeOptions (options c))).
    + eapply spends_weaken; [ | | apply spends_processAll; intros f;
                                   apply spends_processSingleFile];
        fold polls; fold files; lia.
  - unfold aggregate.
    apply (spends_bind 0 0 0 0); [now apply spends_log | intros _ | lia | lia].
    apply (spends_bind 0 0 0 0); [now apply spends_log | intros _ | lia | lia].
    destruct (failing (worstStatus results)); [apply spends_throw | apply spends_ret].
Qed.

End Effort.

(** X29.  The effort of a run is bounded by its configuration: for [n]
    files and a polling budget that allows [p] status requests per task
    (the budget in seconds over 5, rounded up), a run issues at most
    [2 n (1 + p)] requests and sleeps at most [2 n p] intervals of 5000 ms,
    whatever the network answers. *)
Theorem run_effort_bounded (P : Platform) (i : Inputs) (w w1 : World) (c : Config) :
  configure P i w = (Ok c, w1) ->
  let polls := pollsLeft (pollingTimeoutSeconds (options c)) 0 in
  let files := List.length (filePaths c) in
  (requests (trace (run P i w)) <= requests (trace w) + 2 * files * (1 + polls))%nat /\
  slept (trace (run P i w)) <= slept (trace w) + 5000 * Z.of_nat (2 * files * polls).
Proof.
  intros Hc polls files. rewrite run_parts, Hc.
  rewrite (configure_secret P i w w1 c Hc).
  destruct (spends_orchestrate P c (emit (SetSecret (apiKey (options c))) w)) as [Hr Hs].
  fold polls in Hr, Hs. fold files in Hr, Hs.
  rewrite requests_emit in Hr. cbn [isFetch] in Hr.
  unfold emit at 2 in Hs. cbn [trace] in Hs. rewrite slept_app in Hs.
  cbn [slept fold_right] in Hs. unfold pollInterval in Hs.
  destruct (orchestrate P c (emit (SetSecret (apiKey (options c))) w))
    as [[[] | message] w2]; cbn [snd] in Hr, Hs.
  - split; lia.
  - unfold failAction. rewrite !requests_emit. cbn [isFetch].
    unfold emit; cbn [trace]. rewrite !slept_app. cbn [slept fold_right]. split; lia.
Qed.

Lemma run_effort_bounded_witness :
  let w := freshWorld secondInvalid in
  exists c w1,
    configure examplePlatform validateOnlyInputs w = (Ok c, w1) /\
    let polls := pollsLeft (pollingTimeoutSeconds (options c)) 0 in
    let files := List.length (filePaths c) in
    (requests (trace (run examplePlatform validateOnlyInputs w))
     <= requests (trace w) + 2 * files * (1 + polls))%nat /\
    slept (trace (run examplePlatform validateOnlyInputs w))
    <= slept (trace w) + 5000 * Z.of_nat (2 * files * polls).
Proof.
  intros w.
  let r := eval vm_compute in (configure examplePlatform validateOnlyInputs w) in
  match r with
  | (Ok ?c, ?w1) => exists c, w1
  end.
  match goal with
  | |- ?start = (Ok ?c, ?w1) /\ _ =>
      assert (Hc : start = (Ok c, w1)) by (vm_compute; reflexivity);
      split; [exact Hc | ];
      exact (run_effort_bounded examplePlatform validateOnlyInputs w w1 c Hc)
  end.
Defined.
